(** * Routing configuration of the Vercel adapter for Next.js

    A shallow embedding of [packages/adapter/src]: the pattern escaper and
    the image-independent part of [utils.ts], the rewrite and data-route
    helpers of [routing.ts], the output bookkeeping of [outputs.ts] and the
    route table assembled by [onBuildComplete] in [index.ts].

    JavaScript strings are modelled as [string] (sequences of 8-bit
    characters), optional object properties as [option], arrays as [list],
    a [Map] as a [gmap] and an object used as a dictionary as the list of
    its properties, in the order in which JavaScript lists them. *)

From Stdlib Require Import Ascii String List Bool Arith NArith DecimalString Lia.
From stdpp Require Import base strings list gmap.

Local Open Scope list_scope.

(** ** JavaScript string primitives *)

Module Js.

(** [s.length] *)
Definition len (s : string) : nat := String.length s.

(** [s.substring(n)] *)
Fixpoint drop (n : nat) (s : string) : string :=
  match n, s with
  | O, _ => s
  | S _, EmptyString => EmptyString
  | S n', String _ s' => drop n' s'
  end.

(** [s.substring(0, n)] *)
Fixpoint take (n : nat) (s : string) : string :=
  match n, s with
  | O, _ => EmptyString
  | S _, EmptyString => EmptyString
  | S n', String c s' => String c (take n' s')
  end.

(** [s.startsWith(p)] *)
Fixpoint startsWith (p s : string) : bool :=
  match p, s with
  | EmptyString, _ => true
  | String _ _, EmptyString => false
  | String a p', String b s' => if Ascii.eqb a b then startsWith p' s' else false
  end.

(** [s.endsWith(p)] *)
Definition endsWith (p s : string) : bool :=
  (len p <=? len s) && String.eqb (drop (len s - len p) s) p.

(** [s.includes(p)] *)
Fixpoint includes (p s : string) : bool :=
  startsWith p s ||
  match s with
  | EmptyString => false
  | String _ s' => includes p s'
  end.

(** [s.indexOf(c)] for a one-character needle; [None] stands for [-1]. *)
Fixpoint indexOf (c : ascii) (s : string) : option nat :=
  match s with
  | EmptyString => None
  | String a s' =>
      if Ascii.eqb a c then Some 0
      else match indexOf c s' with
           | Some i => Some (S i)
           | None => None
           end
  end.

(** Truthiness of a string: only the empty string is falsy. *)
Definition truthy (s : string) : bool := negb (String.eqb s "").

(** [xs.join(sep)] *)
Fixpoint join (sep : string) (xs : list string) : string :=
  match xs with
  | [] => ""
  | [x] => x
  | x :: rest => x +:+ sep +:+ join sep rest
  end.

(** [s.replace(/[set]/g, '\\$&')]: every character of the class is
    prefixed with a backslash. *)
Fixpoint backslashEach (cls : ascii -> bool) (s : string) : string :=
  match s with
  | EmptyString => EmptyString
  | String c s' =>
      if cls c then String "\"%char (String c (backslashEach cls s'))
      else String c (backslashEach cls s')
  end.

(** Membership of a character in the characters of a string, used for
    regular-expression character classes. *)
Fixpoint charIn (c : ascii) (set : string) : bool :=
  match set with
  | EmptyString => false
  | String a set' => Ascii.eqb a c || charIn c set'
  end.

End Js.

(** ** [path.posix.join] of Node.js

    Library code, outside the repository: the non-empty arguments are joined
    with ["/"] and the result is normalised ([posix.normalize]): empty and
    ["."] segments vanish, a [".."] segment removes the segment before it
    (or stays, for a relative path without one), a leading and a trailing
    slash are kept. *)

Module Posix.

(** Split at every ["/"]; [cur] is the segment read so far, reversed. *)
Fixpoint splitAux (cur : list ascii) (s : string) : list string :=
  match s with
  | EmptyString => [string_of_list_ascii (rev cur)]
  | String c s' =>
      if Ascii.eqb c "/"%char then string_of_list_ascii (rev cur) :: splitAux [] s'
      else splitAux (c :: cur) s'
  end.

Definition split (s : string) : list string := splitAux [] s.

(** [normalizeString]: [acc] holds the kept segments, last one first. *)
Fixpoint normalizeSegments (allowAboveRoot : bool) (acc : list string)
         (segs : list string) : list string :=
  match segs with
  | [] => rev acc
  | seg :: rest =>
      if String.eqb seg "" || String.eqb seg "." then
        normalizeSegments allowAboveRoot acc rest
      else if String.eqb seg ".." then
        match acc with
        | last :: acc' =>
            if String.eqb last ".." then
              normalizeSegments allowAboveRoot
                (if allowAboveRoot then ".." :: acc else acc) rest
            else normalizeSegments allowAboveRoot acc' rest
        | [] =>
            normalizeSegments allowAboveRoot
              (if allowAboveRoot then [".."] else []) rest
        end
      else normalizeSegments allowAboveRoot (seg :: acc) rest
  end.

Definition normalize (p : string) : string :=
  if String.eqb p "" then "."
  else
    let isAbsolute := Js.startsWith "/" p in
    let trailingSeparator := Js.endsWith "/" p in
    let body := Js.join "/" (normalizeSegments (negb isAbsolute) [] (split p)) in
    if String.eqb body "" then
      if isAbsolute then "/" else if trailingSeparator then "./" else "."
    else
      let body' := if trailingSeparator then body +:+ "/" else body in
      if isAbsolute then "/" +:+ body' else body'.

Definition join (args : list string) : string :=
  match List.filter Js.truthy args with
  | [] => "."
  | parts => normalize (Js.join "/" parts)
  end.

End Posix.

(** ** [utils.ts]: the pattern escaper *)

(** [matchOperatorsRegex = /[|\\{}()[\]^$+*?.-]/g] *)
Definition matchOperators (c : ascii) : bool := Js.charIn c "|\{}()[]^$+*?.-".

Definition escapeStringRegexp (str : string) : string :=
  Js.backslashEach matchOperators str.

(** The escaper written inline in [index.ts] and [routing.ts]:
    [s.replace(/[.*+?^${}()|[\]\\]/g, '\\$&')]. *)
Definition inlineOperators (c : ascii) : bool := Js.charIn c ".*+?^${}()|[]\".

Definition inlineEscape (str : string) : string :=
  Js.backslashEach inlineOperators str.

(** ** The routing rule type of [@vercel/routing-utils] *)

(** An entry of a [has] or [missing] condition list. *)
Record HasField := {
  hf_type : string;
  hf_key : option string;
  hf_value : option string;
}.

(** The [locale] property of a rule. [redirect] is an object used as a
    dictionary: a key is held once. *)
Record LocaleField := {
  redirect : list (string * string);
  cookie : string;
}.

(** An entry of the [transforms] property. *)
Record Transform := {
  tr_type : string;
  tr_op : string;
  tr_target_key : string;
  tr_args : string;
}.

(** [RouteWithSrc]. A flag the code never writes is [None] (the property
    is absent from the object). *)
Record RouteWithSrc := {
  src : string;
  dest : option string;
  headers : option (list (string * string));
  status : option nat;
  has : option (list HasField);
  missing : option (list HasField);
  continue : option bool;
  override : option bool;
  important : option bool;
  check : option bool;
  caseSensitive : option bool;
  locale : option LocaleField;
  transforms : option (list Transform);
  middlewarePath : option string;
  middlewareRawSrc : option (list string);
}.

(** The phases of the routing engine: [{ handle: ... }]. *)
Inductive HandleValue :=
  | filesystem | resource | rewrite | miss | hit | error.

(** [Route]: a rule with a source pattern or a phase marker. *)
Inductive Route :=
  | Handle (h : HandleValue)
  | Rule (r : RouteWithSrc).

(** Object literals: [route s [f1; ...; fn]] is [{ src: s, f1, ..., fn }]. *)
Definition RouteProp := RouteWithSrc -> RouteWithSrc.

Definition bare (s : string) : RouteWithSrc :=
  {| src := s; dest := None; headers := None; status := None; has := None;
     missing := None; continue := None; override := None; important := None;
     check := None; caseSensitive := None; locale := None; transforms := None;
     middlewarePath := None; middlewareRawSrc := None |}.

Definition setSrc (v : string) : RouteProp := fun r =>
  {| src := v; dest := dest r; headers := headers r; status := status r;
     has := has r; missing := missing r; continue := continue r;
     override := override r; important := important r; check := check r;
     caseSensitive := caseSensitive r; locale := locale r;
     transforms := transforms r; middlewarePath := middlewarePath r;
     middlewareRawSrc := middlewareRawSrc r |}.

Definition setDest (v : option string) : RouteProp := fun r =>
  {| src := src r; dest := v; headers := headers r; status := status r;
     has := has r; missing := missing r; continue := continue r;
     override := override r; important := important r; check := check r;
     caseSensitive := caseSensitive r; locale := locale r;
     transforms := transforms r; middlewarePath := middlewarePath r;
     middlewareRawSrc := middlewareRawSrc r |}.

Definition setHeaders (v : option (list (string * string))) : RouteProp := fun r =>
  {| src := src r; dest := dest r; headers := v; status := status r;
     has := has r; missing := missing r; continue := continue r;
     override := override r; important := important r; check := check r;
     caseSensitive := caseSensitive r; locale := locale r;
     transforms := transforms r; middlewarePath := middlewarePath r;
     middlewareRawSrc := middlewareRawSrc r |}.

Definition setStatus (v : option nat) : RouteProp := fun r =>
  {| src := src r; dest := dest r; headers := headers r; status := v;
     has := has r; missing := missing r; continue := continue r;
     override := override r; important := important r; check := check r;
     caseSensitive := caseSensitive r; locale := locale r;
     transforms := transforms r; middlewarePath := middlewarePath r;
     middlewareRawSrc := middlewareRawSrc r |}.

Definition setHas (v : option (list HasField)) : RouteProp := fun r =>
  {| src := src r; dest := dest r; headers := headers r; status := status r;
     has := v; missing := missing r; continue := continue r;
     override := override r; important := important r; check := check r;
     caseSensitive := caseSensitive r; locale := locale r;
     transforms := transforms r; middlewarePath := middlewarePath r;
     middlewareRawSrc := middlewareRawSrc r |}.

Definition setMissing (v : option (list HasField)) : RouteProp := fun r =>
  {| src := src r; dest := dest r; headers := headers r; status := status r;
     has := has r; missing := v; continue := continue r;
     override := override r; important := important r; check := check r;
     caseSensitive := caseSensitive r; locale := locale r;
     transforms := transforms r; middlewarePath := middlewarePath r;
     middlewareRawSrc := middlewareRawSrc r |}.

Definition setContinue (v : option bool) : RouteProp := fun r =>
  {| src := src r; dest := dest r; headers := headers r; status := status r;
     has := has r; missing := missing r; continue := v;
     override := override r; important := important r; check := check r;
     caseSensitive := caseSensitive r; locale := locale r;
     transforms := transforms r; middlewarePath := middlewarePath r;
     middlewareRawSrc := middlewareRawSrc r |}.

Definition setOverride (v : option bool) : RouteProp := fun r =>
  {| src := src r; dest := dest r; headers := headers r; status := status r;
     has := has r; missing := missing r; continue := continue r;
     override := v; important := important r; check := check r;
     caseSensitive := caseSensitive r; locale := locale r;
     transforms := transforms r; middlewarePath := middlewarePath r;
     middlewareRawSrc := middlewareRawSrc r |}.

Definition setImportant (v : option bool) : RouteProp := fun r =>
  {| src := src r; dest := dest r; headers := headers r; status := status r;
     has := has r; missing := missing r; continue := continue r;
     override := override r; important := v; check := check r;
     caseSensitive := caseSensitive r; locale := locale r;
     transforms := transforms r; middlewarePath := middlewarePath r;
     middlewareRawSrc := middlewareRawSrc r |}.

Definition setCheck (v : option bool) : RouteProp := fun r =>
  {| src := src r; dest := dest r; headers := headers r; status := status r;
     has := has r; missing := missing r; continue := continue r;
     override := override r; important := important r; check := v;
     caseSensitive := caseSensitive r; locale := locale r;
     transforms := transforms r; middlewarePath := middlewarePath r;
     middlewareRawSrc := middlewareRawSrc r |}.

Definition setCaseSensitive (v : option bool) : RouteProp := fun r =>
  {| src := src r; dest := dest r; headers := headers r; status := status r;
     has := has r; missing := missing r; continue := continue r;
     override := override r; important := important r; check := check r;
     caseSensitive := v; locale := locale r;
     transforms := transforms r; middlewarePath := middlewarePath r;
     middlewareRawSrc := middlewareRawSrc r |}.

Definition setLocale (v : option LocaleField) : RouteProp := fun r =>
  {| src := src r; dest := dest r; headers := headers r; status := status r;
     has := has r; missing := missing r; continue := continue r;
     override := override r; important := important r; check := check r;
     caseSensitive := caseSensitive r; locale := v;
     transforms := transforms r; middlewarePath := middlewarePath r;
     middlewareRawSrc := middlewareRawSrc r |}.

Definition setTransforms (v : option (list Transform)) : RouteProp := fun r =>
  {| src := src r; dest := dest r; headers := headers r; status := status r;
     has := has r; missing := missing r; continue := continue r;
     override := override r; important := important r; check := check r;
     caseSensitive := caseSensitive r; locale := locale r;
     transforms := v; middlewarePath := middlewarePath r;
     middlewareRawSrc := middlewareRawSrc r |}.

Definition setMiddlewarePath (v : option string) : RouteProp := fun r =>
  {| src := src r; dest := dest r; headers := headers r; status := status r;
     has := has r; missing := missing r; continue := continue r;
     override := override r; important := important r; check := check r;
     caseSensitive := caseSensitive r; locale := locale r;
     transforms := transforms r; middlewarePath := v;
     middlewareRawSrc := middlewareRawSrc r |}.

Definition setMiddlewareRawSrc (v : option (list string)) : RouteProp := fun r =>
  {| src := src r; dest := dest r; headers := headers r; status := status r;
     has := has r; missing := missing r; continue := continue r;
     override := override r; important := important r; check := check r;
     caseSensitive := caseSensitive r; locale := locale r;
     transforms := transforms r; middlewarePath := middlewarePath r;
     middlewareRawSrc := v |}.

Definition route (s : string) (props : list RouteProp) : RouteWithSrc :=
  fold_left (fun r f => f r) props (bare s).

(** [...(cond ? { key: true } : {})] inside an object literal. *)
Definition spreadIf (cond : bool) (p : RouteProp) : RouteProp :=
  if cond then p else fun r => r.

(** A header condition [{ type: 'header', key, value? }]. *)
Definition headerCond (key : string) (value : option string) : HasField :=
  {| hf_type := "header"; hf_key := Some key; hf_value := value |}.

(** An object used as a dictionary is the list of its properties in the
    order in which JavaScript lists them ([Object.keys], [JSON.stringify]):
    first the keys that are array indices, in ascending order, then the
    other keys in the order of their creation. *)

(** The array index a key stands for: a decimal numeral without leading
    zero, below [2^32 - 1]. *)
Definition arrayIndex (key : string) : option N :=
  match DecimalString.NilZero.uint_of_string key with
  | Some d =>
      let n := N.of_uint d in
      if String.eqb (DecimalString.NilZero.string_of_uint (N.to_uint n)) key
         && (n <? 4294967295)%N
      then Some n
      else None
  | None => None
  end.

(** A new key [key] is listed in front of the key [k]. *)
Definition keyBefore (key k : string) : bool :=
  match arrayIndex key, arrayIndex k with
  | Some i, Some j => (i <? j)%N
  | Some _, None => true
  | None, _ => false
  end.

(** [key in obj] for an own property. *)
Definition objHas (key : string) (obj : list (string * string)) : bool :=
  existsb (fun kv => String.eqb (fst kv) key) obj.

(** [obj[key] = value] for a key the object has: the key keeps its place. *)
Fixpoint objUpdate (key value : string) (obj : list (string * string))
  : list (string * string) :=
  match obj with
  | [] => []
  | (k, v) :: rest =>
      if String.eqb k key then (k, value) :: rest
      else (k, v) :: objUpdate key value rest
  end.

(** [obj[key] = value] for a key the object does not have. *)
Fixpoint objInsert (key value : string) (obj : list (string * string))
  : list (string * string) :=
  match obj with
  | [] => [(key, value)]
  | (k, v) :: rest =>
      if keyBefore key k then (key, value) :: (k, v) :: rest
      else (k, v) :: objInsert key value rest
  end.

(** [obj[key] = value] *)
Definition objSet (key value : string) (obj : list (string * string))
  : list (string * string) :=
  if objHas key obj then objUpdate key value obj
  else objInsert key value obj.

(** [{ ...a, ...b }] on dictionaries *)
Definition objSpread (a b : list (string * string)) : list (string * string) :=
  fold_left (fun acc kv => objSet (fst kv) (snd kv) acc) b a.


(** ** The build description handed to the adapter *)

(** [config.i18n.domains[k]] *)
Record DomainLocale := {
  domain : string;
  domainDefaultLocale : string;
  domainLocales : option (list string);
  http : option bool;
}.

(** [config.i18n] *)
Record I18NConfig := {
  defaultLocale : string;
  locales : list string;
  domains : option (list DomainLocale);
  localeDetection : option bool;
}.

(** The part of [NextConfig] the adapter reads. *)
Record NextConfig := {
  basePath : string;
  trailingSlash : bool;
  i18n : option I18NConfig;
  cacheComponents : bool;
  clientSegmentCache : bool;
}.

(** An entry of [routes.rewrites.*] and of [routes.dynamicRoutes]. *)
Record RewriteItem := {
  rw_sourceRegex : string;
  rw_destination : string;
  rw_has : option (list HasField);
  rw_missing : option (list HasField);
}.

(** An entry of [routes.redirects]. *)
Record RedirectItem := {
  rd_sourceRegex : string;
  rd_destination : string;
  rd_statusCode : nat;
  rd_priority : bool;
  rd_has : option (list HasField);
  rd_missing : option (list HasField);
}.

(** An entry of [routes.headers]. *)
Record HeaderItem := {
  hd_sourceRegex : string;
  hd_headers : list (string * string);
  hd_priority : bool;
  hd_has : option (list HasField);
  hd_missing : option (list HasField);
}.

Record Rewrites := {
  beforeFiles : list RewriteItem;
  afterFiles : list RewriteItem;
  fallback : list RewriteItem;
}.

(** [routes] of [onBuildComplete] *)
Record AdapterRoutes := {
  rewrites : Rewrites;
  redirects : list RedirectItem;
  routeHeaders : list HeaderItem;
  dynamicRoutes : list RewriteItem;
}.

(** ** [routing.ts] *)

(** The three arrays returned by [normalizeRewrites]. *)
Record ConvertedRewrites := {
  cBeforeFiles : list RouteWithSrc;
  cAfterFiles : list RouteWithSrc;
  cFallback : list RouteWithSrc;
}.

(** The local function [normalize] of [normalizeRewrites]. *)
Definition normalizeItem (item : RewriteItem) : RouteWithSrc :=
  route (rw_sourceRegex item)
    [ setDest (Some (rw_destination item));
      setHas (rw_has item);
      setMissing (rw_missing item);
      setCheck (Some true) ].

Definition normalizeRewrites (rw : Rewrites) : ConvertedRewrites :=
  {| cBeforeFiles :=
       map (fun item =>
              let r := normalizeItem item in
              (* delete route.check; route.continue = true; route.override = true *)
              setOverride (Some true) (setContinue (Some true) (setCheck None r)))
           (beforeFiles rw);
     cAfterFiles := map normalizeItem (afterFiles rw);
     cFallback := map normalizeItem (fallback rw) |}.

(** The options object of [modifyWithRewriteHeaders]. *)
Record RewriteHeaderOpts := {
  isAfterFilesRewrite : bool;
  shouldHandlePrefetchRsc : bool;
  shouldHandleSegmentPrefetches : bool;
}.

(** The text matched by [\(\?:\\\/\)\?\$] : an optional, escaped trailing
    slash followed by the end anchor. *)
Definition trailingSlashSuffix : string := "(?:\/)?$".

(** [src.replace(/(\\\/(\?)?)?\(\?:\\\/\)\?\$$/, repl)]: the pattern is
    anchored at the end of the string, so a match is one of three suffixes;
    the search is leftmost, so the longest is tried first. [repl] holds no
    [$] and is inserted as it is. *)
Definition replaceTrailingSlashSuffix (repl s : string) : string :=
  if Js.endsWith ("\/?" +:+ trailingSlashSuffix) s then
    Js.take (Js.len s - 11) s +:+ repl
  else if Js.endsWith ("\/" +:+ trailingSlashSuffix) s then
    Js.take (Js.len s - 10) s +:+ repl
  else if Js.endsWith trailingSlashSuffix s then
    Js.take (Js.len s - 8) s +:+ repl
  else s.

(** [parts.join('|')] of the after-files branch. *)
Definition rscSuffix (opts : RewriteHeaderOpts) : string :=
  Js.join "|"
    (["\.rsc"]
       ++ (if shouldHandlePrefetchRsc opts then ["\.prefetch\.rsc"] else [])
       ++ (if shouldHandleSegmentPrefetches opts
           then ["\.segments/.+\.segment\.rsc"] else [])).

(** The protocol found at the head of a destination. *)
Definition protocolOf (d : string) : option string :=
  if Js.startsWith "http://" d then Some "http://"
  else if Js.startsWith "https://" d then Some "https://"
  else None.

(** Path and query of a destination without protocol; [None] is [null]. *)
Definition splitDestination (d : string) : option string * option string :=
  match Js.indexOf "?"%char d with
  | Some index =>
      let query := Js.drop (index + 1) d in
      let pathname := Js.take index d in
      match Js.indexOf "#"%char query with
      | Some i => (Some pathname, Some (Js.take i query))
      | None => (Some pathname, Some query)
      end
  | None =>
      match Js.indexOf "#"%char d with
      | Some i => (Some (Js.take i d), None)
      | None => (Some d, None)
      end
  end.

(** Truthiness of a [string | null | undefined]. *)
Definition truthyOpt (o : option string) : bool :=
  match o with
  | Some s => Js.truthy s
  | None => false
  end.

(** The destination with the captured suffix: at the end, or in front of
    the query string. *)
Definition addRscSuffixToDest (d : string) : string :=
  match Js.indexOf "?"%char d with
  | None => d +:+ "$rscsuff"
  | Some destQueryIndex =>
      Js.take destQueryIndex d +:+ "$rscsuff" +:+ Js.drop destQueryIndex d
  end.

(** One iteration of the loop of [modifyWithRewriteHeaders]. *)
Definition modifyRewrite (opts : RewriteHeaderOpts) (rw : RouteWithSrc)
  : RouteWithSrc :=
  match dest rw with
  | None => rw
  | Some d =>
      if negb (Js.truthy (src rw)) || negb (Js.truthy d) then rw
      else
        let protocol := protocolOf d in
        let '(pathname, query) :=
          match protocol with
          | None => splitDestination d
          | Some _ => (None, None)
          end in
        let rw1 :=
          if isAfterFilesRewrite opts then
            setDest (Some (addRscSuffixToDest d))
              (setSrc (replaceTrailingSlashSuffix
                         ("(?:/)?(?<rscsuff>" +:+ rscSuffix opts +:+ ")?")
                         (src rw)) rw)
          else rw in
        if truthyOpt protocol || (negb (truthyOpt pathname) && negb (truthyOpt query))
        then rw1
        else
          setHeaders
            (Some (objSpread
                     (objSpread (default [] (headers rw1))
                        (match pathname with
                         | Some p => if Js.truthy p
                                     then [("x-nextjs-rewritten-path", p)] else []
                         | None => []
                         end))
                     (match query with
                      | Some q => if Js.truthy q
                                  then [("x-nextjs-rewritten-query", q)] else []
                      | None => []
                      end)))
            rw1
  end.

(** The rewrites of the array are updated in place, one after the other. *)
Definition modifyWithRewriteHeaders (rws : list RouteWithSrc)
           (opts : RewriteHeaderOpts) : list RouteWithSrc :=
  map (modifyRewrite opts) rws.

Definition normalizeNextDataRoutes (config : NextConfig) (buildId : string)
           (shouldHandleMiddlewareDataResolving isOverride : bool)
  : list RouteWithSrc :=
  if negb shouldHandleMiddlewareDataResolving then []
  else
    let basePath := basePath config in
    let trailingSlash := trailingSlash config in
    [ (* ensure x-nextjs-data header is always present *)
      route (Posix.join ["/"; basePath; "/_next/data/(.*)"])
        [ setMissing (Some [headerCond "x-nextjs-data" None]);
          setTransforms
            (Some [ {| tr_type := "request.headers"; tr_op := "append";
                       tr_target_key := "x-nextjs-data"; tr_args := "1" |} ]);
          setContinue (Some true) ];
      (* strip _next/data prefix for resolving *)
      route ("^" +:+ Posix.join ["/"; basePath; "/_next/data/";
                                 inlineEscape buildId; "/(.*).json"])
        [ setDest (Some (Posix.join ["/"; basePath; "/$1";
                                     if trailingSlash then "/" else ""]));
          spreadIf isOverride (setOverride (Some true));
          setContinue (Some true);
          setHas (Some [headerCond "x-nextjs-data" None]) ];
      (* normalize "/index" from "/_next/data/index.json" to just "/" *)
      route (Posix.join ["^/"; basePath; "/index(?:/)?"])
        [ setHas (Some [headerCond "x-nextjs-data" None]);
          setDest (Some (Posix.join ["/"; basePath;
                                     if trailingSlash then "/" else ""]));
          spreadIf isOverride (setOverride (Some true));
          setContinue (Some true) ] ].

Definition denormalizeNextDataRoutes (config : NextConfig) (buildId : string)
           (shouldHandleMiddlewareDataResolving isOverride : bool)
  : list RouteWithSrc :=
  if negb shouldHandleMiddlewareDataResolving then []
  else
    let basePath := basePath config in
    let trailingSlash := trailingSlash config in
    [ route (Posix.join
               ["^/";
                if Js.truthy basePath && negb (String.eqb basePath "/")
                then basePath +:+ (if trailingSlash then "/$" else "$")
                else "$"])
        [ setHas (Some [headerCond "x-nextjs-data" None]);
          setDest (Some (Posix.join ["/"; basePath; "/_next/data/"; buildId;
                                     "/index.json"]));
          setContinue (Some true);
          spreadIf isOverride (setOverride (Some true)) ];
      route (Posix.join ["^/"; basePath; "((?!_next/)(?:.*[^/]|.*))/?$"])
        [ setHas (Some [headerCond "x-nextjs-data" None]);
          setDest (Some (Posix.join ["/"; basePath; "/_next/data/"; buildId;
                                     "/$1.json"]));
          setContinue (Some true);
          spreadIf isOverride (setOverride (Some true)) ] ].

(** ** [constants.ts] *)

Definition MAX_AGE_ONE_YEAR : N := 31536000%N.

(** Decimal rendering of a number inside a template literal. *)
Definition numberToString (n : N) : string :=
  DecimalString.NilZero.string_of_uint (N.to_uint n).

(** ** The outputs of the build *)

(** [AdapterOutputType] of [next/dist/shared/lib/constants], a string enum
    whose members have their own name as value. *)
Inductive AdapterOutputType :=
  | PAGES | PAGES_API | APP_PAGE | APP_ROUTE | PRERENDER | STATIC_FILE | MIDDLEWARE.

Definition outputTypeValue (t : AdapterOutputType) : string :=
  match t with
  | PAGES => "PAGES"
  | PAGES_API => "PAGES_API"
  | APP_PAGE => "APP_PAGE"
  | APP_ROUTE => "APP_ROUTE"
  | PRERENDER => "PRERENDER"
  | STATIC_FILE => "STATIC_FILE"
  | MIDDLEWARE => "MIDDLEWARE"
  end.

Inductive Runtime := nodejs | edge.

(** [output.config.matchers[k]] of the middleware output. *)
Record Matcher := {
  m_sourceRegex : string;
  m_source : option string;
  m_has : option (list HasField);
  m_missing : option (list HasField);
}.

(** An element of [FuncOutputs]: a page, route, API or middleware output. *)
Record FuncOutput := {
  o_id : string;
  o_pathname : string;
  o_runtime : Runtime;
  o_type : AdapterOutputType;
  o_sourcePage : string;
  o_maxDuration : option nat;
  o_matchers : option (list Matcher);
}.

(** [AdapterOutput['STATIC_FILE']] *)
Record StaticFile := {
  sf_pathname : string;
  sf_filePath : string;
}.

(** The values of [parentFallbackMode]. *)
Inductive FallbackMode :=
  | FallbackUndefined
  | FallbackNull
  | FallbackFalse
  | FallbackPath (p : string).

(** [AdapterOutput['PRERENDER']] *)
Record Prerender := {
  pr_pathname : string;
  pr_parentOutputId : string;
  pr_parentFallbackMode : FallbackMode;
  pr_groupId : nat;
}.

Record Outputs := {
  appPages : list FuncOutput;
  appRoutes : list FuncOutput;
  pages : list FuncOutput;
  pagesApi : list FuncOutput;
  staticFiles : list StaticFile;
  prerenders : list Prerender;
  middleware : option FuncOutput;
}.

(** The argument of [onBuildComplete], without the directories. *)
Record BuildContext := {
  routes : AdapterRoutes;
  config : NextConfig;
  buildId : string;
  outputs : Outputs;
  nextVersion : string;
}.

(** ** Failure of the build *)

(** The two [throw new Error("Invariant: ...")] of the adapter. *)
Inductive BuildError :=
  | MissingParentOutput (parentOutputId : string) (prerender : Prerender)
  | FailedToFindParentNodeOutput (parentOutputId : string) (pathname : string).

(** A computation that returns or throws. *)
Definition Result (A : Type) : Type := BuildError + A.

Definition ret {A} (a : A) : Result A := inr a.
Definition throw {A} (e : BuildError) : Result A := inl e.

Definition bind {A B} (m : Result A) (k : A -> Result B) : Result B :=
  match m with
  | inl e => inl e
  | inr a => k a
  end.

Notation "'let!' x ':=' m 'in' k" := (bind m (fun x => k))
  (at level 10, x name, m at level 100, k at level 200).

(** A loop whose body may throw: the first failure ends it. *)
Fixpoint forEachM {A S} (body : S -> A -> Result S) (xs : list A) (s : S)
  : Result S :=
  match xs with
  | [] => ret s
  | x :: rest => let! s' := body s x in forEachM body rest s'
  end.

(** ** [outputs.ts] *)

(** [output.type === AdapterOutputType.APP_PAGE || AdapterOutputType.PAGES
      ? 'PAGE' : 'API'].  [===] binds tighter than [||], and [||] yields its
    right operand, the string [AdapterOutputType.PAGES], when the comparison
    is false; the conditional tests the truthiness of the result. *)
Definition operationType (output : FuncOutput) : string :=
  let cond :=
    match o_type output with
    | APP_PAGE => true
    | _ => Js.truthy (outputTypeValue PAGES)
    end in
  if cond then "PAGE" else "API".

(** The fields of [.vc-config.json] that do not come from the file system
    or from [@vercel/build-utils]. *)
Record NodeVcConfig := {
  vc_operationType : string;
  vc_frameworkSlug : string;
  vc_frameworkVersion : string;
  vc_maxDuration : option nat;
  vc_supportsResponseStreaming : bool;
  vc_experimentalAllowBundling : bool;
  vc_useWebApi : option bool;
  vc_launcherType : string;
}.

(** The directory of a function, relative to [functions/]. *)
Definition functionDir (pathname : string) : string :=
  (if String.eqb pathname "/" then "/index" else pathname) +:+ ".func".

(** [handleNodeOutputs]: the configuration written for each output, with
    the path of its [.vc-config.json]. *)
Definition handleNodeOutputs (nodeOutputs : list FuncOutput)
           (nextVersion : string) (isMiddleware : option bool)
  : list (string * NodeVcConfig) :=
  map (fun output =>
         (functionDir (o_pathname output) +:+ "/.vc-config.json",
          {| vc_operationType := operationType output;
             vc_frameworkSlug := "nextjs";
             vc_frameworkVersion := nextVersion;
             vc_maxDuration := o_maxDuration output;
             vc_supportsResponseStreaming := true;
             vc_experimentalAllowBundling := true;
             vc_useWebApi := isMiddleware;
             vc_launcherType := "Nodejs" |}))
      nodeOutputs.

(** The routes returned by [handleMiddleware]. *)
Definition handleMiddleware (output : FuncOutput) : list RouteWithSrc :=
  map (fun matcher =>
         route (m_sourceRegex matcher)
           [ setContinue (Some true);
             setHas (m_has matcher);
             setMissing (m_missing matcher);
             setMiddlewarePath (Some (o_pathname output));
             setMiddlewareRawSrc
               (Some (match m_source matcher with
                      | Some s => if Js.truthy s then [s] else []
                      | None => []
                      end));
             setOverride (Some true) ])
      (default [] (o_matchers output)).

(** What [handlePrerenderOutputs] writes for a prerender: the path of its
    [.prerender-config.json] with the group and the path of the parent
    function. *)
Record PrerenderConfig := {
  pc_path : string;
  pc_group : nat;
  pc_sourcePath : string;
}.

(** [handlePrerenderOutputs]; the outputs are taken in array order. *)
Definition handlePrerenderOutputs (prerenderOutputs : list Prerender)
           (nodeOutputsParentMap : gmap string FuncOutput)
  : Result (list PrerenderConfig) :=
  forEachM
    (fun written output =>
       match nodeOutputsParentMap !! pr_parentOutputId output with
       | None =>
           throw (FailedToFindParentNodeOutput (pr_parentOutputId output)
                    (pr_pathname output))
       | Some parentNodeOutput =>
           ret (written ++
                [ {| pc_path :=
                       (if String.eqb (pr_pathname output) "/" then "/index"
                        else pr_pathname output) +:+ ".prerender-config.json";
                     pc_group := pr_groupId output;
                     pc_sourcePath := o_pathname parentNodeOutput |} ])
       end)
    prerenderOutputs [].

(** ** [index.ts]: facts derived from the outputs *)

Definition hasMiddleware (ctx : BuildContext) : bool :=
  match middleware (outputs ctx) with Some _ => true | None => false end.

Definition nonEmpty {A} (l : list A) : bool :=
  match l with [] => false | _ :: _ => true end.

Definition hasAppDir (ctx : BuildContext) : bool :=
  nonEmpty (appPages (outputs ctx)) || nonEmpty (appRoutes (outputs ctx)).

Definition hasPagesDir (ctx : BuildContext) : bool :=
  nonEmpty (pages (outputs ctx)) || nonEmpty (pagesApi (outputs ctx)).

Definition shouldHandleMiddlewareDataResolving (ctx : BuildContext) : bool :=
  hasPagesDir ctx && hasMiddleware ctx.

(** [[...appPages, ...appRoutes, ...pages, ...pagesApi]] *)
Definition functionOutputs (ctx : BuildContext) : list FuncOutput :=
  appPages (outputs ctx) ++ appRoutes (outputs ctx)
    ++ pages (outputs ctx) ++ pagesApi (outputs ctx).

(** An output, function or static file, whose pathname ends in [suffix]. *)
Definition hasOutputEnding (suffix : string) (ctx : BuildContext) : bool :=
  existsb (fun o => Js.endsWith suffix (o_pathname o)) (functionOutputs ctx)
  || existsb (fun o => Js.endsWith suffix (sf_pathname o)) (staticFiles (outputs ctx)).

Definition hasNotFoundOutput := hasOutputEnding "/_not-found".
Definition has404Output := hasOutputEnding "/404".
Definition has500Output := hasOutputEnding "/500".

Definition notFoundPath (ctx : BuildContext) : string :=
  if hasNotFoundOutput ctx then "/_not-found"
  else if has404Output ctx then "/404"
  else "/_error".

Definition isNodejs (o : FuncOutput) : bool :=
  match o_runtime o with nodejs => true | edge => false end.

Definition nodeOutputs (ctx : BuildContext) : list FuncOutput :=
  List.filter isNodejs (functionOutputs ctx).

Definition edgeOutputs (ctx : BuildContext) : list FuncOutput :=
  List.filter (fun o => negb (isNodejs o)) (functionOutputs ctx).

(** [nodeOutputsParentMap.set(output.id, output)] for every Node.js output,
    in order. *)
Definition nodeOutputsParentMap (ctx : BuildContext) : gmap string FuncOutput :=
  fold_left (fun m o => <[o_id o := o]> m) (nodeOutputs ctx) ∅.

(** The prerenders that enter [prerenderFallbackFalseMap]. *)
Definition isFallbackFalsePrerender (p : Prerender) : bool :=
  match pr_parentFallbackMode p with
  | FallbackFalse =>
      negb (Js.includes "_next/data" (pr_pathname p))
      && negb (Js.endsWith ".rsc" (pr_pathname p))
  | _ => false
  end.

(** The loop that fills [prerenderFallbackFalseMap]. *)
Definition prerenderFallbackFalseMap (ctx : BuildContext)
  : Result (gmap string (list string)) :=
  forEachM
    (fun (m : gmap string (list string)) prerender =>
       if isFallbackFalsePrerender prerender then
         match nodeOutputsParentMap ctx !! pr_parentOutputId prerender with
         | None =>
             throw (MissingParentOutput (pr_parentOutputId prerender) prerender)
         | Some parentOutput =>
             let n := Js.len (basePath (config ctx)) in
             let parentPage := Js.drop n (o_pathname parentOutput) in
             let currentMap := default [] (m !! parentPage) in
             ret (<[parentPage := currentMap ++ [Js.drop n (pr_pathname prerender)]]> m)
         end
       else ret m)
    (prerenders (outputs ctx)) ∅.

Definition flagPrefetchRsc (ctx : BuildContext) : bool :=
  cacheComponents (config ctx).

Definition flagSegmentPrefetches (ctx : BuildContext) : bool :=
  clientSegmentCache (config ctx) || cacheComponents (config ctx).

(** [convertedRewrites] after the three calls of [modifyWithRewriteHeaders]. *)
Definition convertedRewrites (ctx : BuildContext) : ConvertedRewrites :=
  let converted := normalizeRewrites (rewrites (routes ctx)) in
  if flagPrefetchRsc ctx || flagSegmentPrefetches ctx then
    let opts after :=
      {| isAfterFilesRewrite := after;
         shouldHandlePrefetchRsc := flagPrefetchRsc ctx;
         shouldHandleSegmentPrefetches := flagSegmentPrefetches ctx |} in
    {| cBeforeFiles := modifyWithRewriteHeaders (cBeforeFiles converted) (opts false);
       cAfterFiles := modifyWithRewriteHeaders (cAfterFiles converted) (opts true);
       cFallback := modifyWithRewriteHeaders (cFallback converted) (opts false) |}
  else converted.

(** The rule built for a redirect, before [continue] is set. *)
Definition redirectRoute (rd : RedirectItem) : RouteWithSrc :=
  route (rd_sourceRegex rd)
    [ setHeaders (Some [("Location", rd_destination rd)]);
      setStatus (Some (rd_statusCode rd));
      setHas (rd_has rd);
      setMissing (rd_missing rd) ].

(** The loop over [routes.redirects] fills two arrays, each in input order. *)
Definition priorityRedirects (ctx : BuildContext) : list RouteWithSrc :=
  map (fun rd => setContinue (Some true) (redirectRoute rd))
      (List.filter rd_priority (redirects (routes ctx))).

Definition plainRedirects (ctx : BuildContext) : list RouteWithSrc :=
  map redirectRoute
      (List.filter (fun rd => negb (rd_priority rd)) (redirects (routes ctx))).

Definition headerRoutes (ctx : BuildContext) : list RouteWithSrc :=
  map (fun h =>
         route (hd_sourceRegex h)
           [ setHeaders (Some (hd_headers h));
             setContinue (Some true);
             setHas (hd_has h);
             setMissing (hd_missing h);
             spreadIf (hd_priority h) (setImportant (Some true)) ])
      (routeHeaders (routes ctx)).

(** The rule that answers 404 for a [_next/data] path no page claimed. *)
Definition nextData404Route (ctx : BuildContext) : RouteWithSrc :=
  route (Posix.join ["/"; basePath (config ctx); "_next/data/(.*)"])
    [ setDest (Some (Posix.join ["/"; basePath (config ctx); "404"]));
      setStatus (Some 404);
      setCheck (Some true) ].

Definition dynamicRoute (r : RewriteItem) : RouteWithSrc :=
  route (rw_sourceRegex r)
    [ setDest (Some (rw_destination r));
      setCheck (Some true);
      setHas (rw_has r);
      setMissing (rw_missing r) ].

(** The loop over [routes.dynamicRoutes]; [added] is
    [addedNextData404Route]. *)
Fixpoint dynamicRoutesFrom (ctx : BuildContext) (added : bool)
         (rs : list RewriteItem) : list RouteWithSrc :=
  match rs with
  | [] => []
  | r :: rest =>
      let add :=
        hasPagesDir ctx && negb (hasMiddleware ctx)
        && (negb (Js.includes "_next/data" (rw_sourceRegex r)) && negb added) in
      (if add then [nextData404Route ctx] else [])
        ++ dynamicRoute r :: dynamicRoutesFrom ctx (added || add) rest
  end.

Definition dynamicRouteRules (ctx : BuildContext) : list RouteWithSrc :=
  dynamicRoutesFrom ctx false (dynamicRoutes (routes ctx)).

Definition middlewareRoutes (ctx : BuildContext) : list RouteWithSrc :=
  match middleware (outputs ctx) with
  | Some output => handleMiddleware output
  | None => []
  end.

(** ** [index.ts]: the rule groups of [vercelConfig.routes]

    The array literal is a sequence of spread groups; each group below is
    one of them, in the order of the source. *)

Section Groups.

Variable ctx : BuildContext.

Let bp : string := basePath (config ctx).

(** [config.basePath && config.basePath !== '/'] *)
Definition basePathSet : bool := Js.truthy bp && negb (String.eqb bp "/").

(** [locales.map((locale) => escapeStringRegexp(locale)).join('|')] *)
Definition localeAlternation (i : I18NConfig) : string :=
  Js.join "|" (map escapeStringRegexp (locales i)).

(** The same with the escaper written inline. *)
Definition localeAlternationInline (i : I18NConfig) : string :=
  Js.join "|" (map inlineEscape (locales i)).

(** The pattern of a path under the base path that starts with neither
    [_next/] nor a locale. *)
Definition nonLocalePattern (i : I18NConfig) (tail : string) : string :=
  "^" +:+ Posix.join ["/"; bp; "/"] +:+ "(?!(?:_next/.*|"
      +:+ localeAlternation i +:+ ")(?:/.*|$))" +:+ tail.

(** Auto-adding the current default locale, based on [$wildcard]. *)
Definition localeWildcardRoutes (i : I18NConfig) : list RouteWithSrc :=
  let prefix := if basePathSet then Posix.join ["/"; bp] else "" in
  [ route (nonLocalePattern i "$")
      [ setDest (Some (prefix +:+ "$wildcard"
                         +:+ (if trailingSlash (config ctx) then "/" else "")));
        setContinue (Some true) ];
    route (nonLocalePattern i "(.*)$")
      [ setDest (Some (prefix +:+ "$wildcard/$1"));
        setContinue (Some true) ] ].

(** [http${item.http ? '' : 's'}://${item.domain}/] *)
Definition domainUrl (item : DomainLocale) : string :=
  "http" +:+ (match http item with Some true => "" | _ => "s" end)
         +:+ "://" +:+ domain item +:+ "/".

(** The [reduce] over [config.i18n.domains]. *)
Definition domainRedirectMap (ds : list DomainLocale) : list (string * string) :=
  fold_left
    (fun prev item =>
       let prev1 := objSet (domainDefaultLocale item) (domainUrl item) prev in
       match domainLocales item with
       | Some ls =>
           fold_left (fun p locale => objSet locale (domainUrl item +:+ locale) p)
                     ls prev1
       | None => prev1
       end)
    ds [].

(** Redirecting to locale specific domains. *)
Definition localeDomainRedirectRoutes (i : I18NConfig) : list RouteWithSrc :=
  match domains i with
  | Some ds =>
      if nonEmpty ds && negb (bool_decide (localeDetection i = Some false)) then
        [ route ("^" +:+ Posix.join ["/"; bp] +:+ "/?(?:"
                     +:+ localeAlternation i +:+ ")?/?$")
            [ setLocale (Some {| redirect := domainRedirectMap ds;
                                 cookie := "NEXT_LOCALE" |});
              setContinue (Some true) ] ]
      else []
  | None => []
  end.

(** The [reduce] over [config.i18n.locales]. *)
Definition localeRedirectMap (i : I18NConfig) : list (string * string) :=
  fold_left
    (fun prev locale =>
       objSet locale
         (if String.eqb locale (defaultLocale i) then "/" else "/" +:+ locale)
         prev)
    (locales i) [].

(** Redirecting to locale paths. *)
Definition localeRedirectRoutes (i : I18NConfig) : list RouteWithSrc :=
  if negb (bool_decide (localeDetection i = Some false)) then
    [ route "/"
        [ setLocale (Some {| redirect := localeRedirectMap i;
                             cookie := "NEXT_LOCALE" |});
          setContinue (Some true) ] ]
  else [].

(** The rewrite of the base path, and of a path without locale, to the
    default locale; [flag] is [continue: true] in front of the user
    rules and [check: true] in the miss phase. *)
Definition defaultLocaleRewriteRoutes (i : I18NConfig) (flag : RouteProp)
  : list RouteWithSrc :=
  [ route ("^" +:+ Posix.join ["/"; bp] +:+ "$")
      [ setDest (Some (Posix.join ["/"; bp; defaultLocale i]));
        flag ];
    route (nonLocalePattern i "(.*)$")
      [ setDest (Some (Posix.join ["/"; bp; defaultLocale i] +:+ "/$1"));
        flag ] ].

(** 404 and 500 handling when the page is requested literally. *)
Definition literalStatusLocaleRoute (i : I18NConfig) (code : nat)
           (page : string) (extra : list RouteProp) : RouteWithSrc :=
  route (Posix.join ["/"; bp; "/"] +:+ "(?:" +:+ localeAlternationInline i
                    +:+ ")?[/]?" +:+ page +:+ "/?")
    ([ setStatus (Some code); setContinue (Some true) ] ++ extra).

Definition literalStatusRoute (code : nat) (page : string)
           (extra : list RouteProp) : RouteWithSrc :=
  route (Posix.join ["/"; bp; page +:+ "/?"])
    ([ setStatus (Some code); setContinue (Some true) ] ++ extra).

Definition missingRevalidate : RouteProp :=
  setMissing (Some [headerCond "x-prerender-revalidate" None]).

Definition rscHeader : RouteProp :=
  setHas (Some [headerCond "rsc" (Some "1")]).

Definition varyHeader : RouteProp :=
  setHeaders (Some [("vary", "RSC, Next-Router-State-Tree, Next-Router-Prefetch")]).

(** RSC and prefetch request handling for App Router. *)
Definition appRscRoutes : list RouteWithSrc :=
  [ route ("^" +:+ Posix.join ["/"; bp; "/?"])
      [ rscHeader;
        setDest (Some (Posix.join ["/"; bp; "/index.rsc"]));
        varyHeader; setContinue (Some true); setOverride (Some true) ];
    route ("^" +:+ Posix.join ["/"; bp; "/((?!.+\.rsc).+?)(?:/)?$"])
      [ rscHeader;
        setDest (Some (Posix.join ["/"; bp; "/$1.rsc"]));
        varyHeader; setContinue (Some true); setOverride (Some true) ] ].

Definition nextImageRoutes : list RouteWithSrc :=
  [ route (Posix.join ["/"; bp; "_next/image/?"])
      [ setDest (Some "/_next/image"); setCheck (Some true) ] ].

(** No-op [_next/data] rewrite to trigger the rewrite phase. *)
Definition nextDataNoopRoutes : list RouteWithSrc :=
  [ route (Posix.join ["/"; bp; "_next/data/(.*)"])
      [ setDest (Some (Posix.join ["/"; bp; "_next/data/$1"]));
        setCheck (Some true) ] ].

Definition appIndexRscRoutes : list RouteWithSrc :=
  [ route (Posix.join ["/"; bp; "/index(\.action|\.rsc)"])
      [ setDest (Some (Posix.join ["/"; bp])); setContinue (Some true) ] ].

Definition appRscRepairRoutes : list RouteWithSrc :=
  [ route (Posix.join ["/"; bp; "/\.rsc$"])
      [ setDest (Some (Posix.join ["/"; bp; "/index.rsc"]));
        setCheck (Some true) ];
    route (Posix.join ["/"; bp; "(.+)/\.rsc$"])
      [ setDest (Some (Posix.join ["/"; bp; "$1.rsc"]));
        setCheck (Some true) ] ].

Definition directory404Routes : list RouteWithSrc :=
  [ route (Posix.join ["/"; bp; ".*"]) [ setStatus (Some 404) ] ].

Definition static404Routes : list RouteWithSrc :=
  [ route (Posix.join ["/"; bp; "_next/static/.+"])
      [ setStatus (Some 404);
        setCheck (Some true);
        setDest (Some (Posix.join ["/"; bp; "_next/static/not-found.txt"]));
        setHeaders (Some [("content-type", "text/plain; charset=utf-8")]) ] ].

(** Removing the locale prefix to check public files. *)
Definition localeStripRoutes (i : I18NConfig) : list RouteWithSrc :=
  [ route (Posix.join ["/"; bp; escapeStringRegexp (defaultLocale i)])
      [ setDest (Some "/"); setCheck (Some true) ];
    route ("^" +:+ Posix.join ["/"; bp] +:+ "/?(?:" +:+ localeAlternation i
               +:+ ")/(.*)")
      [ setDest (Some (Posix.join ["/"; bp; "/"] +:+ "$1"));
        setCheck (Some true) ] ].

Definition segmentPrefetchRoutes : list RouteWithSrc :=
  [ route "^/(?<path>.+)(?<rscSuffix>\.segments/.+\.segment\.rsc)(?:/)?$"
      [ setDest (Some ("/$path" +:+ (if flagPrefetchRsc ctx
                                      then ".prefetch.rsc" else ".rsc")));
        setCheck (Some true) ] ].

Definition escapedBuildId : string := escapeStringRegexp (buildId ctx).

Definition middlewareDataRoutes : list RouteWithSrc :=
  let pattern :=
    "^" +:+ Posix.join ["/"; bp; "/_next/data/"; escapedBuildId; "/(.*).json"] in
  [ route pattern
      [ setHeaders (Some [("x-nextjs-matched-path", "/$1")]);
        setContinue (Some true); setOverride (Some true) ];
    route pattern [ setDest (Some "__next_data_catchall") ] ].

Definition immutableCacheRoutes : list RouteWithSrc :=
  [ route (Posix.join
             ["/"; bp;
              "_next/static/(?:[^/]+/pages|pages|chunks|runtime|css|image|media|"
                +:+ escapedBuildId +:+ ")/.+"])
      [ setHeaders (Some [("cache-control",
                           "public,max-age=" +:+ numberToString MAX_AGE_ONE_YEAR
                                             +:+ ",immutable")]);
        setContinue (Some true); setImportant (Some true) ] ].

Definition matchedPathRoutes : list RouteWithSrc :=
  [ route (if basePathSet then Posix.join ["/"; bp; "/?(?:index)?(?:/)?$"]
           else "/(?:index)?(?:/)?$")
      [ setHeaders (Some [("x-matched-path", "/")]);
        setContinue (Some true); setImportant (Some true) ];
    route (Posix.join ["/"; bp; "/((?!index$).*?)(?:/)?$"])
      [ setHeaders (Some [("x-matched-path", "/$1")]);
        setContinue (Some true); setImportant (Some true) ] ].

(** The pattern of a path that starts with a locale, captured as
    [nextLocale]. *)
Definition nextLocalePattern (i : I18NConfig) : string :=
  Posix.join ["/"; bp; "/"] +:+ "(?<nextLocale>" +:+ localeAlternation i
             +:+ ")(/.*|$)".

(** The error pages of a site with locales: the page under the locale of
    the path, or else the page under the default locale. *)
Definition errorLocaleRoutes (i : I18NConfig) (code : nat)
           (localeDest defaultDest : string) : list RouteWithSrc :=
  [ route (nextLocalePattern i)
      [ setDest (Some localeDest);
        setStatus (Some code);
        setCaseSensitive (Some true) ];
    route (Posix.join ["/"; bp; ".*"])
      [ setDest (Some defaultDest);
        setStatus (Some code) ] ].

(** The error page of a site without locales. *)
Definition errorRoutes (code : nat) (pageDest : string) : list RouteWithSrc :=
  [ route (Posix.join ["/"; bp; (if basePathSet then "?" else "") +:+ ".*"])
      [ setDest (Some pageDest);
        setStatus (Some code) ] ].

End Groups.

(** ** [index.ts]: the route table *)

(** The spread group of the array literal an entry comes from. *)
Inductive Origin :=
  | FromPriorityRedirects
  | FromDataNormalizePreRedirect
  | FromLocaleWildcard
  | FromLocaleDomainRedirect
  | FromLocaleRedirect
  | FromDefaultLocaleRewrite
  | FromUserHeaders
  | FromUserRedirects
  | FromMiddleware
  | FromBeforeFiles
  | FromLiteral404Locale
  | FromLiteral404
  | FromLiteral500Locale
  | FromLiteral500
  | FromDataDenormalizePreFilesystem
  | FromAppRsc
  | FromPhaseMarker
  | FromNextImage
  | FromDataNormalizePostFilesystem
  | FromNextDataNoop
  | FromAppIndexRsc
  | FromAfterFiles
  | FromAppRscRepair
  | FromFallback
  | FromDirectory404
  | FromStatic404
  | FromDefaultLocaleRewriteMiss
  | FromLocaleStrip
  | FromSegmentPrefetch
  | FromDataDenormalizePostRewrite
  | FromDynamicRoutes
  | FromMiddlewareData
  | FromImmutableCache
  | FromMatchedPath
  | FromNotFoundLocale
  | FromNotFound
  | FromServerErrorLocale
  | FromServerError.

(** The rules of a group, each with the group it comes from. *)
Definition group (o : Origin) (rs : list RouteWithSrc) : list (Origin * Route) :=
  map (fun r => (o, Rule r)) rs.

Definition marker (h : HandleValue) : list (Origin * Route) :=
  [(FromPhaseMarker, Handle h)].

(** [...(cond ? [ ... ] : [])] *)
Definition when {A} (cond : bool) (l : list A) : list A :=
  if cond then l else [].

(** The array literal assigned to [vercelConfig.routes], each entry with
    its group. *)
Definition taggedRoutes (ctx : BuildContext) : list (Origin * Route) :=
  let c := config ctx in
  let bp := basePath c in
  let resolving := shouldHandleMiddlewareDataResolving ctx in
  let rewrites := convertedRewrites ctx in
  group FromPriorityRedirects (priorityRedirects ctx)
  (* normalize _next/data URL before processing redirects *)
  ++ group FromDataNormalizePreRedirect
       (normalizeNextDataRoutes c (buildId ctx) resolving true)
  ++ match i18n c with
     | Some i =>
         group FromLocaleWildcard (localeWildcardRoutes ctx i)
         ++ group FromLocaleDomainRedirect (localeDomainRedirectRoutes ctx i)
         ++ group FromLocaleRedirect (localeRedirectRoutes i)
         ++ group FromDefaultLocaleRewrite
              (defaultLocaleRewriteRoutes ctx i (setContinue (Some true)))
     | None => []
     end
  ++ group FromUserHeaders (headerRoutes ctx)
  ++ group FromUserRedirects (plainRedirects ctx)
  ++ group FromMiddleware (middlewareRoutes ctx)
  ++ group FromBeforeFiles (cBeforeFiles rewrites)
  (* 404 handling if /404 or locale variants are requested literally *)
  ++ match i18n c with
     | Some i =>
         group FromLiteral404Locale
           [literalStatusLocaleRoute ctx i 404 "404" [missingRevalidate]]
     | None =>
         group FromLiteral404 [literalStatusRoute ctx 404 "404" [missingRevalidate]]
     end
  (* 500 handling if /500 or locale variants are requested literally *)
  ++ match i18n c with
     | Some i =>
         group FromLiteral500Locale [literalStatusLocaleRoute ctx i 500 "500" []]
     | None => group FromLiteral500 [literalStatusRoute ctx 500 "500" []]
     end
  (* denormalize _next/data if middleware + pages *)
  ++ group FromDataDenormalizePreFilesystem
       (denormalizeNextDataRoutes c (buildId ctx) resolving true)
  ++ when (hasAppDir ctx) (group FromAppRsc (appRscRoutes ctx))
  ++ marker filesystem
  ++ when (Js.truthy bp) (group FromNextImage (nextImageRoutes ctx))
  (* normalize _next/data if middleware + pages *)
  ++ group FromDataNormalizePostFilesystem
       (normalizeNextDataRoutes c (buildId ctx) resolving false)
  ++ when (negb (hasMiddleware ctx)) (group FromNextDataNoop (nextDataNoopRoutes ctx))
  ++ when (hasAppDir ctx) (group FromAppIndexRsc (appIndexRscRoutes ctx))
  ++ group FromAfterFiles (cAfterFiles rewrites)
  ++ when (hasAppDir ctx) (group FromAppRscRepair (appRscRepairRoutes ctx))
  ++ marker resource
  ++ group FromFallback (cFallback rewrites)
  ++ group FromDirectory404 (directory404Routes ctx)
  ++ marker miss
  ++ group FromStatic404 (static404Routes ctx)
  ++ match i18n c with
     | Some i =>
         when (bool_decide (localeDetection i = Some false))
           (group FromDefaultLocaleRewriteMiss
              (defaultLocaleRewriteRoutes ctx i (setCheck (Some true))))
         ++ group FromLocaleStrip (localeStripRoutes ctx i)
     | None => []
     end
  ++ when (flagSegmentPrefetches ctx)
       (group FromSegmentPrefetch (segmentPrefetchRoutes ctx))
  ++ marker rewrite
  (* denormalize _next/data if middleware + pages *)
  ++ group FromDataDenormalizePostRewrite
       (denormalizeNextDataRoutes c (buildId ctx) resolving false)
  ++ group FromDynamicRoutes (dynamicRouteRules ctx)
  ++ when (hasMiddleware ctx) (group FromMiddlewareData (middlewareDataRoutes ctx))
  ++ marker hit
  ++ group FromImmutableCache (immutableCacheRoutes ctx)
  ++ group FromMatchedPath (matchedPathRoutes ctx)
  ++ marker error
  (* custom 404 page *)
  ++ match i18n c with
     | Some i =>
         group FromNotFoundLocale
           (errorLocaleRoutes ctx i 404
              (Posix.join ["/"; bp; "/$nextLocale"; notFoundPath ctx])
              (Posix.join ["/"; bp; "/" +:+ defaultLocale i; notFoundPath ctx]))
     | None =>
         group FromNotFound
           (errorRoutes ctx 404 (Posix.join ["/"; bp; notFoundPath ctx]))
     end
  (* custom 500 page if present *)
  ++ match i18n c, has500Output ctx with
     | Some i, true =>
         group FromServerErrorLocale
           (errorLocaleRoutes ctx i 500
              (Posix.join ["/"; bp; "/$nextLocale/500"])
              (Posix.join ["/"; bp; "/" +:+ defaultLocale i +:+ "/500"]))
     | _, _ =>
         group FromServerError
           (errorRoutes ctx 500
              (Posix.join ["/"; bp; if has500Output ctx then "/500" else "/_error"]))
     end.

(** [vercelConfig.routes] *)
Definition vercelRoutes (ctx : BuildContext) : list Route :=
  map snd (taggedRoutes ctx).

(** An entry of [vercelConfig.wildcard]. *)
Record WildcardEntry := {
  w_domain : string;
  w_value : string;
}.

Definition wildcard (ctx : BuildContext) : option (list WildcardEntry) :=
  match i18n (config ctx) with
  | Some i18nConfig =>
      match domains i18nConfig with
      | Some ds =>
          Some (map (fun item =>
                       {| w_domain := domain item;
                          w_value :=
                            if String.eqb (domainDefaultLocale item)
                                          (defaultLocale i18nConfig)
                            then "" else "/" +:+ domainDefaultLocale item |})
                    ds)
      | None => None
      end
  | None => None
  end.

(** [VercelConfig] without [images] and [overrides], which come from
    [picomatch] and from the files on disk. *)
Record VercelConfig := {
  version : nat;
  vcWildcard : option (list WildcardEntry);
  vcRoutes : list Route;
}.

(** What a build leaves behind: the function configurations, the prerender
    configurations and [config.json]. *)
Record BuildResult := {
  functionConfigs : list (string * NodeVcConfig);
  prerenderConfigs : list PrerenderConfig;
  configJson : VercelConfig;
}.

(** [onBuildComplete]. The file system is left out: a directory is made,
    a file is copied or written without failure. *)
Definition onBuildComplete (ctx : BuildContext) : Result BuildResult :=
  let! _fallbackFalse := prerenderFallbackFalseMap ctx in
  let middlewareFunctions :=
    match middleware (outputs ctx) with
    | Some output =>
        match o_runtime output with
        | nodejs => handleNodeOutputs [output] (nextVersion ctx) (Some true)
        | edge => []
        end
    | None => []
    end in
  let functions := handleNodeOutputs (nodeOutputs ctx) (nextVersion ctx) None in
  let! prerendered :=
    handlePrerenderOutputs (prerenders (outputs ctx)) (nodeOutputsParentMap ctx) in
  ret {| functionConfigs := middlewareFunctions ++ functions;
         prerenderConfigs := prerendered;
         configJson := {| version := 3;
                          vcWildcard := wildcard ctx;
                          vcRoutes := vercelRoutes ctx |} |}.

(** ** Notions used to state the properties *)

(** The phase markers of a route list, in list order. *)
Fixpoint handles (l : list Route) : list HandleValue :=
  match l with
  | [] => []
  | Handle h :: rest => h :: handles rest
  | Rule _ :: rest => handles rest
  end.

(** The order of the markers in the source of [onBuildComplete]. *)
Definition phaseOrder : list HandleValue :=
  [filesystem; resource; miss; rewrite; hit; error].

(** The order of the markers in the specification. *)
Definition specPhaseOrder : list HandleValue :=
  [filesystem; resource; rewrite; miss; hit; error].

Global Instance Origin_eq_dec : EqDecision Origin.
Proof. solve_decision. Defined.

(** The entries of a tagged list that come from group [o]. *)
Definition rulesFrom (o : Origin) (l : list (Origin * Route)) : list Route :=
  map snd (List.filter (fun e => bool_decide (fst e = o)) l).

(** The locale rule groups the specification names. *)
Inductive LocaleGroup :=
  | WildcardPrefix
  | LocaleRedirects
  | DefaultLocaleRewrites
  | LocaleLiteralStatus
  | LocalePrefixStripping
  | LocaleNotFound
  | LocaleServerError.

(** The locale rule group a group of the table belongs to, if any. *)
Definition localeGroupOf (o : Origin) : option LocaleGroup :=
  match o with
  | FromLocaleWildcard => Some WildcardPrefix
  | FromLocaleDomainRedirect | FromLocaleRedirect => Some LocaleRedirects
  | FromDefaultLocaleRewrite | FromDefaultLocaleRewriteMiss =>
      Some DefaultLocaleRewrites
  | FromLiteral404Locale | FromLiteral500Locale => Some LocaleLiteralStatus
  | FromLocaleStrip => Some LocalePrefixStripping
  | FromNotFoundLocale => Some LocaleNotFound
  | FromServerErrorLocale => Some LocaleServerError
  | _ => None
  end.

(** The table holds a rule of locale group [g]. *)
Definition emitted (g : LocaleGroup) (ctx : BuildContext) : Prop :=
  exists o r, In (o, Rule r) (taggedRoutes ctx) /\ localeGroupOf o = Some g.

(** A route without [locale] property. *)
Definition noLocaleField (x : Route) : Prop :=
  match x with
  | Handle _ => True
  | Rule r => locale r = None
  end.

(** The reading of the specification: without [i18n] no locale group is
    emitted, with [i18n] every one is. *)
Definition specLocaleAllOrNothing (ctx : BuildContext) : Prop :=
  (i18n (config ctx) = None -> forall g, ~ emitted g ctx)
  /\ (i18n (config ctx) <> None -> forall g, emitted g ctx).

(** [i18n.localeDetection !== false] *)
Definition detectionOn (i : I18NConfig) : bool :=
  negb (bool_decide (localeDetection i = Some false)).

(** [i18n.domains && i18n.domains.length > 0] *)
Definition hasDomains (i : I18NConfig) : bool :=
  nonEmpty (default [] (domains i)).

(** The table holds exactly [n] rules of group [o], and each has the
    property [P]. *)
Definition emits (ctx : BuildContext) (o : Origin) (n : nat)
           (P : RouteWithSrc -> Prop) : Prop :=
  exists rs,
    rulesFrom o (taggedRoutes ctx) = map Rule rs
    /\ length rs = n
    /\ Forall P rs.

(** The destination of a rewrite to the default locale. *)
Definition toDefaultLocale (ctx : BuildContext) (i : I18NConfig)
           (r : RouteWithSrc) : Prop :=
  let target := Posix.join ["/"; basePath (config ctx); defaultLocale i] in
  dest r = Some target \/ dest r = Some (target +:+ "/$1").

(** The [locale] property of a rule that redirects by locale. *)
Definition redirectsBy (map : list (string * string)) (r : RouteWithSrc) : Prop :=
  locale r = Some {| redirect := map; cookie := "NEXT_LOCALE" |}.

(** The four passes that normalize or denormalize data routes. *)
Definition isDataPass (o : Origin) : bool :=
  match o with
  | FromDataNormalizePreRedirect | FromDataDenormalizePreFilesystem
  | FromDataNormalizePostFilesystem | FromDataDenormalizePostRewrite => true
  | _ => false
  end.

(** The reading of the specification: of the data-route passes, only the
    one in front of the redirects holds rules with [override: true]. *)
Definition specOverrideOnlyPreRedirect (ctx : BuildContext) : Prop :=
  forall o r,
    In (o, Rule r) (taggedRoutes ctx) ->
    isDataPass o = true ->
    override r = Some true ->
    o = FromDataNormalizePreRedirect.

Global Instance HandleValue_eq_dec : EqDecision HandleValue.
Proof. solve_decision. Defined.

(** The routes behind the first marker [h]. *)
Fixpoint afterMarker (h : HandleValue) (l : list Route) : list Route :=
  match l with
  | [] => []
  | Handle h' :: rest => if bool_decide (h' = h) then rest else afterMarker h rest
  | Rule _ :: rest => afterMarker h rest
  end.

(** The destinations of the rules of [l] that answer with [code]. *)
Fixpoint destinationsWithStatus (code : nat) (l : list Route) : list (option string) :=
  match l with
  | [] => []
  | Rule r :: rest =>
      if bool_decide (status r = Some code)
      then dest r :: destinationsWithStatus code rest
      else destinationsWithStatus code rest
  | Handle _ :: rest => destinationsWithStatus code rest
  end.

(** What sets the rule apart from every other rule of the table. *)
Definition guardFields (r : RouteWithSrc) : Prop :=
  status r = Some 404 /\ check r = Some true /\ headers r = None
  /\ dest r <> None.

(** An entry that is not in the group of the dynamic routes. *)
Definition notDynamic (e : Origin * Route) : Prop := fst e <> FromDynamicRoutes.

(** A dynamic route for a data path. *)
Definition isDataRoute (x : RewriteItem) : Prop :=
  Js.includes "_next/data" (rw_sourceRegex x) = true.

(** A prerender of [prerenderFallbackFalseMap] whose parent is not a
    Node.js output of the build. *)
Definition missingParent (ctx : BuildContext) (p : Prerender) : Prop :=
  isFallbackFalsePrerender p = true
  /\ nodeOutputsParentMap ctx !! pr_parentOutputId p = None.

(** The operation type the specification asks for. *)
Definition specOperationType (output : FuncOutput) : string :=
  match o_type output with
  | APP_PAGE | PAGES => "PAGE"
  | _ => "API"
  end.

(** A pattern stem without the escaped slash, with or without question
    mark, that path-to-regexp leaves in front of the optional trailing
    slash. *)
Definition withoutEscapedSlash (stem : string) : string :=
  if Js.endsWith "\/?" stem then Js.take (Js.len stem - 3) stem
  else if Js.endsWith "\/" stem then Js.take (Js.len stem - 2) stem
  else stem.

(** The options of the three calls of [modifyWithRewriteHeaders]. *)
Definition rewriteOpts (ctx : BuildContext) (after : bool) : RewriteHeaderOpts :=
  {| isAfterFilesRewrite := after;
     shouldHandlePrefetchRsc := flagPrefetchRsc ctx;
     shouldHandleSegmentPrefetches := flagSegmentPrefetches ctx |}.

(** The group that matches and captures a partial-render suffix. *)
Definition rscSuffixGroup (ctx : BuildContext) : string :=
  "(?:/)?(?<rscsuff>" +:+ rscSuffix (rewriteOpts ctx true) +:+ ")?".

(** A rewrite and the rule made from it: the rule matches the suffix
    group and its destination holds the placeholder at its end. *)
Definition rewrittenForRsc (ctx : BuildContext) (item : RewriteItem)
           (r : RouteWithSrc) : Prop :=
  Js.endsWith (rscSuffixGroup ctx) (src r) = true
  /\ exists d, dest r = Some d /\ Js.endsWith "$rscsuff" d = true.

(** The reading of the specification: with a prefetch flag set, every
    rewrite of the three groups that ends in the optional trailing slash is
    rewritten so. *)
Definition specRscSuffixAllGroups (ctx : BuildContext) : Prop :=
  flagPrefetchRsc ctx || flagSegmentPrefetches ctx = true ->
  forall item r,
    In (item, r) (combine (beforeFiles (rewrites (routes ctx)))
                          (cBeforeFiles (convertedRewrites ctx)))
    \/ In (item, r) (combine (afterFiles (rewrites (routes ctx)))
                             (cAfterFiles (convertedRewrites ctx)))
    \/ In (item, r) (combine (fallback (rewrites (routes ctx)))
                             (cFallback (convertedRewrites ctx))) ->
    Js.endsWith trailingSlashSuffix (rw_sourceRegex item) = true ->
    rewrittenForRsc ctx item r.

(** ** Literal patterns

    A pattern made of literal atoms only: a character that is not a
    syntax character of regular expressions stands for itself, a backslash
    followed by a syntax character or by a hyphen stands for that
    character. [literalText p] is the one text such a pattern matches, and
    [None] when [p] holds anything else. *)
Fixpoint literalText (p : string) : option string :=
  match p with
  | EmptyString => Some EmptyString
  | String c rest =>
      if Ascii.eqb c "\"%char then
        match rest with
        | String c' rest' =>
            if matchOperators c' then option_map (String c') (literalText rest')
            else None
        | EmptyString => None
        end
      else if inlineOperators c then None
      else option_map (String c) (literalText rest)
  end.

(** [s] holds [piece] as a substring. *)
Definition holds (piece s : string) : Prop :=
  exists pre post, s = pre +:+ piece +:+ post.

(** The groups of the table whose patterns the adapter writes itself. *)
Definition generatedOrigin (o : Origin) : bool :=
  match o with
  | FromPriorityRedirects | FromUserHeaders | FromUserRedirects
  | FromMiddleware | FromBeforeFiles | FromAfterFiles | FromFallback
  | FromDynamicRoutes => false
  | _ => true
  end.

(** The reading of the specification: a locale or a base path found in a
    pattern the adapter writes is found there in the form
    [escapeStringRegexp] gives it. *)
Definition specEscapedEverywhere (ctx : BuildContext) : Prop :=
  forall o r,
    In (o, Rule r) (taggedRoutes ctx) ->
    generatedOrigin o = true ->
    (forall i l,
        i18n (config ctx) = Some i ->
        In l (locales i) ->
        Js.includes l (src r) = true ->
        Js.includes (escapeStringRegexp l) (src r) = true)
    /\ (Js.includes (basePath (config ctx)) (src r) = true ->
        Js.includes (escapeStringRegexp (basePath (config ctx))) (src r) = true).

(** A path segment that [path.posix.join] leaves alone. *)
Definition cleanSegment (seg : string) : Prop :=
  seg <> "" /\ seg <> "." /\ seg <> ".." /\ Js.charIn "/" seg = false.

(** The absolute path with the given segments. *)
Fixpoint absolutePath (segs : list string) : string :=
  match segs with
  | [] => ""
  | seg :: rest => "/" +:+ seg +:+ absolutePath rest
  end.

(** ** Pattern templates

    The patterns the adapter writes, with the values of the configuration
    left open. A template is a sequence of parts: text of the source, a
    call of [path.posix.join], or the list of locales, escaped and joined
    with [|]. An argument of [path.posix.join] is a sequence of atoms: text
    of the source, the base path as the configuration gives it, the
    default locale or the build id, escaped. There is no part and no atom
    for a locale or a build id that is not escaped, nor for an escaped
    base path. *)

Inductive Atom :=
  | AText (s : string)
  | ABasePath
  | ADefaultLocale
  | ABuildId
  | ABuildIdInline.

Inductive Part :=
  | PText (s : string)
  | PJoin (args : list (list Atom))
  | PLocales
  | PLocalesInline.

Definition Template := list Part.

Section Render.

Variable ctx : BuildContext.

Definition renderAtom (a : Atom) : string :=
  match a with
  | AText s => s
  | ABasePath => basePath (config ctx)
  | ADefaultLocale =>
      match i18n (config ctx) with
      | Some i => escapeStringRegexp (defaultLocale i)
      | None => ""
      end
  | ABuildId => escapeStringRegexp (buildId ctx)
  | ABuildIdInline => inlineEscape (buildId ctx)
  end.

Definition renderPart (p : Part) : string :=
  match p with
  | PText s => s
  | PJoin args => Posix.join (map (fun arg => Js.join "" (map renderAtom arg)) args)
  | PLocales =>
      match i18n (config ctx) with
      | Some i => Js.join "|" (map escapeStringRegexp (locales i))
      | None => ""
      end
  | PLocalesInline =>
      match i18n (config ctx) with
      | Some i => Js.join "|" (map inlineEscape (locales i))
      | None => ""
      end
  end.

(** The pattern a template stands for in the build [ctx]. *)
Definition render (t : Template) : string := Js.join "" (map renderPart t).

End Render.

(** [path.posix.join('/', config.basePath, ...)] *)
Definition underBase (tail : list (list Atom)) : Part :=
  PJoin ([AText "/"] :: [ABasePath] :: tail).

(** A path under the base path that starts with neither [_next/] nor a
    locale. *)
Definition nonLocaleTemplate (tail : string) : Template :=
  [ PText "^"; underBase [[AText "/"]]; PText "(?!(?:_next/.*|"; PLocales;
    PText (")(?:/.*|$))" +:+ tail) ].

(** The templates of the patterns of [routing.ts] and of the array literal
    of [index.ts], in the order of the source. *)
Definition patternTemplates : list Template :=
  [ (* normalizeNextDataRoutes *)
    [ underBase [[AText "/_next/data/(.*)"]] ];
    [ PText "^";
      underBase [[AText "/_next/data/"]; [ABuildIdInline]; [AText "/(.*).json"]] ];
    [ PJoin [[AText "^/"]; [ABasePath]; [AText "/index(?:/)?"]] ];
    (* locale rules in front of the user's rules *)
    nonLocaleTemplate "$";
    nonLocaleTemplate "(.*)$";
    [ PText "^"; underBase []; PText "/?(?:"; PLocales; PText ")?/?$" ];
    [ PText "/" ];
    [ PText "^"; underBase []; PText "$" ];
    (* /404 and /500 requested literally *)
    [ underBase [[AText "/"]]; PText "(?:"; PLocalesInline; PText ")?[/]?404/?" ];
    [ underBase [[AText "404/?"]] ];
    [ underBase [[AText "/"]]; PText "(?:"; PLocalesInline; PText ")?[/]?500/?" ];
    [ underBase [[AText "500/?"]] ];
    (* denormalizeNextDataRoutes *)
    [ PJoin [[AText "^/"]; [ABasePath; AText "/$"]] ];
    [ PJoin [[AText "^/"]; [ABasePath; AText "$"]] ];
    [ PJoin [[AText "^/"]; [AText "$"]] ];
    [ PJoin [[AText "^/"]; [ABasePath]; [AText "((?!_next/)(?:.*[^/]|.*))/?$"]] ];
    (* App Router *)
    [ PText "^"; underBase [[AText "/?"]] ];
    [ PText "^"; underBase [[AText "/((?!.+\.rsc).+?)(?:/)?$"]] ];
    (* behind the filesystem marker *)
    [ underBase [[AText "_next/image/?"]] ];
    [ underBase [[AText "_next/data/(.*)"]] ];
    [ underBase [[AText "/index(\.action|\.rsc)"]] ];
    [ underBase [[AText "/\.rsc$"]] ];
    [ underBase [[AText "(.+)/\.rsc$"]] ];
    (* resource and miss phases *)
    [ underBase [[AText ".*"]] ];
    [ underBase [[AText "_next/static/.+"]] ];
    [ underBase [[ADefaultLocale]] ];
    [ PText "^"; underBase []; PText "/?(?:"; PLocales; PText ")/(.*)" ];
    [ PText "^/(?<path>.+)(?<rscSuffix>\.segments/.+\.segment\.rsc)(?:/)?$" ];
    (* rewrite and hit phases *)
    [ PText "^";
      underBase [[AText "/_next/data/"]; [ABuildId]; [AText "/(.*).json"]] ];
    [ underBase
        [[AText "_next/static/(?:[^/]+/pages|pages|chunks|runtime|css|image|media|";
          ABuildId; AText ")/.+"]] ];
    [ underBase [[AText "/?(?:index)?(?:/)?$"]] ];
    [ PText "/(?:index)?(?:/)?$" ];
    [ underBase [[AText "/((?!index$).*?)(?:/)?$"]] ];
    (* error phase *)
    [ underBase [[AText "/"]]; PText "(?<nextLocale>"; PLocales; PText ")(/.*|$)" ];
    [ underBase [[AText "?.*"]] ] ].

(** ** Sample build descriptions *)

(** No rewrite, redirect, header or dynamic route. *)
Definition noRoutes : AdapterRoutes :=
  {| rewrites := {| beforeFiles := []; afterFiles := []; fallback := [] |};
     redirects := []; routeHeaders := []; dynamicRoutes := [] |}.

(** No output at all. *)
Definition noOutputs : Outputs :=
  {| appPages := []; appRoutes := []; pages := []; pagesApi := [];
     staticFiles := []; prerenders := []; middleware := None |}.

(** No base path, no locales, no experimental flag. *)
Definition plainConfig : NextConfig :=
  {| basePath := ""; trailingSlash := false; i18n := None;
     cacheComponents := false; clientSegmentCache := false |}.

(** A build without pages, rewrites or locales. *)
Definition emptyBuild : BuildContext :=
  {| routes := noRoutes; config := plainConfig; buildId := "abc123";
     outputs := noOutputs; nextVersion := "16.0.0" |}.

(** A dynamic page of the pages directory. *)
Definition samplePage : FuncOutput :=
  {| o_id := "/posts/[slug]"; o_pathname := "/posts/[slug]";
     o_runtime := nodejs; o_type := PAGES; o_sourcePage := "/posts/[slug]";
     o_maxDuration := None; o_matchers := None |}.

(** A middleware on the edge runtime, with one matcher. *)
Definition sampleMiddleware : FuncOutput :=
  {| o_id := "/_middleware"; o_pathname := "/_middleware";
     o_runtime := edge; o_type := MIDDLEWARE; o_sourcePage := "middleware";
     o_maxDuration := None;
     o_matchers := Some [ {| m_sourceRegex := "^/.*$"; m_source := Some "/:path*";
                            m_has := None; m_missing := None |} ] |}.

(** The dynamic route of the page. *)
Definition sampleDynamicRoute : RewriteItem :=
  {| rw_sourceRegex := "^/posts/(?<nxtPslug>[^/]+?)(?:/)?$";
     rw_destination := "/posts/[slug]?nxtPslug=$nxtPslug";
     rw_has := None; rw_missing := None |}.

(** A pages-directory build: one dynamic page, no middleware. *)
Definition pagesBuild : BuildContext :=
  {| routes := {| rewrites := rewrites noRoutes; redirects := [];
                  routeHeaders := []; dynamicRoutes := [sampleDynamicRoute] |};
     config := plainConfig; buildId := "abc123";
     outputs := {| appPages := []; appRoutes := []; pages := [samplePage];
                   pagesApi := []; staticFiles := []; prerenders := [];
                   middleware := None |};
     nextVersion := "16.0.0" |}.

(** The same build with a middleware. *)
Definition pagesMiddlewareBuild : BuildContext :=
  {| routes := routes pagesBuild; config := plainConfig; buildId := "abc123";
     outputs := {| appPages := []; appRoutes := []; pages := [samplePage];
                   pagesApi := []; staticFiles := []; prerenders := [];
                   middleware := Some sampleMiddleware |};
     nextVersion := "16.0.0" |}.

(** Two locales, each with a domain of its own. *)
Definition sampleI18n (detection : option bool) : I18NConfig :=
  {| defaultLocale := "en"; locales := ["en"; "fr-CA"];
     domains := Some [ {| domain := "example.fr"; domainDefaultLocale := "fr-CA";
                          domainLocales := None; http := None |};
                       {| domain := "example.com"; domainDefaultLocale := "en";
                          domainLocales := None; http := Some true |} ];
     localeDetection := detection |}.

(** A build with two locales; [detection] is [i18n.localeDetection]. *)
Definition localeBuild (detection : option bool) : BuildContext :=
  {| routes := noRoutes;
     config := {| basePath := ""; trailingSlash := false;
                  i18n := Some (sampleI18n detection);
                  cacheComponents := false; clientSegmentCache := false |};
     buildId := "abc123"; outputs := noOutputs; nextVersion := "16.0.0" |}.

(** A build whose only outputs are static files at [paths]. *)
Definition staticBuild (paths : list string) : BuildContext :=
  {| routes := noRoutes; config := plainConfig; buildId := "abc123";
     outputs := {| appPages := []; appRoutes := []; pages := []; pagesApi := [];
                   staticFiles :=
                     map (fun p => {| sf_pathname := p;
                                      sf_filePath := p +:+ ".html" |}) paths;
                   prerenders := []; middleware := None |};
     nextVersion := "16.0.0" |}.

(** A pages build with one prerendered path of the dynamic page; the
    prerender names [parent] as its parent output. *)
Definition prerenderBuild (parent : string) : BuildContext :=
  {| routes := routes pagesBuild; config := plainConfig; buildId := "abc123";
     outputs := {| appPages := []; appRoutes := []; pages := [samplePage];
                   pagesApi := []; staticFiles := [];
                   prerenders := [ {| pr_pathname := "/posts/a";
                                      pr_parentOutputId := parent;
                                      pr_parentFallbackMode := FallbackFalse;
                                      pr_groupId := 1 |} ];
                   middleware := None |};
     nextVersion := "16.0.0" |}.

(** An API route of the pages directory. *)
Definition sampleApiRoute : FuncOutput :=
  {| o_id := "/api/hello"; o_pathname := "/api/hello";
     o_runtime := nodejs; o_type := PAGES_API; o_sourcePage := "/api/hello";
     o_maxDuration := None; o_matchers := None |}.

(** A rewrite as path-to-regexp writes it, and one with the escaped slash
    in front of the optional trailing slash and a query string. *)
Definition sampleRewrite : RewriteItem :=
  {| rw_sourceRegex := "^\/old(?:\/)?$"; rw_destination := "/new";
     rw_has := None; rw_missing := None |}.

Definition sampleQueryRewrite : RewriteItem :=
  {| rw_sourceRegex := "^\/search\/?(?:\/)?$"; rw_destination := "/find?q=1";
     rw_has := None; rw_missing := None |}.

(** A build with [cacheComponents], one rewrite in front of the files and
    two behind. *)
Definition rewriteBuild : BuildContext :=
  {| routes := {| rewrites := {| beforeFiles := [sampleRewrite];
                                 afterFiles := [sampleRewrite; sampleQueryRewrite];
                                 fallback := [] |};
                  redirects := []; routeHeaders := []; dynamicRoutes := [] |};
     config := {| basePath := ""; trailingSlash := false; i18n := None;
                  cacheComponents := true; clientSegmentCache := false |};
     buildId := "abc123"; outputs := noOutputs; nextVersion := "16.0.0" |}.

(** A build with a dot in the base path and a hyphen in a locale. *)
Definition metaBuild : BuildContext :=
  {| routes := noRoutes;
     config := {| basePath := "/a.b"; trailingSlash := false;
                  i18n := Some {| defaultLocale := "en-US";
                                  locales := ["en-US"; "de"];
                                  domains := None;
                                  localeDetection := None |};
                  cacheComponents := false; clientSegmentCache := false |};
     buildId := "abc123"; outputs := noOutputs; nextVersion := "16.0.0" |}.

(** ** Notions used to state the properties of the helpers *)

(** [obj[key]] on an object used as a dictionary; [None] is [undefined]. *)
Fixpoint objGet (key : string) (obj : list (string * string)) : option string :=
  match obj with
  | [] => None
  | (k, v) :: rest => if String.eqb k key then Some v else objGet key rest
  end.

(** The rules in front of the first phase marker of a route list. *)
Fixpoint untilMarker (l : list Route) : list RouteWithSrc :=
  match l with
  | [] => []
  | Handle _ :: _ => []
  | Rule r :: rest => r :: untilMarker rest
  end.

(** The rules of a phase: those between the marker [h] and the next one. *)
Definition phaseRules (h : HandleValue) (l : list Route) : list RouteWithSrc :=
  untilMarker (afterMarker h l).

(** The number of characters of [s] the pattern escaper puts a backslash
    in front of. *)
Definition operatorCount (s : string) : nat :=
  length (List.filter matchOperators (list_ascii_of_string s)).

(** The fragment of a destination: nothing, or a hash sign and what
    follows it. *)
Definition fragment (f : string) : Prop := f = "" \/ exists f', f = "#" +:+ f'.

(** The page of the parent output of a prerender: the pathname of the
    parent without the base path. *)
Definition parentPage (ctx : BuildContext) (p : Prerender) : option string :=
  match nodeOutputsParentMap ctx !! pr_parentOutputId p with
  | Some parentOutput =>
      Some (Js.drop (Js.len (basePath (config ctx))) (o_pathname parentOutput))
  | None => None
  end.

(** The paths, without the base path, of the prerenders of [ps] that enter
    [prerenderFallbackFalseMap] under the page [page], in the order of
    [ps]. *)
Definition fallbackFalsePaths (ctx : BuildContext) (page : string)
           (ps : list Prerender) : list string :=
  map (fun p => Js.drop (Js.len (basePath (config ctx))) (pr_pathname p))
      (List.filter
         (fun p => isFallbackFalsePrerender p
                   && bool_decide (parentPage ctx p = Some page))
         ps).

(** What [handlePrerenderOutputs] writes for the prerender [p] with the
    parent [parent]. *)
Definition prerenderConfigOf (p : Prerender) (parent : FuncOutput)
  : PrerenderConfig :=
  {| pc_path := (if String.eqb (pr_pathname p) "/" then "/index"
                 else pr_pathname p) +:+ ".prerender-config.json";
     pc_group := pr_groupId p;
     pc_sourcePath := o_pathname parent |}.

(** A rule that answers with status 404. *)
Definition answers404 (r : RouteWithSrc) : bool :=
  bool_decide (status r = Some 404).

(** What the loop that fills [prerenderFallbackFalseMap] makes of the
    entry of a page when it adds [paths]. *)
Definition extended (entry : option (list string)) (paths : list string)
  : option (list string) :=
  match paths with
  | [] => entry
  | _ :: _ => Some (default [] entry ++ paths)
  end.


(** A pages build with one prerendered path that has a fallback and names
    a parent output that does not exist. *)
Definition orphanBuild : BuildContext :=
  {| routes := routes pagesBuild; config := plainConfig; buildId := "abc123";
     outputs := {| appPages := []; appRoutes := []; pages := [samplePage];
                   pagesApi := []; staticFiles := [];
                   prerenders := [ {| pr_pathname := "/posts/a";
                                      pr_parentOutputId := "/gone";
                                      pr_parentFallbackMode := FallbackNull;
                                      pr_groupId := 1 |} ];
                   middleware := None |};
     nextVersion := "16.0.0" |}.


(** ** [node-handler.ts]: the page of a request

    The functions of the handler that find the page of a request path.
    A regular expression of [routes-manifest.json] is taken by its test,
    and [String.prototype.toLowerCase] is a parameter. *)

(** [s.replace(/suffix$/, '')] for a literal [suffix] *)
Definition removeSuffix (suffix s : string) : string :=
  if Js.endsWith suffix s then Js.take (Js.len s - Js.len suffix) s else s.

(** The rest of [s] from its first slash on. *)
Fixpoint fromSlash (s : string) : string :=
  match s with
  | EmptyString => EmptyString
  | String c s' => if Ascii.eqb c "/"%char then s else fromSlash s'
  end.

(** [s] starts with a character that is not a slash. *)
Definition startsSegment (s : string) : bool :=
  match s with
  | EmptyString => false
  | String c _ => negb (Ascii.eqb c "/"%char)
  end.

(** [s.replace(/\/_next\/data\/[^/]{1,}/, '')]: the first match is cut
    out, that is [/_next/data/] and the characters behind it up to the
    next slash, of which there is one at least. *)
Fixpoint removeDataPrefix (s : string) : string :=
  if Js.startsWith "/_next/data/" s && startsSegment (Js.drop 12 s)
  then fromSlash (Js.drop 12 s)
  else match s with
       | EmptyString => EmptyString
       | String c s' => String c (removeDataPrefix s')
       end.

Definition normalizeDataPath (pathname : string) : string :=
  if negb (Js.startsWith "/_next/data" (if Js.truthy pathname then pathname else "/"))
  then pathname
  else
    let pathname := removeSuffix ".json" (removeDataPrefix pathname) in
    if String.eqb pathname "/index" then "/" else pathname.

(** [array.indexOf(x)]; [None] stands for [-1]. *)
Fixpoint indexOfList (x : string) (l : list string) : option nat :=
  match l with
  | [] => None
  | y :: l' =>
      if String.eqb y x then Some 0
      else match indexOfList x l' with
           | Some i => Some (S i)
           | None => None
           end
  end.

(** A line terminator, which the dot of a regular expression does not
    match. *)
Definition lineTerminator (c : ascii) : bool :=
  Ascii.eqb c "010"%char || Ascii.eqb c "013"%char.

Fixpoint noLineTerminator (s : string) : bool :=
  match s with
  | EmptyString => true
  | String c s' => negb (lineTerminator c) && noLineTerminator s'
  end.

(** [s.replace(re, '')] for the first suffix pattern of [matchUrlToPage],
    which asks for [.segments], a slash, any characters of one line and
    [.segment.rsc] at the end of the string: the match starts at the first
    [.segments/] from which only characters of one line follow up to a
    final [.segment.rsc]. *)
Fixpoint removeSegmentsSuffix (s : string) : string :=
  if Js.startsWith ".segments/" s
     && Js.endsWith ".segment.rsc" (Js.drop 10 s)
     && noLineTerminator (Js.drop 9 (Js.take (Js.len s - 12) s))
  then EmptyString
  else match s with
       | EmptyString => EmptyString
       | String c s' => String c (removeSegmentsSuffix s')
       end.

(** An item of [routes-manifest.json] after [hydrateRoutesManifestItem]:
    the page and the test of its regular expression. *)
Record ManifestRoute := {
  mr_page : string;
  mr_test : string -> bool;
}.

(** [inversedAppRoutesManifest]: the [reduce] over the entries of
    [app-path-routes-manifest.json]. *)
Definition inversedAppRoutesManifest (appPathRoutesManifest : list (string * string))
  : list (string * string) :=
  fold_left (fun manifest entry => objSet (snd entry) (fst entry) manifest)
            appPathRoutesManifest [].

(** [array.includes(x)] *)
Definition includesPath (x : string) (l : list string) : bool :=
  existsb (String.eqb x) l.

(** The loop of [matchUrlToPage] over the static and the dynamic routes:
    the page of the first route that matches and is not ruled out by
    [prerenderFallbackFalseMap]. *)
Fixpoint matchRoutes (prerenderFallbackFalseMap : gmap string (list string))
         (urlPathname urlPathnameWithLocale : string)
         (routes : list ManifestRoute) : option string :=
  match routes with
  | [] => None
  | route :: rest =>
      if mr_test route urlPathname then
        match prerenderFallbackFalseMap !! mr_page route with
        | Some fallbackFalseMap =>
            if negb (includesPath urlPathname fallbackFalseMap
                     || includesPath urlPathnameWithLocale fallbackFalseMap)
            then matchRoutes prerenderFallbackFalseMap urlPathname
                             urlPathnameWithLocale rest
            else Some (mr_page route)
        | None => Some (mr_page route)
        end
      else matchRoutes prerenderFallbackFalseMap urlPathname
                       urlPathnameWithLocale rest
  end.

Section NodeHandler.

Variable toLowerCase : string -> string.

(** [normalizeLocalePath]: the path without its locale, and the locale
    recorded with [addRequestMeta], if one was found. *)
Definition normalizeLocalePath (pathname : string) (locales : option (list string))
  : string * option string :=
  match locales with
  | None => (pathname, None)
  | Some locales =>
      let lowercasedLocales := map toLowerCase locales in
      match Posix.split pathname with
      | _ :: second :: _ =>
          if negb (Js.truthy second) then (pathname, None)
          else
            let segment := toLowerCase second in
            match indexOfList segment lowercasedLocales with
            | None => (pathname, None)
            | Some index =>
                let detectedLocale := default "" (locales !! index) in
                let rest := Js.drop (Js.len detectedLocale + 1) pathname in
                (if Js.truthy rest then rest else "/", Some detectedLocale)
            end
      | _ => (pathname, None)
      end
  end.

Variable staticRoutes dynamicRoutes : list ManifestRoute.
Variable i18nLocales : option (list string).
Variable prerenderFallbackFalseMap : gmap string (list string).
Variable appPathRoutesManifest : list (string * string).

(** [inversedAppRoutesManifest[page] || page] *)
Definition originalPage (page : string) : string :=
  match objGet page (inversedAppRoutesManifest appPathRoutesManifest) with
  | Some original => if Js.truthy original then original else page
  | None => page
  end.

(** The request path as [matchUrlToPage] matches it: without the data
    prefix and the suffixes of a partial render, first with and then
    without the locale. *)
Definition pathWithLocale (urlPathname : string) : string :=
  removeSuffix ".rsc"
    (removeSuffix ".prefetch.rsc"
       (removeSegmentsSuffix (normalizeDataPath urlPathname))).

Definition pathWithoutLocale (urlPathname : string) : string :=
  let urlPathname :=
    fst (normalizeLocalePath (pathWithLocale urlPathname) i18nLocales) in
  let urlPathname := removeSuffix "/" urlPathname in
  if Js.truthy urlPathname then urlPathname else "/".

Definition matchUrlToPage (urlPathname : string) : string :=
  match matchRoutes prerenderFallbackFalseMap
          (pathWithoutLocale urlPathname) (pathWithLocale urlPathname)
          (staticRoutes ++ dynamicRoutes) with
  | Some page => originalPage page
  | None => originalPage (pathWithoutLocale urlPathname)
  end.

End NodeHandler.

(** ** [get-edge-function.ts]: the page of a request on the edge *)






(** [pathname.startsWith(basePath)] and then
    [pathname.replace(basePath, '') || '/'], for a base path that is set. *)
Definition removeBasePath (basePath pathname : string) : string :=
  if Js.truthy basePath && Js.startsWith basePath pathname
  then
    let rest := Js.drop (Js.len basePath) pathname in
    if Js.truthy rest then rest else "/"
  else pathname.

(** ** [utils.ts]: the image configuration

    [makeRe(glob, { dot }).source] of [picomatch] is a parameter. *)

(** An entry of [images.remotePatterns]. *)
Record RemotePattern := {
  rp_protocol : option string;
  rp_hostname : string;
  rp_port : option string;
  rp_pathname : option string;
  rp_search : option string;
}.

(** An entry of [images.localPatterns]. *)
Record LocalPattern := {
  lp_pathname : option string;
  lp_search : option string;
}.

(** [config.images], as far as [getImagesConfig] reads it. *)
Record ImageConfig := {
  ic_remotePatterns : option (list RemotePattern);
  ic_localPatterns : option (list LocalPattern);
  ic_imageSizes : option (list nat);
  ic_deviceSizes : option (list nat);
  ic_domains : option (list string);
  ic_qualities : option (list nat);
  ic_minimumCacheTTL : option nat;
  ic_formats : option (list string);
  ic_dangerouslyAllowSVG : option bool;
  ic_contentSecurityPolicy : option string;
  ic_contentDispositionType : option string;
}.

(** [config.images || {}] *)
Definition noImageConfig : ImageConfig :=
  {| ic_remotePatterns := None; ic_localPatterns := None;
     ic_imageSizes := None; ic_deviceSizes := None; ic_domains := None;
     ic_qualities := None; ic_minimumCacheTTL := None; ic_formats := None;
     ic_dangerouslyAllowSVG := None; ic_contentSecurityPolicy := None;
     ic_contentDispositionType := None |}.

(** What [getImagesConfig] returns. *)
Record VercelImages := {
  vi_localPatterns : option (list LocalPattern);
  vi_remotePatterns : list RemotePattern;
  vi_sizes : list nat;
  vi_domains : list string;
  vi_qualities : option (list nat);
  vi_minimumCacheTTL : option nat;
  vi_formats : option (list string);
  vi_dangerouslyAllowSVG : option bool;
  vi_contentSecurityPolicy : option string;
  vi_contentDispositionType : option string;
}.

Section Images.

(** [makeRe(glob, { dot }).source]; [dot] is [false] when no option is
    given. *)
Variable makeReSource : string -> bool -> string.

Definition getImagesConfig (configImages : option ImageConfig) : VercelImages :=
  let images := default noImageConfig configImages in
  let remotePatterns :=
    map (fun p =>
           {| rp_protocol := option_map (removeSuffix ":") (rp_protocol p);
              rp_hostname := makeReSource (rp_hostname p) false;
              rp_port := rp_port p;
              rp_pathname :=
                Some (makeReSource (default "**" (rp_pathname p)) true);
              rp_search := rp_search p |})
        (default [] (ic_remotePatterns images)) in
  let localPatterns :=
    option_map
      (map (fun p =>
              {| lp_pathname :=
                   Some (makeReSource (default "**" (lp_pathname p)) true);
                 lp_search := lp_search p |}))
      (ic_localPatterns images) in
  {| vi_localPatterns := localPatterns;
     vi_remotePatterns := remotePatterns;
     vi_sizes := default [] (ic_imageSizes images)
                 ++ default [] (ic_deviceSizes images);
     vi_domains := default [] (ic_domains images);
     vi_qualities := ic_qualities images;
     vi_minimumCacheTTL := ic_minimumCacheTTL images;
     vi_formats := ic_formats images;
     vi_dangerouslyAllowSVG := ic_dangerouslyAllowSVG images;
     vi_contentSecurityPolicy := ic_contentSecurityPolicy images;
     vi_contentDispositionType := ic_contentDispositionType images |}.

End Images.

(** A route the loop of [matchUrlToPage] passes over: its pattern does not
    match the path, or its page is in [prerenderFallbackFalseMap] with a
    list of paths that holds the path neither without nor with the
    locale. *)
Definition passedOver (fallbackFalse : gmap string (list string))
           (u uL : string) (route : ManifestRoute) : Prop :=
  mr_test route u = false
  \/ exists paths,
      fallbackFalse !! mr_page route = Some paths
      /\ ~ In u paths /\ ~ In uL paths.


(** ** [get-edge-function.ts]: the cookies of a [set-cookie] header

    [parseSetCookieHeader], which [splitCookiesString] of
    [node-handler.ts] repeats under other names. Its loops run on a
    position; in the model a loop that is not a plain scan has a bound on
    its number of rounds, and [None] says that the bound was reached. *)

(** [/\s/.test(c)] for a character below 256 *)
Definition isWhitespace (c : ascii) : bool :=
  let n := nat_of_ascii c in
  ((9 <=? n) && (n <=? 13)) || (n =? 32) || (n =? 160).

(** [char !== '=' && char !== ';' && char !== ','] *)
Definition isTokenChar (c : ascii) : bool :=
  negb (Ascii.eqb c "="%char) && negb (Ascii.eqb c ";"%char)
  && negb (Ascii.eqb c ","%char).

(** [while (current < s.length && p(s.charAt(current))) current += 1],
    where [rest] is [s] from [current] on. *)
Fixpoint advanceWhile (p : ascii -> bool) (rest : string) (current : nat) : nat :=
  match rest with
  | EmptyString => current
  | String c rest' => if p c then advanceWhile p rest' (S current) else current
  end.

(** The position [skipWhitespace()] leaves in [current]; the function
    returns [current < cookieHeader.length]. *)
Definition skipWhitespace (s : string) (current : nat) : nat :=
  advanceWhile isWhitespace (Js.drop current s) current.

(** The position behind the characters for which [isTokenChar()] holds. *)
Definition skipToken (s : string) (current : nat) : nat :=
  advanceWhile isTokenChar (Js.drop current s) current.

(** [s.charAt(i) === c] *)
Definition charAtIs (s : string) (i : nat) (c : ascii) : bool :=
  match Js.drop i s with
  | EmptyString => false
  | String a _ => Ascii.eqb a c
  end.

(** [s.substring(from, to)] *)
Definition substring (from to : nat) (s : string) : string :=
  Js.take (Nat.max from to - Nat.min from to) (Js.drop (Nat.min from to) s).

(** The variables of the outer loop. *)
Record CookieScan := {
  cs_current : nat;
  cs_start : nat;
  cs_foundCookie : bool;
  cs_cookies : list string;
}.

(** The loop [while (skipWhitespace()) { ... }], at most [rounds] times. *)
Fixpoint scanCookie (rounds : nat) (s : string) (st : CookieScan)
  : option CookieScan :=
  match rounds with
  | O => None
  | S rounds =>
      let current := skipWhitespace s (cs_current st) in
      if negb (current <? Js.len s) then
        Some {| cs_current := current; cs_start := cs_start st;
                cs_foundCookie := cs_foundCookie st;
                cs_cookies := cs_cookies st |}
      else if charAtIs s current ","%char then
        let cookieEnd := current in
        let attributeStart := skipWhitespace s (current + 1) in
        let current := skipToken s attributeStart in
        if (current <? Js.len s) && charAtIs s current "="%char then
          scanCookie rounds s
            {| cs_current := attributeStart; cs_start := attributeStart;
               cs_foundCookie := true;
               cs_cookies := cs_cookies st
                             ++ [substring (cs_start st) cookieEnd s] |}
        else
          scanCookie rounds s
            {| cs_current := cookieEnd + 1; cs_start := cs_start st;
               cs_foundCookie := cs_foundCookie st;
               cs_cookies := cs_cookies st |}
      else
        scanCookie rounds s
          {| cs_current := current + 1; cs_start := cs_start st;
             cs_foundCookie := cs_foundCookie st;
             cs_cookies := cs_cookies st |}
  end.

(** The loop [while (current < cookieHeader.length) { ... }], at most
    [rounds] times. *)
Fixpoint scanHeader (rounds : nat) (s : string) (current : nat)
         (cookies : list string) : option (list string) :=
  match rounds with
  | O => None
  | S rounds =>
      if negb (current <? Js.len s) then Some cookies
      else
        match scanCookie (S (Js.len s)) s
                {| cs_current := current; cs_start := current;
                   cs_foundCookie := false; cs_cookies := cookies |} with
        | None => None
        | Some st =>
            scanHeader rounds s (cs_current st)
              (if negb (cs_foundCookie st) || (Js.len s <=? cs_current st)
               then cs_cookies st ++ [substring (cs_start st) (Js.len s) s]
               else cs_cookies st)
        end
  end.

Definition parseSetCookieHeader (cookieHeader : string) : option (list string) :=
  scanHeader (S (Js.len cookieHeader)) cookieHeader 0 [].

(** Every character of [s] has the property [p]. *)
Fixpoint allChars (p : ascii -> bool) (s : string) : bool :=
  match s with
  | EmptyString => true
  | String c s' => p c && allChars p s'
  end.

(** [s] is empty or starts with a character without the property [p]. *)
Definition stopsAt (p : ascii -> bool) (s : string) : Prop :=
  match s with
  | EmptyString => True
  | String c _ => p c = false
  end.

(** The inner loop of [parseSetCookieHeader] ends in the state [st'] when
    started in [st]. *)
Definition scanEndsIn (s : string) (st st' : CookieScan) : Prop :=
  exists rounds, scanCookie rounds s st = Some st'.

(** * Properties *)

(** ** Phase markers *)

Lemma handles_app (l1 l2 : list Route) :
  handles (l1 ++ l2) = handles l1 ++ handles l2.
Proof.
  induction l1 as [|[h|r] l1 IH]; simpl; [reflexivity | now rewrite IH | exact IH].
Qed.

Lemma handles_rules (rs : list RouteWithSrc) : handles (map Rule rs) = [].
Proof. induction rs as [|r rs IH]; simpl; auto. Qed.

Lemma map_snd_group (o : Origin) (rs : list RouteWithSrc) :
  map snd (group o rs) = map Rule rs.
Proof. unfold group. induction rs as [|r rs IH]; simpl; [reflexivity | now rewrite IH]. Qed.

Lemma map_snd_when (c : bool) (l : list (Origin * Route)) :
  map snd (when c l) = when c (map snd l).
Proof. now destruct c. Qed.

Lemma handles_when_rules (c : bool) (rs : list RouteWithSrc) :
  handles (when c (map Rule rs)) = [].
Proof. destruct c; simpl; [apply handles_rules | reflexivity]. Qed.

(** The route list without the tags. *)
Ltac untag :=
  unfold vercelRoutes, taggedRoutes; cbv zeta;
  repeat match goal with
         | |- context [match ?x with Some _ => _ | None => _ end] =>
             destruct x eqn:?
         | |- context [if has500Output ?c then _ else _] =>
             destruct (has500Output c) eqn:?
         end;
  rewrite ?map_app, ?map_snd_when, ?map_snd_group; simpl (map snd (marker _)).

(** A marker at position [i] of [l], with what [l] holds once the markers
    in front are counted. *)
Lemma handles_position (l : list Route) (h : HandleValue) (hs : list HandleValue) :
  handles l = h :: hs ->
  exists i, l !! i = Some (Handle h) /\ handles (drop (S i) l) = hs.
Proof.
  induction l as [|[h'|r] l IH]; simpl; intros E.
  - discriminate.
  - injection E as -> <-. exists 0. split; reflexivity.
  - destruct (IH E) as (i & Hi & Hd). exists (S i). split; assumption.
Qed.

(** C1, as the code has it: the table holds each of the six phase markers
    once, in the order filesystem, resource, miss, rewrite, hit, error,
    at strictly increasing positions. *)
Theorem phase_markers_in_source_order (ctx : BuildContext) :
  handles (vercelRoutes ctx) = phaseOrder
  /\ exists i1 i2 i3 i4 i5 i6,
      i1 < i2 /\ i2 < i3 /\ i3 < i4 /\ i4 < i5 /\ i5 < i6
      /\ vercelRoutes ctx !! i1 = Some (Handle filesystem)
      /\ vercelRoutes ctx !! i2 = Some (Handle resource)
      /\ vercelRoutes ctx !! i3 = Some (Handle miss)
      /\ vercelRoutes ctx !! i4 = Some (Handle rewrite)
      /\ vercelRoutes ctx !! i5 = Some (Handle hit)
      /\ vercelRoutes ctx !! i6 = Some (Handle error).
Proof.
  assert (H : handles (vercelRoutes ctx) = phaseOrder).
  { untag; rewrite ?handles_app, ?handles_when_rules, ?handles_rules; reflexivity. }
  split; [exact H|].
  unfold phaseOrder in H.
  destruct (handles_position _ _ _ H) as (i1 & H1 & D1).
  destruct (handles_position _ _ _ D1) as (j2 & H2 & D2).
  destruct (handles_position _ _ _ D2) as (j3 & H3 & D3).
  destruct (handles_position _ _ _ D3) as (j4 & H4 & D4).
  destruct (handles_position _ _ _ D4) as (j5 & H5 & D5).
  destruct (handles_position _ _ _ D5) as (j6 & H6 & _).
  rewrite !drop_drop in *.
  rewrite lookup_drop in H2, H3, H4, H5, H6.
  exists i1, (S i1 + j2), (S i1 + S j2 + j3), (S i1 + S j2 + S j3 + j4),
    (S i1 + S j2 + S j3 + S j4 + j5), (S i1 + S j2 + S j3 + S j4 + S j5 + j6).
  repeat split; try lia;
    match goal with
    | Hl : ?l !! ?a = Some ?v |- ?l !! ?b = Some ?v =>
        replace b with a by lia; exact Hl
    end.
Qed.

(** C1 as the specification words it fails on the empty build: the markers
    are not in the order filesystem, resource, rewrite, miss, hit, error,
    and no [rewrite] marker stands in front of a [miss] marker. *)
Lemma spec_phase_order_fails :
  handles (vercelRoutes emptyBuild) <> specPhaseOrder
  /\ ~ (exists i j, i < j
        /\ vercelRoutes emptyBuild !! i = Some (Handle rewrite)
        /\ vercelRoutes emptyBuild !! j = Some (Handle miss)).
Proof.
  split.
  - vm_compute. discriminate.
  - intros (i & j & Hlt & Hi & Hj).
    assert (Ei : i = 8).
    { do 17 (destruct i as [|i]; [vm_compute in Hi; try discriminate; reflexivity|]).
      vm_compute in Hi. discriminate. }
    assert (Ej : j = 6).
    { do 17 (destruct j as [|j]; [vm_compute in Hj; try discriminate; try reflexivity|]).
      vm_compute in Hj. discriminate. }
    lia.
Qed.

(** ** Groups of the table *)

Lemma rulesFrom_app (o : Origin) (l1 l2 : list (Origin * Route)) :
  rulesFrom o (l1 ++ l2) = rulesFrom o l1 ++ rulesFrom o l2.
Proof. unfold rulesFrom. now rewrite List.filter_app, map_app. Qed.

Lemma rulesFrom_group (o o' : Origin) (rs : list RouteWithSrc) :
  rulesFrom o (group o' rs) = if bool_decide (o' = o) then map Rule rs else [].
Proof.
  unfold rulesFrom, group.
  induction rs as [|r rs IH]; simpl.
  - now destruct (bool_decide (o' = o)).
  - destruct (bool_decide (o' = o)); simpl; [now rewrite IH | exact IH].
Qed.

Lemma rulesFrom_when (o : Origin) (c : bool) (l : list (Origin * Route)) :
  rulesFrom o (when c l) = when c (rulesFrom o l).
Proof. now destruct c. Qed.

Lemma when_nil {A} (c : bool) : when c (@nil A) = [].
Proof. now destruct c. Qed.

Lemma in_rulesFrom (o : Origin) (x : Route) (l : list (Origin * Route)) :
  In (o, x) l <-> In x (rulesFrom o l).
Proof.
  unfold rulesFrom. rewrite in_map_iff. split.
  - intros H. exists (o, x). split; [reflexivity|].
    apply List.filter_In. split; [assumption|]. simpl. now apply bool_decide_eq_true.
  - intros ([o' x'] & E & H). simpl in E. subst x'.
    apply List.filter_In in H. destruct H as [H Ho]. simpl in Ho.
    apply bool_decide_eq_true in Ho. now subst o'.
Qed.

Lemma rulesFrom_marker (o : Origin) (h : HandleValue) :
  rulesFrom o (marker h) = if bool_decide (FromPhaseMarker = o) then [Handle h] else [].
Proof. unfold rulesFrom, marker. simpl. now destruct (bool_decide (FromPhaseMarker = o)). Qed.

(** Case analysis on the optional parts of the configuration that shape
    the table. *)
Ltac split_config :=
  unfold taggedRoutes; cbv zeta;
  repeat match goal with
         | |- context [match ?x with Some _ => _ | None => _ end] =>
             destruct x eqn:?
         | |- context [if has500Output ?c then _ else _] =>
             destruct (has500Output c) eqn:?
         end.

(** The entries of group [o], for a given [o]: the groups of the table are
    told apart by their tag. *)
Ltac select_group :=
  split_config;
  rewrite ?rulesFrom_app, ?rulesFrom_when, ?rulesFrom_group, ?rulesFrom_marker;
  repeat match goal with
         | |- context [if bool_decide (?a = ?b) then ?x else ?y] =>
             let v := eval vm_compute in (bool_decide (a = b)) in
             lazymatch v with
             | true => change (if bool_decide (a = b) then x else y) with x
             | false => change (if bool_decide (a = b) then x else y) with y
             end
         end;
  rewrite ?when_nil; cbn [app]; rewrite ?app_nil_r.

(** ** Data routes and the override flag *)

Lemma group_dataNormalizePreRedirect (ctx : BuildContext) :
  rulesFrom FromDataNormalizePreRedirect (taggedRoutes ctx)
  = map Rule (normalizeNextDataRoutes (config ctx) (buildId ctx)
                (shouldHandleMiddlewareDataResolving ctx) true).
Proof. select_group; reflexivity. Qed.

Lemma group_dataDenormalizePreFilesystem (ctx : BuildContext) :
  rulesFrom FromDataDenormalizePreFilesystem (taggedRoutes ctx)
  = map Rule (denormalizeNextDataRoutes (config ctx) (buildId ctx)
                (shouldHandleMiddlewareDataResolving ctx) true).
Proof. select_group; reflexivity. Qed.

Lemma group_dataNormalizePostFilesystem (ctx : BuildContext) :
  rulesFrom FromDataNormalizePostFilesystem (taggedRoutes ctx)
  = map Rule (normalizeNextDataRoutes (config ctx) (buildId ctx)
                (shouldHandleMiddlewareDataResolving ctx) false).
Proof. select_group; reflexivity. Qed.

Lemma group_dataDenormalizePostRewrite (ctx : BuildContext) :
  rulesFrom FromDataDenormalizePostRewrite (taggedRoutes ctx)
  = map Rule (denormalizeNextDataRoutes (config ctx) (buildId ctx)
                (shouldHandleMiddlewareDataResolving ctx) false).
Proof. select_group; reflexivity. Qed.

Lemma in_map_Rule (r : RouteWithSrc) (rs : list RouteWithSrc) :
  In (Rule r) (map Rule rs) -> In r rs.
Proof.
  rewrite in_map_iff. intros (r' & E & H). now injection E as ->.
Qed.

(** With the override argument set, the two rewriting rules of the
    normalizer carry the flag, the rule that appends the header does not. *)
Lemma normalize_override (c : NextConfig) (b : string) (resolving isOverride : bool)
      (r : RouteWithSrc) :
  In r (normalizeNextDataRoutes c b resolving isOverride) ->
  override r = if isOverride then
                 match dest r with Some _ => Some true | None => None end
               else None.
Proof.
  unfold normalizeNextDataRoutes.
  destruct resolving; simpl; [|tauto].
  destruct isOverride; intros [<-|[<-|[<-|[]]]]; reflexivity.
Qed.

Lemma denormalize_override (c : NextConfig) (b : string) (resolving isOverride : bool)
      (r : RouteWithSrc) :
  In r (denormalizeNextDataRoutes c b resolving isOverride) ->
  override r = if isOverride then Some true else None.
Proof.
  unfold denormalizeNextDataRoutes.
  destruct resolving; simpl; [|tauto].
  destruct isOverride; intros [<-|[<-|[]]]; reflexivity.
Qed.

(** C6, as the code has it: of the four data-route passes, the
    normalization in front of the redirects and the denormalization in
    front of the filesystem phase are built with the override argument; in
    the first, the rules that rewrite the path carry [override: true] and
    the rule that appends the header does not; the two later passes carry
    no override flag at all. *)
Theorem data_route_override (ctx : BuildContext) (o : Origin) (r : RouteWithSrc) :
  In (o, Rule r) (taggedRoutes ctx) ->
  (o = FromDataNormalizePreRedirect ->
   override r = match dest r with Some _ => Some true | None => None end)
  /\ (o = FromDataDenormalizePreFilesystem -> override r = Some true)
  /\ (o = FromDataNormalizePostFilesystem -> override r = None)
  /\ (o = FromDataDenormalizePostRewrite -> override r = None).
Proof.
  intros H. apply in_rulesFrom in H.
  repeat split; intros ->.
  - rewrite group_dataNormalizePreRedirect in H.
    apply in_map_Rule, normalize_override in H. exact H.
  - rewrite group_dataDenormalizePreFilesystem in H.
    apply in_map_Rule, denormalize_override in H. exact H.
  - rewrite group_dataNormalizePostFilesystem in H.
    apply in_map_Rule, normalize_override in H. exact H.
  - rewrite group_dataDenormalizePostRewrite in H.
    apply in_map_Rule, denormalize_override in H. exact H.
Qed.

(** C6 as the specification words it fails with pages and a middleware:
    the denormalization in front of the filesystem phase carries
    [override: true] as well. *)
Lemma spec_override_only_pre_redirect_fails :
  ~ specOverrideOnlyPreRedirect pagesMiddlewareBuild.
Proof.
  intros H.
  pose (r := route "^/$"
               [ setHas (Some [headerCond "x-nextjs-data" None]);
                 setDest (Some "/_next/data/abc123/index.json");
                 setContinue (Some true);
                 setOverride (Some true) ]).
  specialize (H FromDataDenormalizePreFilesystem r).
  assert (E : FromDataDenormalizePreFilesystem = FromDataNormalizePreRedirect).
  { apply H; [|reflexivity|reflexivity].
    apply in_rulesFrom. vm_compute. left. reflexivity. }
  discriminate E.
Qed.

(** The theorem on the override flag at the first rule of the
    denormalization in front of the filesystem phase. *)
Lemma data_route_override_witness :
  exists r, In (FromDataDenormalizePreFilesystem, Rule r)
               (taggedRoutes pagesMiddlewareBuild)
            /\ override r = Some true.
Proof.
  pose (r := route "^/$"
               [ setHas (Some [headerCond "x-nextjs-data" None]);
                 setDest (Some "/_next/data/abc123/index.json");
                 setContinue (Some true);
                 setOverride (Some true) ]).
  assert (H : In (FromDataDenormalizePreFilesystem, Rule r)
                 (taggedRoutes pagesMiddlewareBuild)).
  { apply in_rulesFrom. vm_compute. left. reflexivity. }
  exists r. split; [exact H|].
  exact (proj1 (proj2 (data_route_override pagesMiddlewareBuild _ r H)) eq_refl).
Defined.

(** ** Entries of the table, by case *)

Lemma in_group (o o' : Origin) (x : Route) (rs : list RouteWithSrc) :
  In (o, x) (group o' rs) -> o = o' /\ exists r, x = Rule r /\ In r rs.
Proof.
  unfold group. rewrite in_map_iff. intros (r & E & H).
  injection E as <- <-. eauto.
Qed.

Lemma in_marker (o : Origin) (x : Route) (h : HandleValue) :
  In (o, x) (marker h) -> o = FromPhaseMarker /\ x = Handle h.
Proof. intros [E|[]]. now injection E as <- <-. Qed.

Lemma in_when {A} (c : bool) (a : A) (l : list A) : In a (when c l) -> In a l.
Proof. destruct c; simpl; tauto. Qed.

(** Every entry of the table comes from one group: the hypothesis [H]
    that an entry is in the table is split into one case for each group. *)
Ltac table_cases H :=
  unfold taggedRoutes in H; cbv zeta in H;
  repeat match type of H with
         | context [match ?x with Some _ => _ | None => _ end] => destruct x eqn:?
         | context [if has500Output ?c then _ else _] =>
             destruct (has500Output c) eqn:?
         end;
  repeat (apply in_app_or in H; destruct H as [H|H]);
  try apply in_when in H;
  first [ apply in_marker in H;
          let E := fresh "E" in
          destruct H as [-> E]; first [discriminate E | subst]
        | apply in_group in H;
          let r := fresh "r" in
          let E := fresh "E" in
          destruct H as [-> (r & E & H)];
          first [injection E as E; subst | subst]
        | destruct H ].

(** ** Locale rules *)

Lemma no_i18n_no_locale_group (ctx : BuildContext) (o : Origin) (x : Route) :
  i18n (config ctx) = None ->
  In (o, x) (taggedRoutes ctx) ->
  localeGroupOf o = None.
Proof.
  intros Hi H. table_cases H; try congruence; reflexivity.
Qed.

(** [modifyWithRewriteHeaders] touches [src], [dest] and [headers] only. *)
Lemma modifyRewrite_keeps (opts : RewriteHeaderOpts) (r : RouteWithSrc) :
  status (modifyRewrite opts r) = status r
  /\ locale (modifyRewrite opts r) = locale r
  /\ check (modifyRewrite opts r) = check r
  /\ override (modifyRewrite opts r) = override r
  /\ continue (modifyRewrite opts r) = continue r.
Proof.
  unfold modifyRewrite.
  destruct (dest r) as [d|]; [|repeat split].
  destruct (negb (Js.truthy (src r)) || negb (Js.truthy d)); [repeat split|].
  destruct (protocolOf d); [|destruct (splitDestination d) as [p q]];
    destruct (isAfterFilesRewrite opts);
    repeat match goal with
           | |- context [if ?b then _ else _] => destruct b
           end;
    repeat split.
Qed.

(** The rules made from the user's rewrites have neither a status nor a
    [locale] property; only those in front of the files have flags other
    than [check]. *)
Lemma converted_rewrite_fields (ctx : BuildContext) (r : RouteWithSrc) :
  In r (cBeforeFiles (convertedRewrites ctx))
  \/ In r (cAfterFiles (convertedRewrites ctx))
  \/ In r (cFallback (convertedRewrites ctx)) ->
  status r = None /\ locale r = None.
Proof.
  unfold convertedRewrites, modifyWithRewriteHeaders, normalizeRewrites.
  destruct (flagPrefetchRsc ctx || flagSegmentPrefetches ctx); simpl;
    rewrite ?map_map, !in_map_iff;
    intros [(x & <- & _)|[(x & <- & _)|(x & <- & _)]];
    try (destruct (modifyRewrite_keeps
                     {| isAfterFilesRewrite := false;
                        shouldHandlePrefetchRsc := flagPrefetchRsc ctx;
                        shouldHandleSegmentPrefetches := flagSegmentPrefetches ctx |}
                     (setOverride (Some true)
                        (setContinue (Some true) (setCheck None (normalizeItem x)))))
           as (-> & -> & _));
    try (destruct (modifyRewrite_keeps
                     {| isAfterFilesRewrite := false;
                        shouldHandlePrefetchRsc := flagPrefetchRsc ctx;
                        shouldHandleSegmentPrefetches := flagSegmentPrefetches ctx |}
                     (normalizeItem x))
           as (-> & -> & _));
    try (destruct (modifyRewrite_keeps
                     {| isAfterFilesRewrite := true;
                        shouldHandlePrefetchRsc := flagPrefetchRsc ctx;
                        shouldHandleSegmentPrefetches := flagSegmentPrefetches ctx |}
                     (normalizeItem x))
           as (-> & -> & _));
    split; reflexivity.
Qed.

(** The members of a group given by a list literal or by a [map], one
    after the other. *)
Ltac group_members H :=
  unfold priorityRedirects, plainRedirects, headerRoutes, middlewareRoutes,
    handleMiddleware, normalizeNextDataRoutes, denormalizeNextDataRoutes,
    localeWildcardRoutes, localeDomainRedirectRoutes, localeRedirectRoutes,
    defaultLocaleRewriteRoutes, appRscRoutes, nextImageRoutes,
    nextDataNoopRoutes, appIndexRscRoutes, appRscRepairRoutes,
    directory404Routes, static404Routes, localeStripRoutes,
    segmentPrefetchRoutes, middlewareDataRoutes, immutableCacheRoutes,
    matchedPathRoutes, errorLocaleRoutes, errorRoutes in H;
  repeat match type of H with
         | context [match ?x with Some _ => _ | None => _ end] => destruct x
         | context [if ?b then _ else _] => destruct b
         end;
  try (apply in_map_iff in H; let x := fresh "x" in destruct H as (x & <- & _));
  repeat match type of H with
         | In _ (_ :: _) => destruct H as [<-|H]
         | In _ [] => destruct H
         | False => destruct H
         end.

(** A rule of the dynamic-route group is the 404 rule for [_next/data]
    or the rule of a dynamic route. *)
Lemma in_dynamicRoutesFrom (ctx : BuildContext) (added : bool)
      (ds : list RewriteItem) (r : RouteWithSrc) :
  In r (dynamicRoutesFrom ctx added ds) ->
  r = nextData404Route ctx \/ exists d, In d ds /\ r = dynamicRoute d.
Proof.
  revert added. induction ds as [|d ds IH]; simpl; intros added H.
  - destruct H.
  - apply in_app_or in H. destruct H as [H|[<-|H]].
    + match type of H with
      | In _ (if ?b then _ else _) => destruct b
      end; [destruct H as [<-|[]]; now left | destruct H].
    + right. exists d. auto.
    + destruct (IH _ H) as [->|(d' & Hd & ->)]; [now left|].
      right. exists d'. auto.
Qed.

Lemma no_i18n_no_locale_field (ctx : BuildContext) :
  i18n (config ctx) = None ->
  forall x, In x (vercelRoutes ctx) -> noLocaleField x.
Proof.
  intros Hi x H. unfold vercelRoutes in H.
  apply in_map_iff in H. destruct H as ([o x'] & E & H). simpl in E. subst x'.
  table_cases H; try congruence; try exact I; simpl.
  all: try (apply (converted_rewrite_fields ctx); tauto).
  all: try (group_members H; unfold spreadIf;
            repeat match goal with
                   | |- context [if ?b then _ else _] => destruct b
                   end; reflexivity).
  all: apply in_dynamicRoutesFrom in H;
    destruct H as [->|(d & _ & ->)]; reflexivity.
Qed.

Section LocaleGroups.

Variable ctx : BuildContext.
Variable i : I18NConfig.
Hypothesis Hi : i18n (config ctx) = Some i.

Ltac select_locale_group :=
  unfold taggedRoutes; cbv zeta; rewrite Hi; select_group; reflexivity.

Lemma group_localeWildcard :
  rulesFrom FromLocaleWildcard (taggedRoutes ctx)
  = map Rule (localeWildcardRoutes ctx i).
Proof. select_locale_group. Qed.

Lemma group_localeDomainRedirect :
  rulesFrom FromLocaleDomainRedirect (taggedRoutes ctx)
  = map Rule (localeDomainRedirectRoutes ctx i).
Proof. select_locale_group. Qed.

Lemma group_localeRedirect :
  rulesFrom FromLocaleRedirect (taggedRoutes ctx)
  = map Rule (localeRedirectRoutes i).
Proof. select_locale_group. Qed.

Lemma group_defaultLocaleRewrite :
  rulesFrom FromDefaultLocaleRewrite (taggedRoutes ctx)
  = map Rule (defaultLocaleRewriteRoutes ctx i (setContinue (Some true))).
Proof. select_locale_group. Qed.

Lemma group_defaultLocaleRewriteMiss :
  rulesFrom FromDefaultLocaleRewriteMiss (taggedRoutes ctx)
  = when (bool_decide (localeDetection i = Some false))
         (map Rule (defaultLocaleRewriteRoutes ctx i (setCheck (Some true)))).
Proof. select_locale_group. Qed.

Lemma group_literal404Locale :
  rulesFrom FromLiteral404Locale (taggedRoutes ctx)
  = [Rule (literalStatusLocaleRoute ctx i 404 "404" [missingRevalidate])].
Proof. select_locale_group. Qed.

Lemma group_literal500Locale :
  rulesFrom FromLiteral500Locale (taggedRoutes ctx)
  = [Rule (literalStatusLocaleRoute ctx i 500 "500" [])].
Proof. select_locale_group. Qed.

Lemma group_localeStrip :
  rulesFrom FromLocaleStrip (taggedRoutes ctx)
  = map Rule (localeStripRoutes ctx i).
Proof. select_locale_group. Qed.

Lemma group_notFoundLocale :
  rulesFrom FromNotFoundLocale (taggedRoutes ctx)
  = map Rule
      (errorLocaleRoutes ctx i 404
         (Posix.join ["/"; basePath (config ctx); "/$nextLocale"; notFoundPath ctx])
         (Posix.join ["/"; basePath (config ctx); "/" +:+ defaultLocale i;
                      notFoundPath ctx])).
Proof. select_locale_group. Qed.

Lemma group_serverErrorLocale :
  rulesFrom FromServerErrorLocale (taggedRoutes ctx)
  = when (has500Output ctx)
      (map Rule
         (errorLocaleRoutes ctx i 500
            (Posix.join ["/"; basePath (config ctx); "/$nextLocale/500"])
            (Posix.join ["/"; basePath (config ctx);
                         "/" +:+ defaultLocale i +:+ "/500"]))).
Proof. select_locale_group. Qed.

(** The first rule of a group is in the table. *)
Lemma emitted_of_group (o : Origin) (g : LocaleGroup) (r : RouteWithSrc)
      (rest : list Route) :
  rulesFrom o (taggedRoutes ctx) = Rule r :: rest ->
  localeGroupOf o = Some g ->
  emitted g ctx.
Proof.
  intros E Hg. exists o, r. split; [|exact Hg].
  apply in_rulesFrom. rewrite E. now left.
Qed.

Lemma emitted_always :
  emitted WildcardPrefix ctx
  /\ emitted DefaultLocaleRewrites ctx
  /\ emitted LocaleLiteralStatus ctx
  /\ emitted LocalePrefixStripping ctx
  /\ emitted LocaleNotFound ctx.
Proof.
  repeat split.
  - eapply emitted_of_group; [apply group_localeWildcard | reflexivity].
  - eapply emitted_of_group; [apply group_defaultLocaleRewrite | reflexivity].
  - eapply emitted_of_group; [apply group_literal404Locale | reflexivity].
  - eapply emitted_of_group; [apply group_localeStrip | reflexivity].
  - eapply emitted_of_group; [apply group_notFoundLocale | reflexivity].
Qed.

Lemma emitted_redirects :
  emitted LocaleRedirects ctx <-> localeDetection i <> Some false.
Proof.
  split.
  - intros (o & r & H & Hg) Hd.
    apply in_rulesFrom in H.
    destruct o; try discriminate Hg.
    + rewrite group_localeDomainRedirect in H.
      unfold localeDomainRedirectRoutes in H. rewrite Hd in H.
      destruct (domains i) as [ds|]; [|destruct H].
      rewrite andb_false_r in H. destruct H.
    + rewrite group_localeRedirect in H.
      unfold localeRedirectRoutes in H. rewrite Hd in H. destruct H.
  - intros Hd.
    eapply emitted_of_group with (o := FromLocaleRedirect); [|reflexivity].
    rewrite group_localeRedirect. unfold localeRedirectRoutes.
    rewrite bool_decide_eq_false_2 by exact Hd. reflexivity.
Qed.

Lemma emitted_serverError :
  emitted LocaleServerError ctx <-> has500Output ctx = true.
Proof.
  split.
  - intros (o & r & H & Hg).
    apply in_rulesFrom in H.
    destruct o; try discriminate Hg.
    rewrite group_serverErrorLocale in H.
    destruct (has500Output ctx); [reflexivity | destruct H].
  - intros H5.
    eapply emitted_of_group with (o := FromServerErrorLocale); [|reflexivity].
    rewrite group_serverErrorLocale, H5. reflexivity.
Qed.

End LocaleGroups.

(** C2 as the specification words it fails when locale detection is
    switched off: [i18n] is set and no [locale.redirect] rule is emitted. *)
Lemma spec_locale_all_or_nothing_fails :
  ~ specLocaleAllOrNothing (localeBuild (Some false)).
Proof.
  intros [_ H].
  assert (Hi : i18n (config (localeBuild (Some false))) <> None) by discriminate.
  specialize (H Hi LocaleRedirects).
  apply (emitted_redirects (localeBuild (Some false))
           (sampleI18n (Some false)) eq_refl) in H.
  apply H. reflexivity.
Qed.

(** ** The not-found fallback *)

Lemma afterMarker_rules (h : HandleValue) (rs : list RouteWithSrc) (l : list Route) :
  afterMarker h (map Rule rs ++ l) = afterMarker h l.
Proof. induction rs as [|r rs IH]; simpl; auto. Qed.

Lemma afterMarker_when_rules (h : HandleValue) (c : bool) (rs : list RouteWithSrc)
      (l : list Route) :
  afterMarker h (when c (map Rule rs) ++ l) = afterMarker h l.
Proof. destruct c; simpl; [apply afterMarker_rules | reflexivity]. Qed.

Lemma afterMarker_marker (h h' : HandleValue) (l : list Route) :
  afterMarker h (Handle h' :: l) = if bool_decide (h' = h) then l else afterMarker h l.
Proof. reflexivity. Qed.

Ltac decide_markers :=
  repeat match goal with
         | |- context [if bool_decide (?a = ?b) then ?x else ?y] =>
             let v := eval vm_compute in (bool_decide (a = b)) in
             lazymatch v with
             | true => change (if bool_decide (a = b) then x else y) with x
             | false => change (if bool_decide (a = b) then x else y) with y
             end
         end.

(** The error phase of the table: the rules of the 404 fallback, then
    those of the 500 fallback. *)
Lemma error_phase (ctx : BuildContext) :
  afterMarker error (vercelRoutes ctx)
  = map Rule
      (match i18n (config ctx) with
       | Some i =>
           errorLocaleRoutes ctx i 404
             (Posix.join ["/"; basePath (config ctx); "/$nextLocale"; notFoundPath ctx])
             (Posix.join ["/"; basePath (config ctx); "/" +:+ defaultLocale i;
                          notFoundPath ctx])
       | None =>
           errorRoutes ctx 404 (Posix.join ["/"; basePath (config ctx); notFoundPath ctx])
       end
       ++ match i18n (config ctx), has500Output ctx with
          | Some i, true =>
              errorLocaleRoutes ctx i 500
                (Posix.join ["/"; basePath (config ctx); "/$nextLocale/500"])
                (Posix.join ["/"; basePath (config ctx);
                             "/" +:+ defaultLocale i +:+ "/500"])
          | _, _ =>
              errorRoutes ctx 500
                (Posix.join ["/"; basePath (config ctx);
                             if has500Output ctx then "/500" else "/_error"])
          end).
Proof.
  unfold vercelRoutes, taggedRoutes; cbv zeta.
  destruct (i18n (config ctx)) as [i|]; destruct (has500Output ctx);
    rewrite ?map_app, ?map_snd_when, ?map_snd_group;
    change (map snd []) with (@nil Route); simpl (map snd (marker _));
    rewrite <- ?app_assoc; cbn [app];
    repeat first [ rewrite afterMarker_rules
                 | rewrite afterMarker_when_rules
                 | rewrite afterMarker_marker; decide_markers ];
    reflexivity.
Qed.

(** C7: the not-found page is [/_not-found] if such an output exists,
    else [/404] if that exists, else [/_error]; and the rules of the error
    phase that answer 404 have exactly this page as destination, under the
    base path, and under the locale of the path or the default locale when
    [i18n] is set. *)
Theorem not_found_fallback_destination (ctx : BuildContext) :
  (hasNotFoundOutput ctx = true -> notFoundPath ctx = "/_not-found")
  /\ (hasNotFoundOutput ctx = false -> has404Output ctx = true ->
      notFoundPath ctx = "/404")
  /\ (hasNotFoundOutput ctx = false -> has404Output ctx = false ->
      notFoundPath ctx = "/_error")
  /\ destinationsWithStatus 404 (afterMarker error (vercelRoutes ctx))
     = match i18n (config ctx) with
       | Some i =>
           [ Some (Posix.join ["/"; basePath (config ctx); "/$nextLocale";
                               notFoundPath ctx]);
             Some (Posix.join ["/"; basePath (config ctx);
                               "/" +:+ defaultLocale i; notFoundPath ctx]) ]
       | None =>
           [ Some (Posix.join ["/"; basePath (config ctx); notFoundPath ctx]) ]
       end.
Proof.
  unfold notFoundPath at 1 2 3.
  repeat split.
  - intros ->. reflexivity.
  - intros -> ->. reflexivity.
  - intros -> ->. reflexivity.
  - rewrite error_phase.
    destruct (i18n (config ctx)) as [i|]; destruct (has500Output ctx);
      reflexivity.
Qed.

(** The theorem on the not-found page at three builds: with [/_not-found]
    and [/404], with [/404] alone, with neither. *)
Lemma not_found_fallback_destination_witness :
  (notFoundPath (staticBuild ["/_not-found"; "/404"]) = "/_not-found"
   /\ destinationsWithStatus 404
        (afterMarker error (vercelRoutes (staticBuild ["/_not-found"; "/404"])))
      = [Some "/_not-found"])
  /\ notFoundPath (staticBuild ["/404"]) = "/404"
  /\ notFoundPath (staticBuild []) = "/_error".
Proof.
  split; [split|split].
  - exact (proj1 (not_found_fallback_destination
                    (staticBuild ["/_not-found"; "/404"])) eq_refl).
  - rewrite (proj2 (proj2 (proj2 (not_found_fallback_destination
                                    (staticBuild ["/_not-found"; "/404"]))))).
    reflexivity.
  - exact (proj1 (proj2 (not_found_fallback_destination (staticBuild ["/404"])))
             eq_refl eq_refl).
  - exact (proj1 (proj2 (proj2 (not_found_fallback_destination (staticBuild []))))
             eq_refl eq_refl).
Defined.

(** ** The 404 rule for [_next/data] in front of the dynamic routes *)

Lemma guardFields_nextData404Route (ctx : BuildContext) :
  guardFields (nextData404Route ctx).
Proof. unfold guardFields. simpl. repeat split; discriminate. Qed.

Lemma dynamicRoute_not_guard (d : RewriteItem) : ~ guardFields (dynamicRoute d).
Proof. intros (H & _). discriminate H. Qed.

(** A rule with these fields comes from the group of the dynamic routes. *)
Lemma guardFields_origin (ctx : BuildContext) (o : Origin) (r : RouteWithSrc) :
  In (o, Rule r) (taggedRoutes ctx) -> guardFields r -> o = FromDynamicRoutes.
Proof.
  intros H (Hs & Hc & Hh & Hd).
  table_cases H; try reflexivity; exfalso.
  all: try (injection H as <-; simpl in *; congruence).
  all: try (match goal with
            | Hin : In ?x (_ (convertedRewrites ?c)) |- _ =>
                destruct (converted_rewrite_fields c x) as [E' _]; [tauto|];
                congruence
            end).
  all: try (group_members H; unfold spreadIf in *;
            repeat match goal with
                   | _ : context [if ?b then _ else _] |- _ => destruct b
                   end;
            simpl in *; congruence).
Qed.

Lemma Forall_notDynamic_group (o : Origin) (rs : list RouteWithSrc) :
  o <> FromDynamicRoutes -> Forall notDynamic (group o rs).
Proof.
  intros Ho. unfold group. apply List.Forall_forall. intros e He.
  apply in_map_iff in He. destruct He as (r & <- & _). exact Ho.
Qed.

Lemma Forall_when {A} (P : A -> Prop) (c : bool) (l : list A) :
  Forall P l -> Forall P (when c l).
Proof. destruct c; simpl; auto. Qed.

Lemma Forall_notDynamic_marker (h : HandleValue) : Forall notDynamic (marker h).
Proof. repeat constructor. discriminate. Qed.

Lemma block_peel {A} (P : A -> Prop) (x l g : list A) :
  Forall P x ->
  (exists b a, l = b ++ g ++ a /\ Forall P b /\ Forall P a) ->
  exists b a, x ++ l = b ++ g ++ a /\ Forall P b /\ Forall P a.
Proof.
  intros Hx (b & a & -> & Hb & Ha). exists (x ++ b), a.
  split; [now rewrite <- app_assoc|]. split; [|exact Ha].
  apply Forall_app. auto.
Qed.

Lemma block_here {A} (P : A -> Prop) (g rest : list A) :
  Forall P rest ->
  exists b a, g ++ rest = b ++ g ++ a /\ Forall P b /\ Forall P a.
Proof. intros H. exists [], rest. repeat split; auto. Qed.

Ltac not_dynamic :=
  repeat (apply Forall_app; split);
  first [ apply Forall_notDynamic_group; discriminate
        | apply Forall_when; apply Forall_notDynamic_group; discriminate
        | apply Forall_notDynamic_marker
        | apply Forall_nil ].

Lemma table_around_dynamic (ctx : BuildContext) :
  exists before after,
    taggedRoutes ctx
    = before ++ group FromDynamicRoutes (dynamicRouteRules ctx) ++ after
    /\ Forall notDynamic before /\ Forall notDynamic after.
Proof.
  unfold taggedRoutes; cbv zeta.
  destruct (i18n (config ctx)) as [i|]; destruct (has500Output ctx);
    rewrite <- ?app_assoc; cbn [app];
    repeat (apply block_peel; [solve [not_dynamic]|]);
    apply block_here; not_dynamic.
Qed.

Lemma dynamicRoutesFrom_added (ctx : BuildContext) (ds : list RewriteItem) :
  dynamicRoutesFrom ctx true ds = map dynamicRoute ds.
Proof.
  induction ds as [|d ds IH]; simpl; [reflexivity|].
  rewrite !andb_false_r. simpl. now rewrite IH.
Qed.

Lemma dynamicRoutesFrom_middleware (ctx : BuildContext) (added : bool)
      (ds : list RewriteItem) :
  hasMiddleware ctx = true ->
  dynamicRoutesFrom ctx added ds = map dynamicRoute ds.
Proof.
  intros Hm. revert added. induction ds as [|d ds IH]; simpl; intros added;
    [reflexivity|].
  rewrite Hm. simpl. rewrite andb_false_r. simpl. rewrite orb_false_r.
  now rewrite IH.
Qed.

Lemma dynamicRoutesFrom_first (ctx : BuildContext)
      (datas : list RewriteItem) (d : RewriteItem) (rest : list RewriteItem) :
  hasPagesDir ctx = true ->
  hasMiddleware ctx = false ->
  Forall isDataRoute datas ->
  ~ isDataRoute d ->
  dynamicRoutesFrom ctx false (datas ++ d :: rest)
  = map dynamicRoute datas
      ++ nextData404Route ctx :: dynamicRoute d :: map dynamicRoute rest.
Proof.
  intros Hp Hm Hdatas Hd.
  induction Hdatas as [|x datas Hx _ IH]; simpl.
  - rewrite Hp, Hm. unfold isDataRoute in Hd.
    destruct (Js.includes "_next/data" (rw_sourceRegex d)); [congruence|].
    simpl. now rewrite dynamicRoutesFrom_added.
  - rewrite Hp, Hm, Hx. simpl. now rewrite IH.
Qed.

(** The first dynamic route that is not a data route. *)
Lemma first_non_data (ds : list RewriteItem) :
  Exists (fun x => ~ isDataRoute x) ds ->
  exists datas d rest,
    ds = datas ++ d :: rest /\ Forall isDataRoute datas /\ ~ isDataRoute d.
Proof.
  induction ds as [|x ds IH]; intros H.
  - inversion H.
  - destruct (Js.includes "_next/data" (rw_sourceRegex x)) eqn:Ex.
    + assert (H' : Exists (fun x => ~ isDataRoute x) ds).
      { inversion H as [? ? Hx|]; [|assumption]. now elim Hx. }
      destruct (IH H') as (datas & d & rest & -> & Hd & Hn).
      exists (x :: datas), d, rest. repeat split; auto.
    + exists [], x, ds. repeat split; auto.
      unfold isDataRoute. congruence.
Qed.

Lemma guard_not_in_others (ctx : BuildContext) (l : list (Origin * Route)) :
  (forall e, In e l -> In e (taggedRoutes ctx)) ->
  Forall notDynamic l ->
  ~ In (Rule (nextData404Route ctx)) (map snd l).
Proof.
  intros Hsub Hl H. apply in_map_iff in H. destruct H as ([o x] & E & H).
  simpl in E. subst x.
  rewrite List.Forall_forall in Hl. apply (Hl _ H). simpl.
  eapply guardFields_origin; [apply Hsub, H | apply guardFields_nextData404Route].
Qed.

Lemma guard_not_dynamicRoute (ctx : BuildContext) (ds : list RewriteItem) :
  ~ In (Rule (nextData404Route ctx)) (map Rule (map dynamicRoute ds)).
Proof.
  intros H. apply in_map_Rule, in_map_iff in H. destruct H as (d & E & _).
  apply (dynamicRoute_not_guard d). rewrite E.
  apply guardFields_nextData404Route.
Qed.

(** C8: the rule that answers 404 for every [_next/data] path under the
    base path. With pages, without middleware and with a dynamic route that is
    not a data route, the table holds the rule once, immediately in front
    of the first such dynamic route; with a middleware the table does not
    hold it. *)
Theorem next_data_404_guard (ctx : BuildContext) :
  let guard := Rule (nextData404Route ctx) in
  (src (nextData404Route ctx)
   = Posix.join ["/"; basePath (config ctx); "_next/data/(.*)"]
   /\ status (nextData404Route ctx) = Some 404)
  /\ (hasPagesDir ctx = true ->
      hasMiddleware ctx = false ->
      Exists (fun x => ~ isDataRoute x) (dynamicRoutes (routes ctx)) ->
      exists datas d rest pre post,
        dynamicRoutes (routes ctx) = datas ++ d :: rest
        /\ Forall isDataRoute datas
        /\ ~ isDataRoute d
        /\ vercelRoutes ctx = pre ++ guard :: Rule (dynamicRoute d) :: post
        /\ ~ In guard pre
        /\ ~ In guard (Rule (dynamicRoute d) :: post))
  /\ (hasMiddleware ctx = true -> ~ In guard (vercelRoutes ctx)).
Proof.
  cbv zeta.
  destruct (table_around_dynamic ctx) as (before & after & E & Hb & Ha).
  assert (Hsubb : forall e, In e before -> In e (taggedRoutes ctx)).
  { intros e He. rewrite E. apply in_or_app. now left. }
  assert (Hsuba : forall e, In e after -> In e (taggedRoutes ctx)).
  { intros e He. rewrite E. apply in_or_app. right. apply in_or_app. now right. }
  pose proof (guard_not_in_others ctx before Hsubb Hb) as Nb.
  pose proof (guard_not_in_others ctx after Hsuba Ha) as Na.
  assert (Ev : vercelRoutes ctx
               = map snd before ++ map Rule (dynamicRouteRules ctx) ++ map snd after).
  { unfold vercelRoutes. now rewrite E, !map_app, map_snd_group. }
  split; [split; reflexivity|]. split.
  - intros Hp Hm Hex.
    destruct (first_non_data _ Hex) as (datas & d & rest & Ed & Hdatas & Hd).
    exists datas, d, rest,
      (map snd before ++ map Rule (map dynamicRoute datas)),
      (map Rule (map dynamicRoute rest) ++ map snd after).
    repeat split; try assumption.
    + rewrite Ev. unfold dynamicRouteRules. rewrite Ed.
      rewrite (dynamicRoutesFrom_first ctx datas d rest Hp Hm Hdatas Hd).
      rewrite map_app. simpl. now rewrite <- !app_assoc.
    + intros H. apply in_app_or in H. destruct H as [H|H]; [exact (Nb H)|].
      exact (guard_not_dynamicRoute ctx datas H).
    + intros [H|H].
      * assert (E' : dynamicRoute d = nextData404Route ctx) by congruence.
        apply (dynamicRoute_not_guard d). rewrite E'.
        apply guardFields_nextData404Route.
      * apply in_app_or in H. destruct H as [H|H]; [|exact (Na H)].
        exact (guard_not_dynamicRoute ctx rest H).
  - intros Hm H. rewrite Ev in H.
    apply in_app_or in H. destruct H as [H|H]; [exact (Nb H)|].
    apply in_app_or in H. destruct H as [H|H]; [|exact (Na H)].
    unfold dynamicRouteRules in H.
    rewrite (dynamicRoutesFrom_middleware ctx false _ Hm) in H.
    exact (guard_not_dynamicRoute ctx _ H).
Qed.

(** The theorem on the 404 rule for [_next/data] at the pages build, with
    and without middleware. *)
Lemma next_data_404_guard_witness :
  (exists datas d rest pre post,
      dynamicRoutes (routes pagesBuild) = datas ++ d :: rest
      /\ Forall isDataRoute datas
      /\ ~ isDataRoute d
      /\ vercelRoutes pagesBuild
         = pre ++ Rule (nextData404Route pagesBuild) :: Rule (dynamicRoute d) :: post
      /\ ~ In (Rule (nextData404Route pagesBuild)) pre
      /\ ~ In (Rule (nextData404Route pagesBuild)) (Rule (dynamicRoute d) :: post))
  /\ ~ In (Rule (nextData404Route pagesMiddlewareBuild))
          (vercelRoutes pagesMiddlewareBuild).
Proof.
  split.
  - apply (proj1 (proj2 (next_data_404_guard pagesBuild)));
      [reflexivity | reflexivity |].
    apply Exists_cons_hd. unfold isDataRoute. vm_compute. discriminate.
  - apply (proj2 (proj2 (next_data_404_guard pagesMiddlewareBuild))).
    reflexivity.
Defined.

(** ** Failure on a missing parent output *)

(** The loop that fills [prerenderFallbackFalseMap], from any state. *)
Lemma fallbackFalse_loop_throws (ctx : BuildContext) (ps : list Prerender)
      (body : gmap string (list string) -> Prerender -> Result (gmap string (list string))) :
  (forall m p, missingParent ctx p ->
               body m p = throw (MissingParentOutput (pr_parentOutputId p) p)) ->
  Exists (missingParent ctx) ps ->
  forall m, exists p e,
      In p ps /\ (e = MissingParentOutput (pr_parentOutputId p) p
                  \/ exists m', body m' p = inl e)
      /\ forEachM body ps m = inl e.
Proof.
  intros Hbad Hex. induction Hex as [p ps Hp|p ps _ IH]; intros m; simpl.
  - exists p, (MissingParentOutput (pr_parentOutputId p) p).
    rewrite (Hbad m p Hp). simpl. auto.
  - destruct (body m p) as [e|m'] eqn:Eb; simpl.
    + exists p, e. split; [now left|]. split; [|reflexivity].
      right. exists m. exact Eb.
    + destruct (IH m') as (p' & e & Hin & He & Hf).
      exists p', e. auto.
Qed.

Lemma forEachM_returns {A S} (body : S -> A -> Result S) (xs : list A) :
  Forall (fun x => forall s, exists s', body s x = inr s') xs ->
  forall s, exists s', forEachM body xs s = inr s'.
Proof.
  induction 1 as [|x xs Hx _ IH]; intros s; simpl.
  - eauto.
  - destruct (Hx s) as (s' & ->). simpl. apply IH.
Qed.

Lemma prerenderFallbackFalseMap_throws (ctx : BuildContext) :
  Exists (missingParent ctx) (prerenders (outputs ctx)) ->
  exists p, In p (prerenders (outputs ctx))
            /\ prerenderFallbackFalseMap ctx
               = inl (MissingParentOutput (pr_parentOutputId p) p).
Proof.
  intros Hex. unfold prerenderFallbackFalseMap.
  match goal with
  | |- context [forEachM ?b _ _] => set (body := b)
  end.
  assert (Hbad : forall m p, missingParent ctx p ->
                   body m p = throw (MissingParentOutput (pr_parentOutputId p) p)).
  { intros m p [Hf Hl]. unfold body. now rewrite Hf, Hl. }
  destruct (fallbackFalse_loop_throws ctx _ body Hbad Hex ∅)
    as (p & e & Hin & He & Hf).
  exists p. split; [exact Hin|]. rewrite Hf. f_equal.
  destruct He as [->|(m' & Hm')]; [reflexivity|].
  unfold body in Hm'.
  destruct (isFallbackFalsePrerender p); [|discriminate Hm'].
  destruct (nodeOutputsParentMap ctx !! pr_parentOutputId p);
    [discriminate Hm'|].
  now injection Hm' as <-.
Qed.

Lemma prerenderFallbackFalseMap_returns (ctx : BuildContext) :
  Forall (fun p => is_Some (nodeOutputsParentMap ctx !! pr_parentOutputId p))
         (prerenders (outputs ctx)) ->
  exists m, prerenderFallbackFalseMap ctx = inr m.
Proof.
  intros Hall. unfold prerenderFallbackFalseMap.
  apply forEachM_returns.
  eapply Forall_impl; [exact Hall|].
  intros p [parent Hp] m. simpl in Hp. rewrite Hp.
  destruct (isFallbackFalsePrerender p); eauto.
Qed.

Lemma handlePrerenderOutputs_returns (ps : list Prerender)
      (parents : gmap string FuncOutput) :
  Forall (fun p => is_Some (parents !! pr_parentOutputId p)) ps ->
  exists written, handlePrerenderOutputs ps parents = inr written.
Proof.
  intros Hall. unfold handlePrerenderOutputs.
  apply forEachM_returns.
  eapply Forall_impl; [exact Hall|].
  intros p [parent Hp] w. simpl in Hp. rewrite Hp. eauto.
Qed.

(** C9: a prerender with [parentFallbackMode] false, whose pathname has no
    [_next/data] and does not end in [.rsc], and whose parent is not in the
    map of Node.js outputs makes the build throw the invariant error, and
    nothing is returned; when the parent of every prerender is in the map
    the build returns, with the route table in its configuration. *)
Theorem missing_parent_aborts_build (ctx : BuildContext) :
  (Exists (missingParent ctx) (prerenders (outputs ctx)) ->
   exists p, In p (prerenders (outputs ctx))
             /\ onBuildComplete ctx
                = inl (MissingParentOutput (pr_parentOutputId p) p))
  /\ (Forall (fun p => is_Some (nodeOutputsParentMap ctx !! pr_parentOutputId p))
             (prerenders (outputs ctx)) ->
      exists result, onBuildComplete ctx = inr result
                     /\ vcRoutes (configJson result) = vercelRoutes ctx).
Proof.
  split.
  - intros Hex.
    destruct (prerenderFallbackFalseMap_throws ctx Hex) as (p & Hin & Hf).
    exists p. split; [exact Hin|].
    unfold onBuildComplete. rewrite Hf. reflexivity.
  - intros Hall.
    destruct (prerenderFallbackFalseMap_returns ctx Hall) as (m & Hm).
    destruct (handlePrerenderOutputs_returns _ _ Hall) as (w & Hw).
    unfold onBuildComplete. rewrite Hm, Hw. simpl.
    eexists. split; reflexivity.
Qed.

(** The theorem on missing parents at a build whose prerender names an
    output that does not exist, and at one whose prerender names the page. *)
Lemma missing_parent_aborts_build_witness :
  (exists p, In p (prerenders (outputs (prerenderBuild "/gone")))
             /\ onBuildComplete (prerenderBuild "/gone")
                = inl (MissingParentOutput (pr_parentOutputId p) p))
  /\ (exists result,
         onBuildComplete (prerenderBuild "/posts/[slug]") = inr result
         /\ vcRoutes (configJson result)
            = vercelRoutes (prerenderBuild "/posts/[slug]")).
Proof.
  split.
  - apply (proj1 (missing_parent_aborts_build (prerenderBuild "/gone"))).
    apply Exists_cons_hd. split; vm_compute; reflexivity.
  - apply (proj2 (missing_parent_aborts_build (prerenderBuild "/posts/[slug]"))).
    constructor; [|constructor].
    vm_compute. eauto.
Defined.

(** ** The wildcard table *)

(** C10: [wildcard] is absent exactly when [i18n] or its [domains] is not
    set; otherwise it has one entry for each domain, in input order, with
    the domain name and, as value, the empty string when the default locale
    of the domain is the default locale of the site and a slash followed by
    the default locale of the domain when it is not. *)
Theorem wildcard_of_domains (ctx : BuildContext) :
  (wildcard ctx = None <->
   forall i, i18n (config ctx) = Some i -> domains i = None)
  /\ forall i ds,
      i18n (config ctx) = Some i ->
      domains i = Some ds ->
      exists w,
        wildcard ctx = Some w
        /\ length w = length ds
        /\ forall k item,
            ds !! k = Some item ->
            exists e,
              w !! k = Some e
              /\ w_domain e = domain item
              /\ (domainDefaultLocale item = defaultLocale i -> w_value e = "")
              /\ (domainDefaultLocale item <> defaultLocale i ->
                  w_value e = "/" +:+ domainDefaultLocale item).
Proof.
  unfold wildcard. split.
  - destruct (i18n (config ctx)) as [i|]; [|split; [discriminate|reflexivity]].
    destruct (domains i) as [ds|] eqn:Ed; split.
    + discriminate.
    + intros H. specialize (H i eq_refl). congruence.
    + intros _ i' E. injection E as <-. exact Ed.
    + reflexivity.
  - intros i ds -> ->. eexists. split; [reflexivity|].
    split; [apply length_map|].
    intros k item Hk. rewrite list_lookup_fmap, Hk. simpl.
    eexists. split; [reflexivity|]. simpl. split; [reflexivity|].
    split; intros H.
    + apply String.eqb_eq in H. now rewrite H.
    + apply String.eqb_neq in H. now rewrite H.
Qed.

(** The theorem on the wildcard table at the build with two domains. *)
Lemma wildcard_of_domains_witness :
  exists w,
    wildcard (localeBuild None) = Some w
    /\ length w = 2
    /\ (exists e, w !! 0 = Some e /\ w_domain e = "example.fr"
                  /\ w_value e = "/fr-CA")
    /\ (exists e, w !! 1 = Some e /\ w_domain e = "example.com"
                  /\ w_value e = "").
Proof.
  destruct (proj2 (wildcard_of_domains (localeBuild None))
              (sampleI18n None) _ eq_refl eq_refl)
    as (w & Hw & Hl & Hk).
  exists w. split; [exact Hw|]. split; [exact Hl|]. split.
  - destruct (Hk 0 _ eq_refl) as (e & He & Hd & _ & Hv).
    exists e. split; [exact He|]. split; [exact Hd|].
    apply Hv. discriminate.
  - destruct (Hk 1 _ eq_refl) as (e & He & Hd & Hv & _).
    exists e. split; [exact He|]. split; [exact Hd|].
    apply Hv. reflexivity.
Defined.

(** ** The operation type of a function *)

(** C4, on the code: every configuration that [handleNodeOutputs] writes
    has the operation type [PAGE], also the one of an API route, for which
    the specification asks for [API]. *)
Theorem operation_type_is_always_page :
  (forall outs v mw,
      Forall (fun e => vc_operationType (snd e) = "PAGE")
             (handleNodeOutputs outs v mw))
  /\ map (fun e => vc_operationType (snd e))
         (handleNodeOutputs [sampleApiRoute] "16.0.0" None) = ["PAGE"]
  /\ specOperationType sampleApiRoute = "API".
Proof.
  split; [|split; reflexivity].
  intros outs v mw. unfold handleNodeOutputs.
  apply List.Forall_forall. intros e H.
  apply in_map_iff in H. destruct H as (o & <- & _).
  simpl. unfold operationType.
  destruct (o_type o); reflexivity.
Qed.

(** ** Strings *)

Module StrFacts.

Lemma app_cons (c : ascii) (s t : string) :
  String c s +:+ t = String c (s +:+ t).
Proof. reflexivity. Qed.

Lemma app_nil_l (t : string) : "" +:+ t = t.
Proof. reflexivity. Qed.

Lemma app_nil_r (s : string) : s +:+ "" = s.
Proof. induction s as [|c s IH]; [reflexivity|]. now rewrite app_cons, IH. Qed.

Lemma app_assoc (s t u : string) : (s +:+ t) +:+ u = s +:+ (t +:+ u).
Proof.
  induction s as [|c s IH]; [reflexivity|]. now rewrite !app_cons, IH.
Qed.

Lemma len_app (s t : string) : Js.len (s +:+ t) = Js.len s + Js.len t.
Proof.
  unfold Js.len. induction s as [|c s IH]; [reflexivity|].
  rewrite app_cons. simpl. now rewrite IH.
Qed.

Lemma to_list_app (s t : string) :
  list_ascii_of_string (s +:+ t)
  = list_ascii_of_string s ++ list_ascii_of_string t.
Proof.
  induction s as [|c s IH]; [reflexivity|].
  rewrite app_cons. simpl. now rewrite IH.
Qed.

Lemma to_list_inj (s t : string) :
  list_ascii_of_string s = list_ascii_of_string t -> s = t.
Proof.
  intros H. rewrite <- (string_of_list_ascii_of_string s),
              <- (string_of_list_ascii_of_string t). now rewrite H.
Qed.

(** Cancellation of a common suffix. *)
Lemma app_inv_tail (s t p : string) : s +:+ p = t +:+ p -> s = t.
Proof.
  intros H. apply to_list_inj.
  apply (f_equal list_ascii_of_string) in H. rewrite !to_list_app in H.
  exact (List.app_inv_tail _ _ _ H).
Qed.

Lemma take_app_le (n : nat) (s t : string) :
  n <= Js.len s -> Js.take n (s +:+ t) = Js.take n s.
Proof.
  revert n. unfold Js.len.
  induction s as [|c s IH]; intros [|n] Hn; simpl in *; try reflexivity; try lia.
  rewrite ?app_cons. simpl. rewrite IH by lia. reflexivity.
Qed.

Lemma take_all (s : string) : Js.take (Js.len s) s = s.
Proof. unfold Js.len. induction s as [|c s IH]; simpl; [|rewrite IH]; reflexivity. Qed.

Lemma take_app_len (s t : string) : Js.take (Js.len s) (s +:+ t) = s.
Proof. rewrite take_app_le by lia. apply take_all. Qed.

Lemma drop_app_le (n : nat) (s t : string) :
  n <= Js.len s -> Js.drop n (s +:+ t) = Js.drop n s +:+ t.
Proof.
  revert n. unfold Js.len.
  induction s as [|c s IH]; intros [|n] Hn; simpl in *; try reflexivity; try lia.
  rewrite ?app_cons. simpl. apply IH. lia.
Qed.

Lemma drop_all (s : string) : Js.drop (Js.len s) s = "".
Proof. unfold Js.len. induction s as [|c s IH]; simpl; auto. Qed.

Lemma drop_app_len (s t : string) : Js.drop (Js.len s) (s +:+ t) = t.
Proof. rewrite drop_app_le by lia. now rewrite drop_all. Qed.

Lemma take_drop (n : nat) (s : string) : Js.take n s +:+ Js.drop n s = s.
Proof.
  revert n. induction s as [|c s IH]; intros [|n]; simpl; try reflexivity.
  rewrite ?app_cons. now rewrite IH.
Qed.

Lemma len_drop (n : nat) (s : string) : Js.len (Js.drop n s) = Js.len s - n.
Proof.
  revert n. unfold Js.len.
  induction s as [|c s IH]; intros [|n]; simpl; auto.
Qed.

(** [endsWith] as a statement about concatenation. *)
Lemma endsWith_spec (p s : string) :
  Js.endsWith p s = true <-> exists stem, s = stem +:+ p.
Proof.
  unfold Js.endsWith. rewrite andb_true_iff, Nat.leb_le, String.eqb_eq. split.
  - intros [Hl E]. exists (Js.take (Js.len s - Js.len p) s).
    transitivity (Js.take (Js.len s - Js.len p) s
                  +:+ Js.drop (Js.len s - Js.len p) s);
      [symmetry; apply take_drop | now rewrite E].
  - intros (stem & ->). rewrite len_app. split; [lia|].
    replace (Js.len stem + Js.len p - Js.len p) with (Js.len stem) by lia.
    apply drop_app_len.
Qed.

Lemma endsWith_app (p s : string) : Js.endsWith p (s +:+ p) = true.
Proof. apply endsWith_spec. eauto. Qed.

Lemma endsWith_app_app (a p s : string) :
  Js.endsWith (a +:+ p) (s +:+ p) = Js.endsWith a s.
Proof.
  destruct (Js.endsWith a s) eqn:E.
  - apply endsWith_spec in E. destruct E as (stem & ->).
    rewrite app_assoc. apply endsWith_app.
  - destruct (Js.endsWith (a +:+ p) (s +:+ p)) eqn:E'; [|reflexivity].
    apply endsWith_spec in E'. destruct E' as (stem & E').
    rewrite <- app_assoc in E'. apply app_inv_tail in E'.
    rewrite E', endsWith_app in E. discriminate.
Qed.

Lemma indexOf_app_first (c : ascii) (p q : string) :
  Js.indexOf c p = None ->
  Js.indexOf c (p +:+ String c q) = Some (Js.len p).
Proof.
  unfold Js.len. induction p as [|a p IH]; simpl; intros H.
  - rewrite ?app_nil_l. simpl. now rewrite Ascii.eqb_refl.
  - rewrite ?app_cons. simpl.
    destruct (Ascii.eqb a c); [discriminate|].
    destruct (Js.indexOf c p); [discriminate|].
    now rewrite IH.
Qed.

End StrFacts.

(** ** Rewrites and the partial-render suffix *)

Example rewriteBuild_rules :
  map (fun r => (src r, dest r)) (cBeforeFiles (convertedRewrites rewriteBuild))
  = [("^\/old(?:\/)?$", Some "/new")]
  /\ map (fun r => (src r, dest r)) (cAfterFiles (convertedRewrites rewriteBuild))
     = [("^\/old(?:/)?(?<rscsuff>\.rsc|\.prefetch\.rsc|\.segments/.+\.segment\.rsc)?",
         Some "/new$rscsuff");
        ("^\/search(?:/)?(?<rscsuff>\.rsc|\.prefetch\.rsc|\.segments/.+\.segment\.rsc)?",
         Some "/find$rscsuff?q=1")].
Proof. split; reflexivity. Qed.

Lemma replace_trailing_suffix (repl stem : string) :
  replaceTrailingSlashSuffix repl (stem +:+ trailingSlashSuffix)
  = withoutEscapedSlash stem +:+ repl.
Proof.
  unfold replaceTrailingSlashSuffix, withoutEscapedSlash.
  rewrite !StrFacts.endsWith_app_app, StrFacts.endsWith_app, StrFacts.len_app.
  change (Js.len trailingSlashSuffix) with 8.
  destruct (Js.endsWith "\/?" stem) eqn:E1.
  - apply StrFacts.endsWith_spec in E1. destruct E1 as (s0 & ->).
    rewrite StrFacts.len_app. change (Js.len "\/?") with 3.
    replace (Js.len s0 + 3 + 8 - 11) with (Js.len s0) by lia.
    replace (Js.len s0 + 3 - 3) with (Js.len s0) by lia.
    rewrite StrFacts.app_assoc, !StrFacts.take_app_len. reflexivity.
  - destruct (Js.endsWith "\/" stem) eqn:E2.
    + apply StrFacts.endsWith_spec in E2. destruct E2 as (s0 & ->).
      rewrite StrFacts.len_app. change (Js.len "\/") with 2.
      replace (Js.len s0 + 2 + 8 - 10) with (Js.len s0) by lia.
      replace (Js.len s0 + 2 - 2) with (Js.len s0) by lia.
      rewrite StrFacts.app_assoc, !StrFacts.take_app_len. reflexivity.
    + replace (Js.len stem + 8 - 8) with (Js.len stem) by lia.
      rewrite StrFacts.take_app_len. reflexivity.
Qed.

Lemma addRscSuffix_no_query (d : string) :
  Js.indexOf "?" d = None -> addRscSuffixToDest d = d +:+ "$rscsuff".
Proof. unfold addRscSuffixToDest. now intros ->. Qed.

Lemma addRscSuffix_query (p q : string) :
  Js.indexOf "?" p = None ->
  addRscSuffixToDest (p +:+ "?" +:+ q) = p +:+ "$rscsuff" +:+ "?" +:+ q.
Proof.
  intros H. unfold addRscSuffixToDest.
  change ("?" +:+ q) with (String "?" q).
  rewrite (StrFacts.indexOf_app_first _ _ _ H).
  now rewrite StrFacts.take_app_len, StrFacts.drop_app_len.
Qed.

(** Source and destination after [modifyWithRewriteHeaders]. *)
Lemma modifyRewrite_src_dest (opts : RewriteHeaderOpts) (rw : RouteWithSrc)
      (d : string) :
  dest rw = Some d ->
  Js.truthy (src rw) = true ->
  Js.truthy d = true ->
  src (modifyRewrite opts rw)
  = (if isAfterFilesRewrite opts
     then replaceTrailingSlashSuffix
            ("(?:/)?(?<rscsuff>" +:+ rscSuffix opts +:+ ")?") (src rw)
     else src rw)
  /\ dest (modifyRewrite opts rw)
     = Some (if isAfterFilesRewrite opts then addRscSuffixToDest d else d).
Proof.
  intros Hd Hs Ht. unfold modifyRewrite. rewrite Hd, Hs, Ht. simpl.
  destruct (protocolOf d); [|destruct (splitDestination d) as [p q]];
    destruct (isAfterFilesRewrite opts);
    repeat match goal with
           | |- context [if ?b then _ else _] => destruct b
           end;
    simpl; rewrite ?Hd; split; reflexivity.
Qed.

Lemma modifyRewrite_not_after (opts : RewriteHeaderOpts) (rw : RouteWithSrc) :
  isAfterFilesRewrite opts = false ->
  src (modifyRewrite opts rw) = src rw /\ dest (modifyRewrite opts rw) = dest rw.
Proof.
  intros Ha. unfold modifyRewrite. rewrite Ha.
  destruct (dest rw) as [d|] eqn:Hd; [|now rewrite Hd].
  destruct (negb (Js.truthy (src rw)) || negb (Js.truthy d)); [now rewrite Hd|].
  destruct (protocolOf d); [|destruct (splitDestination d) as [p q]];
    repeat match goal with
           | |- context [if ?b then _ else _] => destruct b
           end;
    simpl; rewrite ?Hd; split; reflexivity.
Qed.

Lemma Forall2_map_same {A B} (P : A -> B -> Prop) (f : A -> B) (l : list A) :
  (forall x, P x (f x)) -> Forall2 P l (map f l).
Proof. intros H. induction l; simpl; constructor; auto. Qed.

Lemma flags_imply_segments (ctx : BuildContext) :
  flagPrefetchRsc ctx || flagSegmentPrefetches ctx = true ->
  flagSegmentPrefetches ctx = true.
Proof.
  unfold flagPrefetchRsc, flagSegmentPrefetches.
  destruct (cacheComponents (config ctx)), (clientSegmentCache (config ctx));
    simpl; congruence.
Qed.

(** C5, as the code has it: with a prefetch flag set, a rewrite behind the
    files with source and destination has the optional trailing slash at
    the end of its pattern (with the escaped slash in front of it, if any)
    replaced by the group that captures [.rsc], [.prefetch.rsc] when
    prefetch handling is on, and a segment suffix; its destination gets the
    placeholder at its end, or in front of the question mark when it has a
    query string. The rewrites in front of the files and the fallback
    rewrites keep pattern and destination. *)
Theorem rsc_suffix_on_rewrites (ctx : BuildContext) :
  flagPrefetchRsc ctx || flagSegmentPrefetches ctx = true ->
  rscSuffixGroup ctx
  = "(?:/)?(?<rscsuff>\.rsc"
      +:+ (if flagPrefetchRsc ctx then "|\.prefetch\.rsc" else "")
      +:+ "|\.segments/.+\.segment\.rsc)?"
  /\ Forall2
       (fun item r =>
          Js.truthy (rw_sourceRegex item) = true ->
          Js.truthy (rw_destination item) = true ->
          (forall stem,
              rw_sourceRegex item = stem +:+ trailingSlashSuffix ->
              src r = withoutEscapedSlash stem +:+ rscSuffixGroup ctx)
          /\ (Js.indexOf "?" (rw_destination item) = None ->
              dest r = Some (rw_destination item +:+ "$rscsuff"))
          /\ (forall p q,
                 rw_destination item = p +:+ "?" +:+ q ->
                 Js.indexOf "?" p = None ->
                 dest r = Some (p +:+ "$rscsuff" +:+ "?" +:+ q)))
       (afterFiles (rewrites (routes ctx)))
       (cAfterFiles (convertedRewrites ctx))
  /\ Forall2
       (fun item r => src r = rw_sourceRegex item
                      /\ dest r = Some (rw_destination item))
       (beforeFiles (rewrites (routes ctx)))
       (cBeforeFiles (convertedRewrites ctx))
  /\ Forall2
       (fun item r => src r = rw_sourceRegex item
                      /\ dest r = Some (rw_destination item))
       (fallback (rewrites (routes ctx)))
       (cFallback (convertedRewrites ctx)).
Proof.
  intros Hf. pose proof (flags_imply_segments ctx Hf) as Hseg.
  unfold convertedRewrites. rewrite Hf.
  unfold modifyWithRewriteHeaders, normalizeRewrites. simpl.
  rewrite !map_map.
  split; [|split; [|split]].
  - unfold rscSuffixGroup, rscSuffix. simpl. rewrite Hseg.
    destruct (flagPrefetchRsc ctx); reflexivity.
  - apply Forall2_map_same. intros item Hs Hd.
    destruct (modifyRewrite_src_dest (rewriteOpts ctx true) (normalizeItem item)
                (rw_destination item) eq_refl Hs Hd) as [Es Ed].
    fold (rewriteOpts ctx true). simpl in Es, Ed.
    rewrite Es, Ed. repeat split.
    + intros stem ->. apply replace_trailing_suffix.
    + intros Hq. now rewrite addRscSuffix_no_query.
    + intros p q -> Hq. now rewrite addRscSuffix_query.
  - apply Forall2_map_same. intros item.
    fold (rewriteOpts ctx false).
    destruct (modifyRewrite_not_after (rewriteOpts ctx false)
                (setOverride (Some true)
                   (setContinue (Some true) (setCheck None (normalizeItem item))))
                eq_refl) as [-> ->].
    split; reflexivity.
  - apply Forall2_map_same. intros item.
    fold (rewriteOpts ctx false).
    destruct (modifyRewrite_not_after (rewriteOpts ctx false)
                (normalizeItem item) eq_refl) as [-> ->].
    split; reflexivity.
Qed.

(** C5 as the specification words it fails with [cacheComponents]: a
    rewrite in front of the files keeps its pattern. *)
Lemma spec_rsc_suffix_all_groups_fails : ~ specRscSuffixAllGroups rewriteBuild.
Proof.
  intros H.
  specialize (H eq_refl sampleRewrite
                (setOverride (Some true)
                   (setContinue (Some true)
                      (setCheck None
                         (setHeaders (Some [("x-nextjs-rewritten-path", "/new")])
                            (normalizeItem sampleRewrite)))))).
  destruct H as [Hsrc _].
  - left. vm_compute. left. reflexivity.
  - reflexivity.
  - vm_compute in Hsrc. discriminate Hsrc.
Qed.

(** The theorem on the rewrites at the build with [cacheComponents]. *)
Lemma rsc_suffix_on_rewrites_witness :
  rscSuffixGroup rewriteBuild
  = "(?:/)?(?<rscsuff>\.rsc|\.prefetch\.rsc|\.segments/.+\.segment\.rsc)?"
  /\ Forall2
       (fun item r => src r = rw_sourceRegex item
                      /\ dest r = Some (rw_destination item))
       (beforeFiles (rewrites (routes rewriteBuild)))
       (cBeforeFiles (convertedRewrites rewriteBuild)).
Proof.
  destruct (rsc_suffix_on_rewrites rewriteBuild eq_refl) as (H1 & _ & H3 & _).
  split; [exact H1 | exact H3].
Defined.

(** ** The pattern escaper *)

(** The class of the inline escaper is the set of syntax characters; the
    class of [escapeStringRegexp] adds the hyphen. *)
Lemma inlineOperators_matchOperators (c : ascii) :
  inlineOperators c = true -> matchOperators c = true.
Proof.
  destruct c as [[] [] [] [] [] [] [] []]; vm_compute; congruence.
Qed.

Lemma matchOperators_hyphen (c : ascii) :
  matchOperators c = true -> inlineOperators c = false -> c = "-"%char.
Proof.
  destruct c as [[] [] [] [] [] [] [] []]; vm_compute; congruence.
Qed.

Lemma backslash_is_operator (c : ascii) :
  Ascii.eqb c "\" = true -> inlineOperators c = true.
Proof. intros H. apply Ascii.eqb_eq in H. now subst c. Qed.

(** A string escaped with a class between the two is a literal pattern
    for the string. *)
Lemma literalText_backslashEach (cls : ascii -> bool) (s : string) :
  (forall c, inlineOperators c = true -> cls c = true) ->
  (forall c, cls c = true -> matchOperators c = true) ->
  literalText (Js.backslashEach cls s) = Some s.
Proof.
  intros Hlow Hhigh. induction s as [|c s IH]; [reflexivity|].
  simpl. destruct (cls c) eqn:Ec.
  - simpl. rewrite (Hhigh c Ec), IH. reflexivity.
  - simpl. destruct (Ascii.eqb c "\") eqn:Eb.
    + apply backslash_is_operator, Hlow in Eb. congruence.
    + destruct (inlineOperators c) eqn:Ei.
      * apply Hlow in Ei. congruence.
      * rewrite IH. reflexivity.
Qed.

Lemma literalText_escapeStringRegexp (s : string) :
  literalText (escapeStringRegexp s) = Some s.
Proof.
  apply literalText_backslashEach; [apply inlineOperators_matchOperators | auto].
Qed.

Lemma literalText_inlineEscape (s : string) :
  literalText (inlineEscape s) = Some s.
Proof.
  apply literalText_backslashEach; [auto | apply inlineOperators_matchOperators].
Qed.

(** The two escapers differ on the hyphen only. *)
Lemma inlineEscape_without_hyphen (s : string) :
  Js.charIn "-" s = false -> inlineEscape s = escapeStringRegexp s.
Proof.
  unfold inlineEscape, escapeStringRegexp.
  induction s as [|c s IH]; [reflexivity|]. simpl. intros H.
  apply orb_false_iff in H. destruct H as [Hc Hs].
  rewrite (IH Hs).
  destruct (inlineOperators c) eqn:Ei.
  - now rewrite (inlineOperators_matchOperators c Ei).
  - destruct (matchOperators c) eqn:Em; [|reflexivity].
    rewrite (matchOperators_hyphen c Em Ei) in Hc. discriminate Hc.
Qed.

Example literalText_examples :
  literalText "en\.US" = Some "en.US"
  /\ literalText "en.US" = None
  /\ literalText "/a.b" = None
  /\ escapeStringRegexp "fr-CA" = "fr\-CA"
  /\ inlineEscape "fr-CA" = "fr-CA".
Proof. repeat split; reflexivity. Qed.

(** ** [path.posix.join] on a plain base path *)

Module PosixFacts.

Lemma splitAux_segment (cur : list ascii) (seg rest : string) :
  Js.charIn "/" seg = false ->
  Posix.splitAux cur (seg +:+ rest)
  = Posix.splitAux (rev (list_ascii_of_string seg) ++ cur) rest.
Proof.
  revert cur. induction seg as [|c seg IH]; intros cur H; [reflexivity|].
  simpl in H. apply orb_false_iff in H. destruct H as [Hc Hs].
  rewrite StrFacts.app_cons. simpl. rewrite Hc, (IH _ Hs).
  now rewrite <- app_assoc.
Qed.

Lemma splitAux_slash (cur : list ascii) (s : string) :
  Posix.splitAux cur (String "/" s)
  = string_of_list_ascii (rev cur) :: Posix.splitAux [] s.
Proof. reflexivity. Qed.

Lemma splitAux_absolutePath (cur : list ascii) (segs : list string) :
  Forall cleanSegment segs ->
  Posix.splitAux cur (absolutePath segs)
  = string_of_list_ascii (rev cur) :: segs.
Proof.
  intros H. revert cur. induction H as [|seg segs Hseg _ IH]; intros cur.
  - reflexivity.
  - simpl absolutePath. rewrite StrFacts.app_cons, StrFacts.app_nil_l. simpl.
    f_equal. destruct Hseg as (_ & _ & _ & Hslash).
    rewrite (splitAux_segment [] seg _ Hslash), IH, app_nil_r, rev_involutive.
    now rewrite string_of_list_ascii_of_string.
Qed.

Lemma normalizeSegments_clean (above : bool) (acc segs : list string) :
  Forall cleanSegment segs ->
  Posix.normalizeSegments above acc segs = rev acc ++ segs.
Proof.
  intros H. revert acc. induction H as [|seg segs Hseg _ IH]; intros acc; simpl.
  - now rewrite app_nil_r.
  - destruct Hseg as (H1 & H2 & H3 & _).
    apply String.eqb_neq in H1, H2, H3. rewrite H1, H2, H3. simpl.
    rewrite IH. simpl. now rewrite <- app_assoc.
Qed.

Lemma join_absolutePath (seg : string) (segs : list string) :
  "/" +:+ Js.join "/" (seg :: segs) = absolutePath (seg :: segs).
Proof.
  revert seg. induction segs as [|s segs IH]; intros seg.
  - simpl. now rewrite StrFacts.app_nil_r.
  - change (Js.join "/" (seg :: s :: segs))
      with (seg +:+ "/" +:+ Js.join "/" (s :: segs)).
    rewrite IH. reflexivity.
Qed.

Lemma absolutePath_app (l1 l2 : list string) :
  absolutePath (l1 ++ l2) = absolutePath l1 +:+ absolutePath l2.
Proof.
  induction l1 as [|s l1 IH]; [reflexivity|].
  simpl. rewrite IH. now rewrite !StrFacts.app_assoc.
Qed.

(** A string that ends in a segment does not end in a slash. *)
Lemma not_endsWith_slash (x seg : string) :
  seg <> "" -> Js.charIn "/" seg = false -> Js.endsWith "/" (x +:+ seg) = false.
Proof.
  intros Hne Hs. destruct (Js.endsWith "/" (x +:+ seg)) eqn:E; [|reflexivity].
  exfalso. apply StrFacts.endsWith_spec in E. destruct E as (stem & E).
  apply (f_equal list_ascii_of_string) in E.
  rewrite !StrFacts.to_list_app in E. simpl in E.
  assert (Hl : list_ascii_of_string seg <> []).
  { destruct seg; [congruence | discriminate]. }
  destruct (exists_last Hl) as (init & c & Ec). rewrite Ec in E.
  rewrite app_assoc in E. apply app_inj_tail in E. destruct E as [_ ->].
  assert (Hin : Js.charIn "/" seg = true).
  { clear - Ec. revert init Ec. induction seg as [|a seg IH]; intros init Ec.
    - destruct init; discriminate Ec.
    - simpl in Ec. destruct init as [|b init]; simpl in Ec.
      + injection Ec as -> _. reflexivity.
      + injection Ec as _ Ec. simpl. rewrite (IH _ Ec). apply orb_true_r. }
  congruence.
Qed.

(** The join of the root, a plain base path and one more segment is the
    base path as it is, a slash and the segment. *)
Lemma join_clean_base (segs : list string) (tail : string) :
  segs <> [] ->
  Forall cleanSegment segs ->
  cleanSegment tail ->
  Posix.join ["/"; absolutePath segs; tail] = absolutePath segs +:+ "/" +:+ tail.
Proof.
  intros Hne Hsegs Htail.
  destruct segs as [|seg segs]; [congruence|].
  assert (Hall : Forall cleanSegment ((seg :: segs) ++ [tail])).
  { apply Forall_app. split; [assumption | constructor; [assumption|constructor]]. }
  assert (Etail : absolutePath [tail] = "/" +:+ tail).
  { simpl. now rewrite StrFacts.app_nil_r. }
  unfold Posix.join.
  assert (Ht : Js.truthy tail = true).
  { destruct Htail as (H & _). unfold Js.truthy.
    apply String.eqb_neq in H. now rewrite H. }
  simpl List.filter. rewrite Ht.
  change (Js.join "/" ["/"; "/" +:+ seg +:+ absolutePath segs; tail])
    with ("/" +:+ "/" +:+ (absolutePath (seg :: segs) +:+ "/" +:+ tail)).
  rewrite <- Etail, <- absolutePath_app.
  unfold Posix.normalize.
  change (String.eqb ("/" +:+ "/" +:+ absolutePath ((seg :: segs) ++ [tail])) "")
    with false.
  change (Js.startsWith "/" ("/" +:+ "/" +:+ absolutePath ((seg :: segs) ++ [tail])))
    with true.
  cbv zeta. simpl negb.
  assert (Etr : Js.endsWith "/" ("/" +:+ "/" +:+ absolutePath ((seg :: segs) ++ [tail]))
                = false).
  { rewrite absolutePath_app, Etail, <- !StrFacts.app_assoc.
    destruct Htail as (H & _ & _ & Hs). now apply not_endsWith_slash. }
  rewrite Etr.
  unfold Posix.split.
  change ("/" +:+ "/" +:+ absolutePath ((seg :: segs) ++ [tail]))
    with (String "/" (String "/" (absolutePath ((seg :: segs) ++ [tail])))).
  rewrite !splitAux_slash, (splitAux_absolutePath [] _ Hall).
  simpl rev. simpl string_of_list_ascii.
  change (Posix.normalizeSegments false []
            ("" :: "" :: "" :: (seg :: segs) ++ [tail]))
    with (Posix.normalizeSegments false [] ((seg :: segs) ++ [tail])).
  rewrite (normalizeSegments_clean false [] _ Hall). simpl rev. simpl app.
  assert (Enb : String.eqb (Js.join "/" (seg :: segs ++ [tail])) "" = false).
  { apply String.eqb_neq.
    inversion Hsegs as [|? ? (Hs & _) _]; subst.
    destruct seg as [|a seg']; [congruence|].
    destruct (segs ++ [tail]) as [|r rs]; [discriminate|].
    change (Js.join "/" (String a seg' :: r :: rs))
      with (String a seg' +:+ "/" +:+ Js.join "/" (r :: rs)).
    rewrite StrFacts.app_cons. discriminate. }
  rewrite Enb, join_absolutePath.
  change (seg :: segs ++ [tail]) with ((seg :: segs) ++ [tail]).
  now rewrite absolutePath_app, Etail.
Qed.

End PosixFacts.

(** ** Locales and base path in the patterns *)

Lemma holds_here (piece post : string) : holds piece (piece +:+ post).
Proof. exists "", post. reflexivity. Qed.

Lemma holds_app_r (piece s t : string) : holds piece t -> holds piece (s +:+ t).
Proof.
  intros (pre & post & ->). exists (s +:+ pre), post.
  now rewrite StrFacts.app_assoc.
Qed.

Lemma holds_refl (piece : string) : holds piece piece.
Proof. exists "", "". now rewrite StrFacts.app_nil_r. Qed.

(** A member of a list is a piece of the members joined. *)
Lemma holds_join (sep x : string) (xs : list string) :
  In x xs -> holds x (Js.join sep xs).
Proof.
  induction xs as [|y xs IH]; intros H; [destruct H|].
  destruct xs as [|z xs].
  - destruct H as [->|[]]. apply holds_refl.
  - change (Js.join sep (y :: z :: xs)) with (y +:+ sep +:+ Js.join sep (z :: xs)).
    destruct H as [->|H].
    + apply holds_here.
    + do 2 apply holds_app_r. apply IH, H.
Qed.

Ltac holds_piece :=
  repeat first [ apply holds_here | apply holds_app_r ].

(** The pattern of a locale rule holds the locales joined, each escaped
    with [escapeStringRegexp] or, in the rules for a literal /404 or /500,
    with the inline escaper; or it is one of four patterns without the list
    of locales. *)
Lemma locale_rule_patterns (ctx : BuildContext) (i : I18NConfig)
      (o : Origin) (r : RouteWithSrc) :
  i18n (config ctx) = Some i ->
  In (o, Rule r) (taggedRoutes ctx) ->
  localeGroupOf o <> None ->
  holds (localeAlternation i) (src r)
  \/ ((o = FromLiteral404Locale \/ o = FromLiteral500Locale)
      /\ holds (localeAlternationInline i) (src r))
  \/ src r = "/"
  \/ src r = "^" +:+ Posix.join ["/"; basePath (config ctx)] +:+ "$"
  \/ src r = Posix.join ["/"; basePath (config ctx);
                         escapeStringRegexp (defaultLocale i)]
  \/ src r = Posix.join ["/"; basePath (config ctx); ".*"].
Proof.
  intros Hi H Hg.
  table_cases H; try congruence; try (exfalso; apply Hg; reflexivity).
  all: injection Hi as ->.
  all: try (injection H as <-).
  all: try group_members H.
  all: unfold nonLocalePattern, nextLocalePattern, literalStatusLocaleRoute;
    simpl src.
  all: first [ left; solve [holds_piece]
             | right; left; split; [tauto | solve [holds_piece]]
             | right; right; left; reflexivity
             | right; right; right; left; reflexivity
             | right; right; right; right; left; reflexivity
             | right; right; right; right; right; reflexivity ].
Qed.

Lemma group_directory404 (ctx : BuildContext) :
  rulesFrom FromDirectory404 (taggedRoutes ctx)
  = map Rule (directory404Routes ctx).
Proof. select_group; reflexivity. Qed.

Lemma cleanSegment_any : cleanSegment ".*".
Proof. repeat split; discriminate. Qed.

(** The first template of the list [l] that gives the pattern of the
    goal. *)
Ltac try_templates l :=
  lazymatch l with
  | ?t :: ?rest =>
      first [ exists t; split; [ | reflexivity ];
              unfold patternTemplates;
              repeat first [ left; reflexivity | right ]
            | try_templates rest ]
  end.

Ltac find_template :=
  let l := eval unfold patternTemplates in patternTemplates in
  try_templates l.

(** Every pattern the adapter writes is one of the templates, with the
    values of the build filled in. *)
Lemma generated_patterns (ctx : BuildContext) (o : Origin) (r : RouteWithSrc) :
  In (o, Rule r) (taggedRoutes ctx) ->
  generatedOrigin o = true \/ r = nextData404Route ctx ->
  exists t, In t patternTemplates /\ src r = render ctx t.
Proof.
  intros H [Hg| ->].
  2:{ exists [ underBase [[AText "_next/data/(.*)"]] ].
      split; [ | reflexivity ].
      unfold patternTemplates; repeat first [ left; reflexivity | right ]. }
  table_cases H; try discriminate Hg.
  all: try (injection H as <-).
  all: try group_members H.
  all: unfold render, renderPart, renderAtom;
    repeat match goal with
           | E : i18n _ = _ |- _ => rewrite E
           end;
    unfold nonLocalePattern, nextLocalePattern, literalStatusLocaleRoute,
      literalStatusRoute, localeAlternation, localeAlternationInline,
      escapedBuildId, basePathSet;
    simpl src;
    repeat match goal with
           | |- context [if ?b then _ else _] => destruct b
           end.
  all: find_template.
Qed.

(** C3, as the code has it: every pattern the adapter writes is a template
    filled in, and a template takes a locale only escaped: the locales
    joined, each escaped with [escapeStringRegexp] or, in the rules for a
    literal /404 or /500, with the escaper written inline, which leaves
    the hyphen alone, or the default locale escaped with
    [escapeStringRegexp]; either way the escaped locale is a literal
    pattern for the locale. A template takes the base path only as an
    argument of [path.posix.join], as the configuration gives it and never
    escaped: for a base path of plain segments, the pattern of the rule
    for a directory without index is the base path followed by a slash and
    [.*]. *)
Theorem locales_escaped_base_path_verbatim (ctx : BuildContext) :
  (forall i,
      i18n (config ctx) = Some i ->
      (forall l,
          In l (locales i) ->
          holds (escapeStringRegexp l) (localeAlternation i)
          /\ holds (inlineEscape l) (localeAlternationInline i)
          /\ literalText (escapeStringRegexp l) = Some l
          /\ literalText (inlineEscape l) = Some l
          /\ (Js.charIn "-" l = false -> inlineEscape l = escapeStringRegexp l))
      /\ (forall o r,
             In (o, Rule r) (taggedRoutes ctx) ->
             localeGroupOf o <> None ->
             holds (localeAlternation i) (src r)
             \/ ((o = FromLiteral404Locale \/ o = FromLiteral500Locale)
                 /\ holds (localeAlternationInline i) (src r))
             \/ src r = "/"
             \/ src r = "^" +:+ Posix.join ["/"; basePath (config ctx)] +:+ "$"
             \/ src r = Posix.join ["/"; basePath (config ctx);
                                    escapeStringRegexp (defaultLocale i)]
             \/ src r = Posix.join ["/"; basePath (config ctx); ".*"]))
  /\ (forall o r,
         In (o, Rule r) (taggedRoutes ctx) ->
         generatedOrigin o = true \/ r = nextData404Route ctx ->
         exists t, In t patternTemplates /\ src r = render ctx t)
  /\ (forall segs r,
         segs <> [] ->
         Forall cleanSegment segs ->
         basePath (config ctx) = absolutePath segs ->
         In (FromDirectory404, Rule r) (taggedRoutes ctx) ->
         src r = basePath (config ctx) +:+ "/.*").
Proof.
  split; [|split].
  - intros i Hi. split.
    + intros l Hl. repeat split.
      * apply holds_join, in_map, Hl.
      * apply holds_join, in_map, Hl.
      * apply literalText_escapeStringRegexp.
      * apply literalText_inlineEscape.
      * apply inlineEscape_without_hyphen.
    + intros o r. apply locale_rule_patterns, Hi.
  - intros o r. apply generated_patterns.
  - intros segs r Hne Hclean Hbp H.
    apply in_rulesFrom in H. rewrite group_directory404 in H.
    destruct H as [E|[]]. injection E as <-.
    simpl src. rewrite Hbp.
    apply PosixFacts.join_clean_base; [assumption | assumption |].
    apply cleanSegment_any.
Qed.

(** C3 as the specification words it fails on a build with a hyphen in a
    locale and a dot in the base path: the pattern for a literal /404 holds
    both as they are, not as [escapeStringRegexp] gives them, and the dot
    of the base path is a wildcard of the pattern. *)
Lemma spec_escaped_everywhere_fails :
  ~ specEscapedEverywhere metaBuild.
Proof.
  intros H.
  pose (r := route "/a.b/(?:en-US|de)?[/]?404/?"
               [ setStatus (Some 404); setContinue (Some true);
                 missingRevalidate ]).
  destruct (H FromLiteral404Locale r) as [Hl Hb].
  - apply in_rulesFrom. vm_compute. left. reflexivity.
  - reflexivity.
  - specialize (Hb eq_refl). vm_compute in Hb. discriminate Hb.
Qed.

(** The theorem on escaping at the build with a hyphen in a locale and a
    dot in the base path. *)
Lemma locales_escaped_base_path_verbatim_witness :
  literalText (escapeStringRegexp "en-US") = Some "en-US"
  /\ literalText (inlineEscape "en-US") = Some "en-US"
  /\ (exists t, In t patternTemplates
                /\ "/a.b/(?:en-US|de)?[/]?404/?" = render metaBuild t)
  /\ (forall r, In (FromDirectory404, Rule r) (taggedRoutes metaBuild) ->
                src r = "/a.b/.*").
Proof.
  destruct (locales_escaped_base_path_verbatim metaBuild) as (Hi & Ht & Hb).
  destruct (Hi {| defaultLocale := "en-US"; locales := ["en-US"; "de"];
                  domains := None; localeDetection := None |} eq_refl)
    as (Hl & _).
  destruct (Hl "en-US" (or_introl eq_refl)) as (_ & _ & H1 & H2 & _).
  split; [exact H1|]. split; [exact H2|]. split.
  - apply (Ht FromLiteral404Locale
              (route "/a.b/(?:en-US|de)?[/]?404/?"
                 [ setStatus (Some 404); setContinue (Some true);
                   missingRevalidate ])).
    + apply in_rulesFrom. vm_compute. left. reflexivity.
    + left. reflexivity.
  - intros r Hr.
    apply (Hb ["a.b"] r); [discriminate | | reflexivity | exact Hr].
    constructor; [|constructor].
    repeat split; discriminate.
Defined.

(** ** Locale rules, group by group *)

Lemma emits_group (ctx : BuildContext) (o : Origin) (rs : list RouteWithSrc)
      (n : nat) (P : RouteWithSrc -> Prop) :
  rulesFrom o (taggedRoutes ctx) = map Rule rs ->
  length rs = n -> Forall P rs -> emits ctx o n P.
Proof. intros E L F. exists rs. auto. Qed.

Lemma when_rules (c : bool) (rs : list RouteWithSrc) :
  when c (map Rule rs) = map Rule (when c rs).
Proof. now destruct c. Qed.

Section LocaleRuleCounts.

Variable ctx : BuildContext.
Variable i : I18NConfig.
Hypothesis Hi : i18n (config ctx) = Some i.

Lemma emits_localeWildcard :
  emits ctx FromLocaleWildcard 2
        (fun r => continue r = Some true
                  /\ holds (localeAlternation i) (src r)
                  /\ exists d, dest r = Some d /\ holds "$wildcard" d).
Proof.
  eapply emits_group; [apply (group_localeWildcard ctx i Hi) | reflexivity |].
  unfold localeWildcardRoutes, nonLocalePattern.
  constructor; [|constructor; [|constructor]];
    (split; [reflexivity|]); (split; [simpl src; holds_piece|]);
    eexists; (split; [reflexivity|]); holds_piece;
    exists ""; eexists; reflexivity.
Qed.

Lemma emits_localeDomainRedirect :
  emits ctx FromLocaleDomainRedirect
        (if detectionOn i && hasDomains i then 1 else 0)
        (redirectsBy (domainRedirectMap (default [] (domains i)))).
Proof.
  eapply emits_group; [apply (group_localeDomainRedirect ctx i Hi) | |];
    unfold localeDomainRedirectRoutes, detectionOn, hasDomains;
    destruct (domains i) as [[|d ds]|];
    destruct (bool_decide (localeDetection i = Some false));
    try reflexivity; try constructor; try constructor; reflexivity.
Qed.

Lemma emits_localeRedirect :
  emits ctx FromLocaleRedirect (if detectionOn i then 1 else 0)
        (fun r => src r = "/" /\ redirectsBy (localeRedirectMap i) r).
Proof.
  eapply emits_group; [apply (group_localeRedirect ctx i Hi) | |];
    unfold localeRedirectRoutes, detectionOn;
    destruct (bool_decide (localeDetection i = Some false));
    try reflexivity; constructor; try constructor; split; reflexivity.
Qed.

Lemma emits_defaultLocaleRewrite :
  emits ctx FromDefaultLocaleRewrite 2
        (fun r => continue r = Some true /\ check r = None
                  /\ toDefaultLocale ctx i r).
Proof.
  eapply emits_group; [apply (group_defaultLocaleRewrite ctx i Hi) | reflexivity |].
  constructor; [|constructor; [|constructor]];
    (split; [reflexivity|]); (split; [reflexivity|]);
    [left | right]; reflexivity.
Qed.

Lemma emits_defaultLocaleRewriteMiss :
  emits ctx FromDefaultLocaleRewriteMiss (if detectionOn i then 0 else 2)
        (fun r => check r = Some true /\ continue r = None
                  /\ toDefaultLocale ctx i r).
Proof.
  eapply emits_group;
    [rewrite (group_defaultLocaleRewriteMiss ctx i Hi); apply when_rules | |];
    unfold detectionOn;
    destruct (bool_decide (localeDetection i = Some false));
    try reflexivity; [|constructor].
  constructor; [|constructor; [|constructor]];
    (split; [reflexivity|]); (split; [reflexivity|]);
    [left | right]; reflexivity.
Qed.

Lemma emits_literal404Locale :
  emits ctx FromLiteral404Locale 1
        (fun r => status r = Some 404
                  /\ holds (localeAlternationInline i) (src r)).
Proof.
  eapply emits_group with (rs := [_]);
    [apply (group_literal404Locale ctx i Hi) | reflexivity |].
  constructor; [|constructor]. split; [reflexivity|].
  unfold literalStatusLocaleRoute. simpl src. holds_piece.
Qed.

Lemma emits_literal500Locale :
  emits ctx FromLiteral500Locale 1
        (fun r => status r = Some 500
                  /\ holds (localeAlternationInline i) (src r)).
Proof.
  eapply emits_group with (rs := [_]);
    [apply (group_literal500Locale ctx i Hi) | reflexivity |].
  constructor; [|constructor]. split; [reflexivity|].
  unfold literalStatusLocaleRoute. simpl src. holds_piece.
Qed.

Lemma emits_localeStrip :
  emits ctx FromLocaleStrip 2
        (fun r => check r = Some true
                  /\ (src r = Posix.join ["/"; basePath (config ctx);
                                          escapeStringRegexp (defaultLocale i)]
                      \/ holds (localeAlternation i) (src r))).
Proof.
  eapply emits_group; [apply (group_localeStrip ctx i Hi) | reflexivity |].
  constructor; [|constructor; [|constructor]];
    (split; [reflexivity|]); [left; reflexivity | right; simpl src; holds_piece].
Qed.

Lemma emits_notFoundLocale :
  emits ctx FromNotFoundLocale 2
        (fun r => status r = Some 404 /\ dest r <> None).
Proof.
  eapply emits_group; [apply (group_notFoundLocale ctx i Hi) | reflexivity |].
  constructor; [|constructor; [|constructor]]; split;
    first [reflexivity | discriminate].
Qed.

Lemma emits_serverErrorLocale :
  emits ctx FromServerErrorLocale (if has500Output ctx then 2 else 0)
        (fun r => status r = Some 500 /\ dest r <> None).
Proof.
  eapply emits_group;
    [rewrite (group_serverErrorLocale ctx i Hi); apply when_rules | |];
    destruct (has500Output ctx); try reflexivity; [|constructor].
  constructor; [|constructor; [|constructor]]; split;
    first [reflexivity | discriminate].
Qed.

End LocaleRuleCounts.

(** C2, as the code has it: without [i18n] no locale rule is in the table
    and no rule has a [locale] property. With [i18n] the table always holds
    the two [$wildcard] rules, the two rewrites to the default locale
    that carry [continue], the locale variant of the literal /404 rule
    and that of the literal /500 rule, the two rules that strip the locale
    prefix and the two rules of the locale variant of the 404 fallback; it
    holds the redirect to a locale path exactly when locale detection is
    not switched off, the redirect to a locale domain exactly when,
    besides, [domains] is a list that is not empty, the two rewrites to
    the default locale that carry [check] exactly when locale detection
    is switched off, and the two rules of the locale variant of the 500
    fallback exactly when a /500 output exists. *)
Theorem locale_rules_by_configuration (ctx : BuildContext) :
  (i18n (config ctx) = None ->
   (forall g, ~ emitted g ctx)
   /\ (forall o, localeGroupOf o <> None -> rulesFrom o (taggedRoutes ctx) = [])
   /\ (forall x, In x (vercelRoutes ctx) -> noLocaleField x))
  /\ (forall i, i18n (config ctx) = Some i ->
      (emitted WildcardPrefix ctx
       /\ emitted DefaultLocaleRewrites ctx
       /\ emitted LocaleLiteralStatus ctx
       /\ emitted LocalePrefixStripping ctx
       /\ emitted LocaleNotFound ctx
       /\ (emitted LocaleRedirects ctx <-> localeDetection i <> Some false)
       /\ (emitted LocaleServerError ctx <-> has500Output ctx = true))
      /\ emits ctx FromLocaleWildcard 2
            (fun r => continue r = Some true
                      /\ holds (localeAlternation i) (src r)
                      /\ exists d, dest r = Some d /\ holds "$wildcard" d)
      /\ emits ctx FromLocaleDomainRedirect
            (if detectionOn i && hasDomains i then 1 else 0)
            (redirectsBy (domainRedirectMap (default [] (domains i))))
      /\ emits ctx FromLocaleRedirect (if detectionOn i then 1 else 0)
            (fun r => src r = "/" /\ redirectsBy (localeRedirectMap i) r)
      /\ emits ctx FromDefaultLocaleRewrite 2
            (fun r => continue r = Some true /\ check r = None
                      /\ toDefaultLocale ctx i r)
      /\ emits ctx FromDefaultLocaleRewriteMiss (if detectionOn i then 0 else 2)
            (fun r => check r = Some true /\ continue r = None
                      /\ toDefaultLocale ctx i r)
      /\ emits ctx FromLiteral404Locale 1
            (fun r => status r = Some 404
                      /\ holds (localeAlternationInline i) (src r))
      /\ emits ctx FromLiteral500Locale 1
            (fun r => status r = Some 500
                      /\ holds (localeAlternationInline i) (src r))
      /\ emits ctx FromLocaleStrip 2
            (fun r => check r = Some true
                      /\ (src r = Posix.join ["/"; basePath (config ctx);
                                              escapeStringRegexp (defaultLocale i)]
                          \/ holds (localeAlternation i) (src r)))
      /\ emits ctx FromNotFoundLocale 2
            (fun r => status r = Some 404 /\ dest r <> None)
      /\ emits ctx FromServerErrorLocale (if has500Output ctx then 2 else 0)
            (fun r => status r = Some 500 /\ dest r <> None)).
Proof.
  split.
  - intros Hi. split; [|split].
    + intros g (o & r & H & Hg).
      rewrite (no_i18n_no_locale_group ctx o _ Hi H) in Hg. discriminate.
    + intros o Ho.
      destruct (rulesFrom o (taggedRoutes ctx)) as [|x l] eqn:E; [reflexivity|].
      exfalso. apply Ho. apply (no_i18n_no_locale_group ctx o x Hi).
      apply in_rulesFrom. rewrite E. now left.
    + apply no_i18n_no_locale_field, Hi.
  - intros i Hi. split.
    + destruct (emitted_always ctx i Hi) as (H1 & H2 & H3 & H4 & H5).
      repeat split; try assumption;
        try apply (emitted_redirects ctx i Hi);
        try apply (emitted_serverError ctx i Hi).
    + split; [apply (emits_localeWildcard ctx i Hi)|].
      split; [apply (emits_localeDomainRedirect ctx i Hi)|].
      split; [apply (emits_localeRedirect ctx i Hi)|].
      split; [apply (emits_defaultLocaleRewrite ctx i Hi)|].
      split; [apply (emits_defaultLocaleRewriteMiss ctx i Hi)|].
      split; [apply (emits_literal404Locale ctx i Hi)|].
      split; [apply (emits_literal500Locale ctx i Hi)|].
      split; [apply (emits_localeStrip ctx i Hi)|].
      split; [apply (emits_notFoundLocale ctx i Hi)|].
      apply (emits_serverErrorLocale ctx i Hi).
Qed.

(** The theorem on the locale rules at a build without [i18n], at one with
    two locales and a domain for each, and at the same with locale
    detection switched off. *)
Lemma locale_rules_by_configuration_witness :
  (forall g, ~ emitted g emptyBuild)
  /\ emitted WildcardPrefix (localeBuild None)
  /\ emitted LocaleRedirects (localeBuild None)
  /\ emits (localeBuild None) FromLocaleDomainRedirect 1
        (redirectsBy [("fr-CA", "https://example.fr/");
                      ("en", "http://example.com/")])
  /\ emits (localeBuild (Some false)) FromLocaleDomainRedirect 0
        (redirectsBy [("fr-CA", "https://example.fr/");
                      ("en", "http://example.com/")])
  /\ emits (localeBuild (Some false)) FromDefaultLocaleRewriteMiss 2
        (fun r => check r = Some true /\ continue r = None
                  /\ toDefaultLocale (localeBuild (Some false))
                                      (sampleI18n (Some false)) r).
Proof.
  pose proof (proj2 (locale_rules_by_configuration (localeBuild None))
                (sampleI18n None) eq_refl) as [Hp Hn].
  pose proof (proj2 (locale_rules_by_configuration (localeBuild (Some false)))
                (sampleI18n (Some false)) eq_refl) as [_ Hf].
  split; [exact (proj1 (proj1 (locale_rules_by_configuration emptyBuild) eq_refl))|].
  split; [exact (proj1 Hp)|].
  split; [apply Hp; discriminate|].
  split; [exact (proj1 (proj2 Hn))|].
  split; [exact (proj1 (proj2 Hf))|].
  exact (proj1 (proj2 (proj2 (proj2 (proj2 Hf))))).
Defined.

(** ** Sample evaluations *)

Example join_base_and_slash : Posix.join ["/"; "/docs"; "/"] = "/docs/".
Proof. reflexivity. Qed.

Example join_skips_empty : Posix.join ["/"; ""; "_next/data/(.*)"] = "/_next/data/(.*)".
Proof. reflexivity. Qed.

Example join_root : Posix.join ["/"; ""; "/"] = "/".
Proof. reflexivity. Qed.

Example join_anchor : Posix.join ["^/"; "/docs"; "/index(?:/)?"] = "^/docs/index(?:/)?".
Proof. reflexivity. Qed.

Example join_dots : Posix.join ["/"; "/a/../b"; "./c/"] = "/b/c/".
Proof. reflexivity. Qed.

Example escape_hyphen : escapeStringRegexp "en.US-x" = "en\.US\-x".
Proof. reflexivity. Qed.

Example inline_escape_hyphen : inlineEscape "en.US-x" = "en\.US-x".
Proof. reflexivity. Qed.

(** The pattern for a literal /404 of the build with a hyphen in a locale
    and a dot in the base path. *)
Example literal404_of_metaBuild :
  rulesFrom FromLiteral404Locale (taggedRoutes metaBuild)
  = [Rule (route "/a.b/(?:en-US|de)?[/]?404/?"
             [ setStatus (Some 404); setContinue (Some true);
               missingRevalidate ])]
  /\ Js.includes "en-US" "/a.b/(?:en-US|de)?[/]?404/?" = true
  /\ Js.includes (escapeStringRegexp "en-US") "/a.b/(?:en-US|de)?[/]?404/?" = false
  /\ Js.includes (escapeStringRegexp "/a.b") "/a.b/(?:en-US|de)?[/]?404/?" = false.
Proof. repeat split; reflexivity. Qed.

(** The table of the empty build. *)
Example routes_of_emptyBuild :
  map (fun x => match x with
                | Handle h => inl h
                | Rule r => inr (src r, dest r, status r)
                end)
      (vercelRoutes emptyBuild)
  = [ inr ("/404/?", None, Some 404);
      inr ("/500/?", None, Some 500);
      inl filesystem;
      inr ("/_next/data/(.*)", Some "/_next/data/$1", None);
      inl resource;
      inr ("/.*", None, Some 404);
      inl miss;
      inr ("/_next/static/.+", Some "/_next/static/not-found.txt", Some 404);
      inl rewrite;
      inl hit;
      inr ("/_next/static/(?:[^/]+/pages|pages|chunks|runtime|css|image|media|abc123)/.+",
           None, None);
      inr ("/(?:index)?(?:/)?$", None, None);
      inr ("/((?!index$).*?)(?:/)?$", None, None);
      inl error;
      inr ("/.*", Some "/_error", Some 404);
      inr ("/.*", Some "/_error", Some 500) ].
Proof. reflexivity. Qed.

(** * Properties of the helpers *)

(** ** The pattern escaper: what it keeps and what it adds *)

Lemma backslashEach_length (cls : ascii -> bool) (s : string) :
  Js.len (Js.backslashEach cls s)
  = Js.len s + length (List.filter cls (list_ascii_of_string s)).
Proof.
  unfold Js.len. induction s as [|c s IH]; simpl; [reflexivity|].
  destruct (cls c); simpl; rewrite IH; lia.
Qed.

Lemma backslashEach_plain (cls : ascii -> bool) (s : string) :
  List.filter cls (list_ascii_of_string s) = [] -> Js.backslashEach cls s = s.
Proof.
  induction s as [|c s IH]; simpl; [reflexivity|].
  destruct (cls c); [discriminate|]. intros H. now rewrite IH.
Qed.

(** X1: the escaper of [utils.ts] loses nothing: the escaped text is a
    literal pattern for the string it was made from, and two different
    strings never have the same escaped text. *)
Theorem escapeStringRegexp_injective (s t : string) :
  literalText (escapeStringRegexp s) = Some s
  /\ (s <> t -> escapeStringRegexp s <> escapeStringRegexp t).
Proof.
  split; [apply literalText_escapeStringRegexp|].
  intros Hne E. apply Hne.
  assert (H : literalText (escapeStringRegexp s) = literalText (escapeStringRegexp t))
    by now rewrite E.
  rewrite !literalText_escapeStringRegexp in H. now injection H.
Qed.

(** The theorem on the escaper at a locale with a dot and one with a
    hyphen in the same place. *)
Lemma escapeStringRegexp_injective_witness :
  literalText (escapeStringRegexp "en.US") = Some "en.US"
  /\ escapeStringRegexp "en.US" <> escapeStringRegexp "en-US".
Proof.
  split.
  - exact (proj1 (escapeStringRegexp_injective "en.US" "en-US")).
  - apply (proj2 (escapeStringRegexp_injective "en.US" "en-US")). discriminate.
Defined.

(** X2: the escaped text is longer than the string by one backslash for
    each operator character, so the escaper returns its argument unchanged
    exactly when the argument holds no operator character. *)
Theorem escapeStringRegexp_length (s : string) :
  Js.len (escapeStringRegexp s) = Js.len s + operatorCount s
  /\ (escapeStringRegexp s = s <-> operatorCount s = 0).
Proof.
  assert (L : Js.len (escapeStringRegexp s) = Js.len s + operatorCount s)
    by apply backslashEach_length.
  split; [exact L|]. split.
  - intros E. rewrite E in L. lia.
  - intros H. apply backslashEach_plain.
    unfold operatorCount in H.
    destruct (List.filter matchOperators (list_ascii_of_string s));
      [reflexivity | discriminate].
Qed.

(** The theorem on the length at a build id without operator characters. *)
Lemma escapeStringRegexp_length_witness :
  escapeStringRegexp "abc123" = "abc123"
  /\ Js.len (escapeStringRegexp "a.b-c") = 7.
Proof.
  split.
  - apply (proj2 (escapeStringRegexp_length "abc123")). reflexivity.
  - exact (proj1 (escapeStringRegexp_length "a.b-c")).
Defined.

(** ** Objects used as dictionaries *)

Lemma objHas_false (k : string) (obj : list (string * string)) :
  objHas k obj = false <-> ~ In k (map fst obj).
Proof.
  unfold objHas. induction obj as [|[k0 v0] obj IH]; simpl; [tauto|].
  destruct (String.eqb k0 k) eqn:E; simpl.
  - apply String.eqb_eq in E. split; [discriminate | tauto].
  - apply String.eqb_neq in E. rewrite IH. tauto.
Qed.

Lemma objGet_None (k : string) (obj : list (string * string)) :
  objGet k obj = None <-> ~ In k (map fst obj).
Proof.
  induction obj as [|[k0 v0] obj IH]; simpl; [tauto|].
  destruct (String.eqb k0 k) eqn:E.
  - apply String.eqb_eq in E. split; [discriminate | tauto].
  - apply String.eqb_neq in E. rewrite IH. tauto.
Qed.

Lemma objGet_objUpdate (k k' v : string) (obj : list (string * string)) :
  objGet k (objUpdate k' v obj)
  = if String.eqb k' k then option_map (fun _ => v) (objGet k obj)
    else objGet k obj.
Proof.
  induction obj as [|[k0 v0] obj IH]; simpl.
  - now destruct (String.eqb k' k).
  - destruct (String.eqb k0 k') eqn:E0; simpl.
    + apply String.eqb_eq in E0. subst k0.
      destruct (String.eqb k' k); reflexivity.
    + destruct (String.eqb k0 k) eqn:E1; [|exact IH].
      apply String.eqb_eq in E1. subst k0.
      apply String.eqb_neq in E0.
      destruct (String.eqb k' k) eqn:E2; [|reflexivity].
      apply String.eqb_eq in E2. congruence.
Qed.

Lemma objGet_objInsert (k k' v : string) (obj : list (string * string)) :
  objGet k' obj = None ->
  objGet k (objInsert k' v obj)
  = if String.eqb k' k then Some v else objGet k obj.
Proof.
  induction obj as [|[k0 v0] obj IH]; simpl; intros Hn.
  - reflexivity.
  - destruct (String.eqb k0 k') eqn:E0; [discriminate|].
    destruct (keyBefore k' k0); simpl.
    + destruct (String.eqb k' k); reflexivity.
    + rewrite (IH Hn).
      destruct (String.eqb k0 k) eqn:E1; [|reflexivity].
      apply String.eqb_eq in E1. subst k0.
      destruct (String.eqb k' k) eqn:E2; [|reflexivity].
      apply String.eqb_eq in E2. subst k'. rewrite String.eqb_refl in E0.
      discriminate.
Qed.

Lemma objGet_objSet (k k' v : string) (obj : list (string * string)) :
  objGet k (objSet k' v obj) = if String.eqb k' k then Some v else objGet k obj.
Proof.
  unfold objSet. destruct (objHas k' obj) eqn:H.
  - rewrite objGet_objUpdate.
    destruct (String.eqb k' k) eqn:E; [|reflexivity].
    apply String.eqb_eq in E. subst k'.
    destruct (objGet k obj) eqn:G; [reflexivity|].
    apply objGet_None in G. apply objHas_false in G. congruence.
  - apply objGet_objInsert. apply objGet_None. now apply objHas_false.
Qed.

Lemma objGet_objSet_same (k v : string) (obj : list (string * string)) :
  objGet k (objSet k v obj) = Some v.
Proof. now rewrite objGet_objSet, String.eqb_refl. Qed.

Lemma objGet_objSet_other (k k' v : string) (obj : list (string * string)) :
  k <> k' -> objGet k (objSet k' v obj) = objGet k obj.
Proof.
  intros Hne. rewrite objGet_objSet.
  destruct (String.eqb k' k) eqn:E; [|reflexivity].
  apply String.eqb_eq in E. congruence.
Qed.

(** ** The headers of a rewritten destination *)

Lemma protocolOf_None (d : string) :
  protocolOf d = None
  <-> Js.startsWith "http://" d = false /\ Js.startsWith "https://" d = false.
Proof.
  unfold protocolOf.
  destruct (Js.startsWith "http://" d), (Js.startsWith "https://" d);
    split; try discriminate; try tauto; intros [? ?]; discriminate.
Qed.


Lemma truthy_true (s : string) : Js.truthy s = true <-> s <> "".
Proof.
  unfold Js.truthy. destruct (String.eqb s "") eqn:E; simpl.
  - apply String.eqb_eq in E. split; [discriminate | tauto].
  - apply String.eqb_neq in E. tauto.
Qed.

(** X3: [modifyWithRewriteHeaders] leaves a rewrite without source or
    destination as it is, and never gives the rewritten-path headers to a
    rewrite whose destination starts with [http://] or [https://]; outside
    the after-files call such a rewrite is not touched at all. *)
Theorem external_rewrites_get_no_headers (opts : RewriteHeaderOpts)
        (rw : RouteWithSrc) :
  (dest rw = None \/ dest rw = Some "" \/ src rw = "" ->
   modifyRewrite opts rw = rw)
  /\ (forall d,
         dest rw = Some d ->
         Js.startsWith "http://" d = true \/ Js.startsWith "https://" d = true ->
         headers (modifyRewrite opts rw) = headers rw
         /\ (isAfterFilesRewrite opts = false -> modifyRewrite opts rw = rw)).
Proof.
  split.
  - intros [H|[H|H]]; unfold modifyRewrite; rewrite ?H; try reflexivity.
    + rewrite orb_true_r. reflexivity.
    + destruct (dest rw); reflexivity.
  - intros d Hd Hp. unfold modifyRewrite. rewrite Hd.
    destruct (negb (Js.truthy (src rw)) || negb (Js.truthy d)); [now split|].
    assert (P : exists p, protocolOf d = Some p /\ Js.truthy p = true).
    { unfold protocolOf. destruct Hp as [-> | Hs].
      - now exists "http://".
      - rewrite Hs. destruct (Js.startsWith "http://" d);
          [now exists "http://" | now exists "https://"]. }
    destruct P as (p & -> & Ht). simpl. rewrite Ht. simpl.
    destruct (isAfterFilesRewrite opts); split; try reflexivity; discriminate.
Qed.

(** The theorem on external rewrites at a proxy rewrite of the after-files
    group and at a rewrite without destination text. *)
Lemma external_rewrites_get_no_headers_witness :
  let opts := {| isAfterFilesRewrite := true; shouldHandlePrefetchRsc := true;
                 shouldHandleSegmentPrefetches := true |} in
  let proxy := route "^\/api(?:\/)?$" [ setDest (Some "https://example.com/api");
                                         setCheck (Some true) ] in
  headers (modifyRewrite opts proxy) = None
  /\ modifyRewrite opts (route "^\/x$" [ setDest (Some "") ])
     = route "^\/x$" [ setDest (Some "") ].
Proof.
  intros opts proxy. split.
  - apply (proj2 (external_rewrites_get_no_headers opts proxy)
             "https://example.com/api"); [reflexivity | right; reflexivity].
  - apply (proj1 (external_rewrites_get_no_headers opts
                    (route "^\/x$" [ setDest (Some "") ]))).
    right. left. reflexivity.
Defined.

Lemma indexOf_app_none (c : ascii) (p q : string) :
  Js.indexOf c p = None -> Js.indexOf c q = None -> Js.indexOf c (p +:+ q) = None.
Proof.
  intros Hp Hq. induction p as [|a p IH]; simpl in *; [exact Hq|].
  rewrite ?StrFacts.app_cons. simpl.
  destruct (Ascii.eqb a c); [discriminate|].
  destruct (Js.indexOf c p); [discriminate|]. now rewrite IH.
Qed.

Lemma indexOf_app_l (c : ascii) (p q : string) (i : nat) :
  Js.indexOf c p = Some i -> Js.indexOf c (p +:+ q) = Some i.
Proof.
  revert i. induction p as [|a p IH]; simpl; intros i H; [discriminate|].
  rewrite ?StrFacts.app_cons. simpl.
  destruct (Ascii.eqb a c); [exact H|].
  destruct (Js.indexOf c p) as [j|]; [|discriminate].
  now rewrite (IH j eq_refl).
Qed.

Lemma take_before_fragment (q f : string) :
  Js.indexOf "#" q = None -> fragment f ->
  match Js.indexOf "#" (q +:+ f) with
  | Some i => Js.take i (q +:+ f)
  | None => q +:+ f
  end = q.
Proof.
  intros Hq [->|(f' & ->)].
  - rewrite StrFacts.app_nil_r, Hq. reflexivity.
  - change ("#" +:+ f') with (String "#" f').
    rewrite StrFacts.indexOf_app_first by exact Hq.
    apply StrFacts.take_app_len.
Qed.

(** Path and query of a destination [p?q#f] and of a destination [p#f]. *)
Lemma splitDestination_query (p q f : string) :
  Js.indexOf "?" p = None -> Js.indexOf "#" q = None -> fragment f ->
  splitDestination (p +:+ "?" +:+ q +:+ f) = (Some p, Some q).
Proof.
  intros Hp Hq Hf. unfold splitDestination.
  change ("?" +:+ q +:+ f) with (String "?" (q +:+ f)).
  rewrite StrFacts.indexOf_app_first by exact Hp.
  replace (Js.take (Js.len p) (p +:+ String "?" (q +:+ f))) with p
    by (symmetry; apply StrFacts.take_app_len).
  replace (Js.drop (Js.len p + 1) (p +:+ String "?" (q +:+ f))) with (q +:+ f).
  2:{ replace (Js.len p + 1) with (Js.len (p +:+ "?"))
        by (rewrite StrFacts.len_app; reflexivity).
      replace (p +:+ String "?" (q +:+ f)) with ((p +:+ "?") +:+ (q +:+ f))
        by (rewrite StrFacts.app_assoc; reflexivity).
      symmetry. apply StrFacts.drop_app_len. }
  pose proof (take_before_fragment q f Hq Hf) as T.
  destruct (Js.indexOf "#" (q +:+ f)); now rewrite T.
Qed.

Lemma splitDestination_plain (p f : string) :
  Js.indexOf "?" (p +:+ f) = None -> Js.indexOf "#" p = None -> fragment f ->
  splitDestination (p +:+ f) = (Some p, None).
Proof.
  intros Hd Hp Hf. unfold splitDestination. rewrite Hd.
  pose proof (take_before_fragment p f Hp Hf) as T.
  destruct (Js.indexOf "#" (p +:+ f)); now rewrite T.
Qed.

(** The headers written for a destination with path [p] and query [q]. *)
Lemma modifyRewrite_headers (opts : RewriteHeaderOpts) (rw : RouteWithSrc)
      (d : string) (p : string) (q : option string) :
  dest rw = Some d -> src rw <> "" -> d <> "" ->
  Js.startsWith "http://" d = false -> Js.startsWith "https://" d = false ->
  splitDestination d = (Some p, q) ->
  p <> "" ->
  headers (modifyRewrite opts rw)
  = Some (objSpread (objSet "x-nextjs-rewritten-path" p (default [] (headers rw)))
            (match q with
             | Some q' => if Js.truthy q' then [("x-nextjs-rewritten-query", q')] else []
             | None => []
             end)).
Proof.
  intros Hd Hs Hn H1 H2 Hsplit Hp.
  unfold modifyRewrite. rewrite Hd.
  apply truthy_true in Hs, Hn, Hp. rewrite Hs, Hn. simpl.
  rewrite (proj2 (protocolOf_None d) (conj H1 H2)), Hsplit. simpl.
  rewrite Hp. simpl.
  destruct (isAfterFilesRewrite opts); reflexivity.
Qed.

(** X4: for a destination inside the site, [p?q#f] with [p] not empty,
    [modifyWithRewriteHeaders] records [p] under [x-nextjs-rewritten-path]
    and a non-empty [q] under [x-nextjs-rewritten-query], the fragment
    being dropped; without a question mark the query header is left as it
    was. Every other header of the rewrite is kept. *)
Theorem rewritten_path_and_query_headers (opts : RewriteHeaderOpts)
        (rw : RouteWithSrc) (d : string) :
  dest rw = Some d -> src rw <> "" ->
  Js.startsWith "http://" d = false -> Js.startsWith "https://" d = false ->
  let old := default [] (headers rw) in
  let new := default [] (headers (modifyRewrite opts rw)) in
  (forall p q f,
      d = p +:+ "?" +:+ q +:+ f ->
      Js.indexOf "?" p = None -> Js.indexOf "#" q = None -> fragment f ->
      p <> "" ->
      objGet "x-nextjs-rewritten-path" new = Some p
      /\ objGet "x-nextjs-rewritten-query" new
         = (if Js.truthy q then Some q else objGet "x-nextjs-rewritten-query" old)
      /\ forall k, k <> "x-nextjs-rewritten-path" -> k <> "x-nextjs-rewritten-query" ->
                   objGet k new = objGet k old)
  /\ (forall p f,
         d = p +:+ f ->
         Js.indexOf "?" d = None -> Js.indexOf "#" p = None -> fragment f ->
         p <> "" ->
         objGet "x-nextjs-rewritten-path" new = Some p
         /\ forall k, k <> "x-nextjs-rewritten-path" -> objGet k new = objGet k old).
Proof.
  intros Hd Hs H1 H2 old new. split.
  - intros p q f E Hp Hq Hf Hne.
    assert (Hn : d <> "").
    { rewrite E. destruct p; [congruence|]. rewrite StrFacts.app_cons. discriminate. }
    pose proof (modifyRewrite_headers opts rw d p (Some q) Hd Hs Hn H1 H2) as M.
    rewrite E in M at 1. specialize (M (splitDestination_query p q f Hp Hq Hf) Hne).
    subst new. rewrite M. cbn [default from_option id].
    destruct (Js.truthy q) eqn:Tq; unfold objSpread; cbn [fold_left fst snd].
    + repeat split.
      * rewrite objGet_objSet_other by discriminate. apply objGet_objSet_same.
      * apply objGet_objSet_same.
      * intros k K1 K2. now rewrite !objGet_objSet_other by assumption.
    + repeat split.
      * apply objGet_objSet_same.
      * rewrite objGet_objSet_other by discriminate. reflexivity.
      * intros k K1 K2. now rewrite objGet_objSet_other by assumption.
  - intros p f E Hq Hp Hf Hne.
    assert (Hn : d <> "").
    { rewrite E. destruct p; [congruence|]. rewrite StrFacts.app_cons. discriminate. }
    pose proof (modifyRewrite_headers opts rw d p None Hd Hs Hn H1 H2) as M.
    rewrite E in M at 1. rewrite E in Hq.
    specialize (M (splitDestination_plain p f Hq Hp Hf) Hne).
    subst new. rewrite M. cbn [default from_option id]. unfold objSpread; cbn [fold_left].
    split; [apply objGet_objSet_same|].
    intros k K1. now rewrite objGet_objSet_other by assumption.
Qed.

(** The theorem on the headers at a rewrite to [/find?q=1#top]. *)
Lemma rewritten_path_and_query_headers_witness :
  let opts := {| isAfterFilesRewrite := false; shouldHandlePrefetchRsc := true;
                 shouldHandleSegmentPrefetches := true |} in
  let rw := route "^\/search(?:\/)?$" [ setDest (Some "/find?q=1#top");
                                        setCheck (Some true) ] in
  objGet "x-nextjs-rewritten-path" (default [] (headers (modifyRewrite opts rw))) = Some "/find"
  /\ objGet "x-nextjs-rewritten-query" (default [] (headers (modifyRewrite opts rw)))
     = Some "q=1".
Proof.
  intros opts rw.
  assert (F : fragment "#top") by (right; exists "top"; reflexivity).
  assert (Hs : src rw <> "") by discriminate.
  assert (Hp : "/find" <> "") by discriminate.
  pose proof (proj1 (rewritten_path_and_query_headers opts rw "/find?q=1#top"
                       eq_refl Hs eq_refl eq_refl)
                "/find" "q=1" "#top" eq_refl eq_refl eq_refl F Hp) as H.
  split; [exact (proj1 H) | exact (proj1 (proj2 H))].
Defined.

(** ** The flags of the user's rewrites *)

(** [modifyWithRewriteHeaders] leaves the conditions of a rewrite alone. *)
Lemma modifyRewrite_keeps_conditions (opts : RewriteHeaderOpts) (r : RouteWithSrc) :
  has (modifyRewrite opts r) = has r
  /\ missing (modifyRewrite opts r) = missing r.
Proof.
  unfold modifyRewrite.
  destruct (dest r) as [d|]; [|repeat split].
  destruct (negb (Js.truthy (src r)) || negb (Js.truthy d)); [repeat split|].
  destruct (protocolOf d); [|destruct (splitDestination d) as [p q]];
    destruct (isAfterFilesRewrite opts);
    repeat match goal with
           | |- context [if ?b then _ else _] => destruct b
           end;
    repeat split.
Qed.

(** The flags and conditions of a rule after [modifyWithRewriteHeaders]
    are those it had before. *)
Lemma modifyRewrite_flags (opts : RewriteHeaderOpts) (r : RouteWithSrc) :
  (continue (modifyRewrite opts r), override (modifyRewrite opts r),
   check (modifyRewrite opts r), status (modifyRewrite opts r),
   has (modifyRewrite opts r), missing (modifyRewrite opts r))
  = (continue r, override r, check r, status r, has r, missing r).
Proof.
  destruct (modifyRewrite_keeps opts r) as (-> & _ & -> & -> & ->).
  destruct (modifyRewrite_keeps_conditions opts r) as (-> & ->).
  reflexivity.
Qed.

(** X5: whatever the prefetch flags, a rewrite in front of the files
    becomes a rule with [continue] and [override] and without [check]; a
    rewrite behind the files or a fallback rewrite becomes a rule with
    [check] and with neither [continue] nor [override]. The rule has the
    conditions of the rewrite and no status. *)
Theorem rewrite_flags_by_group (ctx : BuildContext) :
  Forall2
    (fun item r =>
       (continue r, override r, check r, status r, has r, missing r)
       = (Some true, Some true, None, None, rw_has item, rw_missing item))
    (beforeFiles (rewrites (routes ctx)))
    (cBeforeFiles (convertedRewrites ctx))
  /\ Forall2
       (fun item r =>
          (continue r, override r, check r, status r, has r, missing r)
          = (None, None, Some true, None, rw_has item, rw_missing item))
       (afterFiles (rewrites (routes ctx)))
       (cAfterFiles (convertedRewrites ctx))
  /\ Forall2
       (fun item r =>
          (continue r, override r, check r, status r, has r, missing r)
          = (None, None, Some true, None, rw_has item, rw_missing item))
       (fallback (rewrites (routes ctx)))
       (cFallback (convertedRewrites ctx)).
Proof.
  unfold convertedRewrites, modifyWithRewriteHeaders, normalizeRewrites.
  destruct (flagPrefetchRsc ctx || flagSegmentPrefetches ctx); cbn [cBeforeFiles cAfterFiles cFallback];
    rewrite ?map_map;
    repeat split; apply Forall2_map_same; intros item;
    rewrite ?modifyRewrite_flags; reflexivity.
Qed.

(** ** The rules for data routes *)



(** ** Redirects *)

Lemma filter_partition_length {A} (f : A -> bool) (l : list A) :
  length (List.filter f l) + length (List.filter (fun x => negb (f x)) l)
  = length l.
Proof.
  induction l as [|x l IH]; simpl; [reflexivity|].
  destruct (f x); simpl; lia.
Qed.

(** X7: the loop over [routes.redirects] puts every redirect in exactly
    one of two lists: a redirect with [priority] becomes a rule with
    [continue], any other a rule without. The rule has the source pattern,
    the status code and the conditions of the redirect, a [Location]
    header with its destination and no [dest]. *)
Theorem redirects_split_by_priority (ctx : BuildContext) :
  length (priorityRedirects ctx) + length (plainRedirects ctx)
  = length (redirects (routes ctx))
  /\ Forall (fun r => continue r = Some true) (priorityRedirects ctx)
  /\ Forall (fun r => continue r = None) (plainRedirects ctx)
  /\ forall rd,
      In rd (redirects (routes ctx)) ->
      exists r,
        In r (if rd_priority rd then priorityRedirects ctx else plainRedirects ctx)
        /\ src r = rd_sourceRegex rd
        /\ headers r = Some [("Location", rd_destination rd)]
        /\ status r = Some (rd_statusCode rd)
        /\ has r = rd_has rd /\ missing r = rd_missing rd
        /\ dest r = None.
Proof.
  unfold priorityRedirects, plainRedirects.
  split; [rewrite !length_map; apply filter_partition_length|].
  split; [apply List.Forall_forall; intros r H; apply in_map_iff in H;
          destruct H as (rd & <- & _); reflexivity|].
  split; [apply List.Forall_forall; intros r H; apply in_map_iff in H;
          destruct H as (rd & <- & _); reflexivity|].
  intros rd H. destruct (rd_priority rd) eqn:P.
  - exists (setContinue (Some true) (redirectRoute rd)).
    split; [|repeat split].
    apply in_map_iff. exists rd. split; [reflexivity|].
    apply List.filter_In. split; assumption.
  - exists (redirectRoute rd).
    split; [|repeat split].
    apply in_map_iff. exists rd. split; [reflexivity|].
    apply List.filter_In. split; [assumption|]. now rewrite P.
Qed.

(** ** The place of the user's rules in the table *)

Lemma untilMarker_rules (rs : list RouteWithSrc) (l : list Route) :
  untilMarker (map Rule rs ++ l) = rs ++ untilMarker l.
Proof. induction rs as [|r rs IH]; simpl; [reflexivity | now rewrite IH]. Qed.

Lemma untilMarker_when_rules (c : bool) (rs : list RouteWithSrc) (l : list Route) :
  untilMarker (when c (map Rule rs) ++ l) = when c rs ++ untilMarker l.
Proof. destruct c; simpl; [apply untilMarker_rules | reflexivity]. Qed.

Lemma untilMarker_marker (h : HandleValue) (l : list Route) :
  untilMarker (Handle h :: l) = [].
Proof. reflexivity. Qed.

(** The table as a chain of groups, for each shape of the configuration. *)
Ltac table_chain :=
  unfold phaseRules, vercelRoutes, taggedRoutes; cbv zeta;
  destruct (i18n (config _)) as [?i|]; destruct (has500Output _);
  rewrite ?map_app, ?map_snd_when, ?map_snd_group;
  change (map snd []) with (@nil Route); simpl (map snd (marker _));
  rewrite <- ?app_assoc; cbn [app].

Ltac skip_to_marker :=
  repeat first [ rewrite afterMarker_rules
               | rewrite afterMarker_when_rules
               | rewrite afterMarker_marker; decide_markers ].

Ltac read_phase :=
  repeat first [ rewrite untilMarker_rules
               | rewrite untilMarker_when_rules
               | rewrite untilMarker_marker ].

(** X8: in front of the filesystem marker the table holds the priority
    redirects first, then (behind the rules the adapter adds) the user's
    headers, the other redirects, the middleware rules and the rewrites in
    front of the files, in this order. The rewrites behind the files stand
    between the filesystem and the resource marker; the resource phase is
    the fallback rewrites followed by the catch-all 404 rule; the dynamic
    routes stand between the rewrite and the hit marker. *)
Theorem user_rules_by_phase (ctx : BuildContext) :
  (exists b c,
      untilMarker (vercelRoutes ctx)
      = priorityRedirects ctx ++ b ++ headerRoutes ctx ++ plainRedirects ctx
          ++ middlewareRoutes ctx ++ cBeforeFiles (convertedRewrites ctx) ++ c)
  /\ (exists a c,
         phaseRules filesystem (vercelRoutes ctx)
         = a ++ cAfterFiles (convertedRewrites ctx) ++ c)
  /\ phaseRules resource (vercelRoutes ctx)
     = cFallback (convertedRewrites ctx) ++ directory404Routes ctx
  /\ (exists a c,
         phaseRules rewrite (vercelRoutes ctx)
         = a ++ dynamicRouteRules ctx ++ c).
Proof.
  split; [|split; [|split]].
  - exists (normalizeNextDataRoutes (config ctx) (buildId ctx)
              (shouldHandleMiddlewareDataResolving ctx) true
            ++ match i18n (config ctx) with
               | Some i =>
                   localeWildcardRoutes ctx i
                   ++ localeDomainRedirectRoutes ctx i
                   ++ localeRedirectRoutes i
                   ++ defaultLocaleRewriteRoutes ctx i (setContinue (Some true))
               | None => []
               end).
    exists (match i18n (config ctx) with
            | Some i => [literalStatusLocaleRoute ctx i 404 "404" [missingRevalidate];
                         literalStatusLocaleRoute ctx i 500 "500" []]
            | None => [literalStatusRoute ctx 404 "404" [missingRevalidate];
                       literalStatusRoute ctx 500 "500" []]
            end
            ++ denormalizeNextDataRoutes (config ctx) (buildId ctx)
                 (shouldHandleMiddlewareDataResolving ctx) true
            ++ when (hasAppDir ctx) (appRscRoutes ctx)).
    table_chain; read_phase; rewrite <- ?app_assoc; cbn [app];
      rewrite ?app_nil_r; reflexivity.
  - exists (when (Js.truthy (basePath (config ctx))) (nextImageRoutes ctx)
            ++ normalizeNextDataRoutes (config ctx) (buildId ctx)
                 (shouldHandleMiddlewareDataResolving ctx) false
            ++ when (negb (hasMiddleware ctx)) (nextDataNoopRoutes ctx)
            ++ when (hasAppDir ctx) (appIndexRscRoutes ctx)).
    exists (when (hasAppDir ctx) (appRscRepairRoutes ctx)).
    table_chain; skip_to_marker; read_phase; rewrite <- ?app_assoc;
      rewrite ?app_nil_r; reflexivity.
  - table_chain; skip_to_marker; read_phase; rewrite ?app_nil_r; reflexivity.
  - exists (denormalizeNextDataRoutes (config ctx) (buildId ctx)
              (shouldHandleMiddlewareDataResolving ctx) false).
    exists (when (hasMiddleware ctx) (middlewareDataRoutes ctx)).
    table_chain; skip_to_marker; read_phase; rewrite ?app_nil_r; reflexivity.
Qed.

(** ** The map of the prerenders without fallback *)

Lemma extended_app (entry : option (list string)) (x : string)
      (paths : list string) :
  extended (Some (default [] entry ++ [x])) paths = extended entry (x :: paths).
Proof.
  destruct paths as [|y paths]; simpl; [reflexivity|].
  now rewrite <- app_assoc.
Qed.

Lemma fallbackFalse_loop (ctx : BuildContext) (ps : list Prerender)
      (m0 m : gmap string (list string)) :
  forEachM
    (fun (m : gmap string (list string)) prerender =>
       if isFallbackFalsePrerender prerender then
         match nodeOutputsParentMap ctx !! pr_parentOutputId prerender with
         | None =>
             throw (MissingParentOutput (pr_parentOutputId prerender) prerender)
         | Some parentOutput =>
             let n := Js.len (basePath (config ctx)) in
             let parentPage := Js.drop n (o_pathname parentOutput) in
             let currentMap := default [] (m !! parentPage) in
             ret (<[parentPage := currentMap ++ [Js.drop n (pr_pathname prerender)]]> m)
         end
       else ret m)
    ps m0 = inr m ->
  forall page, m !! page = extended (m0 !! page) (fallbackFalsePaths ctx page ps).
Proof.
  revert m0. induction ps as [|p ps IH]; intros m0 H page.
  - simpl in H. injection H as <-. reflexivity.
  - cbn [forEachM] in H. unfold fallbackFalsePaths, parentPage. cbn [List.filter].
    destruct (isFallbackFalsePrerender p) eqn:F.
    + destruct (nodeOutputsParentMap ctx !! pr_parentOutputId p) as [parent|] eqn:L;
        [|discriminate H].
      cbn [bind ret] in H. cbv zeta in H.
      specialize (IH _ H page). rewrite IH. cbn [andb].
      destruct (bool_decide
                  (Some (Js.drop (Js.len (basePath (config ctx))) (o_pathname parent))
                   = Some page)) eqn:D.
      * apply bool_decide_eq_true in D. injection D as D. rewrite D.
        rewrite lookup_insert_eq. cbn [map]. apply extended_app.
      * apply bool_decide_eq_false in D.
        rewrite lookup_insert_ne by congruence. reflexivity.
    + cbn [bind ret] in H. cbn [andb]. apply IH, H.
Qed.

(** X9: when the loop that fills [prerenderFallbackFalseMap] ends without
    error, the map has an entry for a page exactly when some prerender
    with [parentFallbackMode === false], outside [_next/data] and not
    ending in [.rsc], has that page as parent; the entry lists the paths
    of these prerenders, without the base path, in the order of the
    outputs. *)
Theorem fallback_false_map_contents (ctx : BuildContext)
        (m : gmap string (list string)) :
  prerenderFallbackFalseMap ctx = inr m ->
  forall page,
    m !! page
    = match fallbackFalsePaths ctx page (prerenders (outputs ctx)) with
      | [] => None
      | paths => Some paths
      end.
Proof.
  intros H page. unfold prerenderFallbackFalseMap in H.
  rewrite (fallbackFalse_loop ctx _ _ _ H page).
  rewrite lookup_empty.
  destruct (fallbackFalsePaths ctx page (prerenders (outputs ctx))); reflexivity.
Qed.

(** The theorem on the map at the build with one prerendered path of the
    page [/posts/[slug]]. *)
Lemma fallback_false_map_contents_witness :
  exists m,
    prerenderFallbackFalseMap (prerenderBuild "/posts/[slug]") = inr m
    /\ m !! "/posts/[slug]" = Some ["/posts/a"]
    /\ m !! "/posts/a" = None.
Proof.
  destruct (prerenderFallbackFalseMap (prerenderBuild "/posts/[slug]"))
    as [e|m] eqn:E; [vm_compute in E; discriminate E|].
  exists m. split; [reflexivity|]. split.
  - exact (fallback_false_map_contents _ m E "/posts/[slug]").
  - exact (fallback_false_map_contents _ m E "/posts/a").
Defined.

(** ** The map of the parent outputs *)

Lemma parent_fold_lookup (l : list FuncOutput) (m0 : gmap string FuncOutput)
      (id : string) :
  fold_left (fun m o => <[o_id o := o]> m) l m0 !! id
  = match last (List.filter (fun o => String.eqb (o_id o) id) l) with
    | Some o => Some o
    | None => m0 !! id
    end.
Proof.
  revert m0. induction l as [|x l IH]; intros m0; [reflexivity|].
  cbn [fold_left List.filter]. rewrite IH.
  destruct (String.eqb (o_id x) id) eqn:E.
  - apply String.eqb_eq in E. rewrite last_cons.
    destruct (last (List.filter (fun o => String.eqb (o_id o) id) l));
      [reflexivity|].
    rewrite <- E. apply lookup_insert_eq.
  - apply String.eqb_neq in E.
    destruct (last (List.filter (fun o => String.eqb (o_id o) id) l));
      [reflexivity|].
    apply lookup_insert_ne, E.
Qed.

Lemma filter_filter {A} (f g : A -> bool) (l : list A) :
  List.filter g (List.filter f l) = List.filter (fun x => f x && g x) l.
Proof.
  induction l as [|x l IH]; simpl; [reflexivity|].
  destruct (f x); simpl; [destruct (g x); now rewrite IH | exact IH].
Qed.

Lemma last_In {A} (l : list A) (x : A) : last l = Some x -> In x l.
Proof.
  induction l as [|y l IH]; [discriminate|].
  rewrite last_cons. destruct (last l) as [z|].
  - intros E. right. apply IH. exact E.
  - intros E. injection E as ->. now left.
Qed.

(** X10: [nodeOutputsParentMap] maps an id to the last Node.js output with
    that id among the app pages, app routes, pages and API routes, in this
    order. So a parent found in the map is a Node.js output of the build
    with the id asked for, and an id that only edge outputs carry is not
    in the map. *)
Theorem parent_map_lookup (ctx : BuildContext) (id : string) :
  nodeOutputsParentMap ctx !! id
  = last (List.filter (fun o => isNodejs o && String.eqb (o_id o) id)
                      (functionOutputs ctx))
  /\ (forall parent,
         nodeOutputsParentMap ctx !! id = Some parent ->
         In parent (functionOutputs ctx)
         /\ o_runtime parent = nodejs /\ o_id parent = id)
  /\ ((forall o, In o (functionOutputs ctx) -> o_id o = id -> o_runtime o = edge) ->
      nodeOutputsParentMap ctx !! id = None).
Proof.
  assert (L : nodeOutputsParentMap ctx !! id
              = last (List.filter (fun o => isNodejs o && String.eqb (o_id o) id)
                                  (functionOutputs ctx))).
  { unfold nodeOutputsParentMap, nodeOutputs.
    rewrite parent_fold_lookup, filter_filter, lookup_empty.
    now destruct (last _). }
  split; [exact L|]. split.
  - intros parent H. rewrite L in H. apply last_In in H.
    apply List.filter_In in H. destruct H as [Hin Hc].
    apply andb_true_iff in Hc. destruct Hc as [Hn Hid].
    apply String.eqb_eq in Hid. unfold isNodejs in Hn.
    destruct (o_runtime parent); [auto | discriminate].
  - intros Hedge. rewrite L.
    destruct (last _) as [o|] eqn:E; [|reflexivity].
    apply last_In in E. apply List.filter_In in E. destruct E as [Hin Hc].
    apply andb_true_iff in Hc. destruct Hc as [Hn Hid].
    apply String.eqb_eq in Hid. unfold isNodejs in Hn.
    rewrite (Hedge o Hin Hid) in Hn. discriminate.
Qed.

(** The theorem on the map at the pages build: the page is found, the
    middleware, an edge output outside the four lists, is not. *)
Lemma parent_map_lookup_witness :
  nodeOutputsParentMap pagesMiddlewareBuild !! "/posts/[slug]" = Some samplePage
  /\ nodeOutputsParentMap pagesMiddlewareBuild !! "/_middleware" = None.
Proof.
  split.
  - exact (proj1 (parent_map_lookup pagesMiddlewareBuild "/posts/[slug]")).
  - apply (proj2 (proj2 (parent_map_lookup pagesMiddlewareBuild "/_middleware"))).
    intros o [<-|[]]. discriminate.
Defined.

(** ** The parent of a prerender *)

Lemma prerender_loop_returns (parents : gmap string FuncOutput)
      (ps : list Prerender) (acc written : list PrerenderConfig) :
  forEachM
    (fun written output =>
       match parents !! pr_parentOutputId output with
       | None =>
           throw (FailedToFindParentNodeOutput (pr_parentOutputId output)
                    (pr_pathname output))
       | Some parentNodeOutput =>
           ret (written ++
                [ {| pc_path :=
                       (if String.eqb (pr_pathname output) "/" then "/index"
                        else pr_pathname output) +:+ ".prerender-config.json";
                     pc_group := pr_groupId output;
                     pc_sourcePath := o_pathname parentNodeOutput |} ])
       end)
    ps acc = inr written ->
  exists rest,
    written = acc ++ rest
    /\ Forall2 (fun p c => exists parent,
                    parents !! pr_parentOutputId p = Some parent
                    /\ c = prerenderConfigOf p parent)
               ps rest.
Proof.
  revert acc. induction ps as [|p ps IH]; intros acc H.
  - simpl in H. injection H as <-. exists []. rewrite app_nil_r.
    split; [reflexivity | constructor].
  - cbn [forEachM] in H.
    destruct (parents !! pr_parentOutputId p) as [parent|] eqn:L; [|discriminate H].
    cbn [bind ret] in H. destruct (IH _ H) as (rest & -> & F).
    exists (prerenderConfigOf p parent :: rest). split.
    + rewrite <- app_assoc. reflexivity.
    + constructor; [|exact F]. exists parent. split; [exact L | reflexivity].
Qed.

Lemma prerender_loop_throws_from (parents : gmap string FuncOutput)
      (pre : list Prerender) (p : Prerender) (post : list Prerender)
      (acc : list PrerenderConfig) :
  Forall (fun q => is_Some (parents !! pr_parentOutputId q)) pre ->
  parents !! pr_parentOutputId p = None ->
  forEachM
    (fun written output =>
       match parents !! pr_parentOutputId output with
       | None =>
           throw (FailedToFindParentNodeOutput (pr_parentOutputId output)
                    (pr_pathname output))
       | Some parentNodeOutput =>
           ret (written ++
                [ {| pc_path :=
                       (if String.eqb (pr_pathname output) "/" then "/index"
                        else pr_pathname output) +:+ ".prerender-config.json";
                     pc_group := pr_groupId output;
                     pc_sourcePath := o_pathname parentNodeOutput |} ])
       end)
    (pre ++ p :: post) acc
  = inl (FailedToFindParentNodeOutput (pr_parentOutputId p) (pr_pathname p)).
Proof.
  intros Hpre Hp. revert acc.
  induction Hpre as [|q pre [parent Hq] _ IH]; intros acc.
  - cbn [app forEachM]. rewrite Hp. reflexivity.
  - cbn [app forEachM]. rewrite Hq. cbn [bind ret]. apply IH.
Qed.

Lemma prerender_loop_throws (parents : gmap string FuncOutput)
      (pre : list Prerender) (p : Prerender) (post : list Prerender) :
  Forall (fun q => is_Some (parents !! pr_parentOutputId q)) pre ->
  parents !! pr_parentOutputId p = None ->
  handlePrerenderOutputs (pre ++ p :: post) parents
  = inl (FailedToFindParentNodeOutput (pr_parentOutputId p) (pr_pathname p)).
Proof. apply prerender_loop_throws_from. Qed.

Lemma fallbackFalse_loop_returns (ctx : BuildContext) :
  Forall (fun p => ~ missingParent ctx p) (prerenders (outputs ctx)) ->
  exists m, prerenderFallbackFalseMap ctx = inr m.
Proof.
  intros H. unfold prerenderFallbackFalseMap.
  apply forEachM_returns.
  eapply List.Forall_impl; [|exact H].
  intros p Hp m. cbv beta.
  destruct (isFallbackFalsePrerender p) eqn:F; [|eexists; reflexivity].
  destruct (nodeOutputsParentMap ctx !! pr_parentOutputId p) eqn:L;
    [eexists; reflexivity|].
  exfalso. apply Hp. split; assumption.
Qed.

(** X11: [handlePrerenderOutputs] fails at the first prerender whose
    parent is not in the map, with the error that names this prerender and
    the parent asked for; when it returns, it has written one
    configuration for each prerender, in order, with the pathname of the
    parent as [sourcePath]. A build in which every prerender of
    [prerenderFallbackFalseMap] has its parent, but some other prerender
    has not, fails with this error. *)
Theorem prerender_needs_parent (ctx : BuildContext) (ps : list Prerender)
        (parents : gmap string FuncOutput) :
  (forall pre p post,
      ps = pre ++ p :: post ->
      Forall (fun q => is_Some (parents !! pr_parentOutputId q)) pre ->
      parents !! pr_parentOutputId p = None ->
      handlePrerenderOutputs ps parents
      = inl (FailedToFindParentNodeOutput (pr_parentOutputId p) (pr_pathname p)))
  /\ (forall written,
         handlePrerenderOutputs ps parents = inr written ->
         Forall2 (fun p c => exists parent,
                      parents !! pr_parentOutputId p = Some parent
                      /\ c = prerenderConfigOf p parent)
                 ps written)
  /\ (forall pre p post,
         prerenders (outputs ctx) = pre ++ p :: post ->
         Forall (fun q => ~ missingParent ctx q) (prerenders (outputs ctx)) ->
         Forall (fun q => is_Some (nodeOutputsParentMap ctx !! pr_parentOutputId q))
                pre ->
         nodeOutputsParentMap ctx !! pr_parentOutputId p = None ->
         onBuildComplete ctx
         = inl (FailedToFindParentNodeOutput (pr_parentOutputId p) (pr_pathname p))).
Proof.
  split; [|split].
  - intros pre p post -> Hpre Hp. now apply prerender_loop_throws.
  - intros written H. unfold handlePrerenderOutputs in H.
    destruct (prerender_loop_returns _ _ _ _ H) as (rest & -> & F). exact F.
  - intros pre p post E Hok Hpre Hp.
    destruct (fallbackFalse_loop_returns ctx Hok) as (m & Hm).
    unfold onBuildComplete. rewrite Hm. cbn [bind]. rewrite E.
    rewrite (prerender_loop_throws _ pre p post Hpre Hp). reflexivity.
Qed.

(** The theorem on the parent of a prerender at a build whose only
    prerender, with a fallback, names a parent that does not exist. *)
Lemma prerender_needs_parent_witness :
  onBuildComplete orphanBuild
  = inl (FailedToFindParentNodeOutput "/gone" "/posts/a").
Proof.
  apply (proj2 (proj2 (prerender_needs_parent orphanBuild [] (gmap_empty)))
           [] {| pr_pathname := "/posts/a"; pr_parentOutputId := "/gone";
                 pr_parentFallbackMode := FallbackNull; pr_groupId := 1 |} []).
  - reflexivity.
  - constructor; [|constructor]. intros [F _]. discriminate F.
  - constructor.
  - reflexivity.
Defined.

(** ** The rules of the dynamic routes *)

Lemma dynamicRoutesFrom_without_guard (ctx : BuildContext) (added : bool)
      (ds : list RewriteItem) :
  List.filter (fun r => negb (answers404 r)) (dynamicRoutesFrom ctx added ds)
  = map dynamicRoute ds.
Proof.
  revert added. induction ds as [|d ds IH]; intros added; [reflexivity|].
  cbn [dynamicRoutesFrom]. cbv zeta.
  rewrite List.filter_app. cbn [List.filter map].
  replace (negb (answers404 (dynamicRoute d))) with true by reflexivity.
  rewrite IH.
  destruct (hasPagesDir ctx && negb (hasMiddleware ctx)
            && (negb (Js.includes "_next/data" (rw_sourceRegex d)) && negb added));
    reflexivity.
Qed.

Lemma dynamicRoutesFrom_guards (ctx : BuildContext) (added : bool)
      (ds : list RewriteItem) :
  length (List.filter answers404 (dynamicRoutesFrom ctx added ds))
  <= if added then 0 else 1.
Proof.
  revert added. induction ds as [|d ds IH]; intros added.
  - simpl. destruct added; lia.
  - cbn [dynamicRoutesFrom]. cbv zeta.
    rewrite List.filter_app, length_app. cbn [List.filter].
    replace (answers404 (dynamicRoute d)) with false by reflexivity.
    destruct (hasPagesDir ctx && negb (hasMiddleware ctx)
              && (negb (Js.includes "_next/data" (rw_sourceRegex d)) && negb added))
      eqn:C.
    + rewrite orb_true_r. specialize (IH true). cbn [List.filter] in *.
      replace (answers404 (nextData404Route ctx)) with true by reflexivity.
      cbn [length]. cbn beta iota in IH.
      destruct added; [|lia].
      rewrite !andb_false_r in C. discriminate C.
    + rewrite orb_false_r. specialize (IH added). cbn [List.filter length]. lia.
Qed.

Lemma dynamicRoutesFrom_data_only (ctx : BuildContext) (added : bool)
      (ds : list RewriteItem) :
  Forall isDataRoute ds -> dynamicRoutesFrom ctx added ds = map dynamicRoute ds.
Proof.
  intros H. revert added. induction H as [|d ds Hd _ IH]; intros added;
    [reflexivity|].
  cbn [dynamicRoutesFrom map]. cbv zeta. unfold isDataRoute in Hd. rewrite Hd.
  cbn [negb andb]. rewrite !andb_false_r. cbn [app]. rewrite orb_false_r.
  now rewrite IH.
Qed.

Lemma dynamicRoutesFrom_no_pages (ctx : BuildContext) (added : bool)
      (ds : list RewriteItem) :
  hasPagesDir ctx = false -> dynamicRoutesFrom ctx added ds = map dynamicRoute ds.
Proof.
  intros H. revert added. induction ds as [|d ds IH]; intros added; [reflexivity|].
  cbn [dynamicRoutesFrom map]. cbv zeta. rewrite H. cbn [andb app].
  rewrite orb_false_r. now rewrite IH.
Qed.

(** X12: the loop over [routes.dynamicRoutes] makes one rule of every
    dynamic route, in the order given, and adds at most one rule with
    status 404; it adds none when the build has no pages directory, when
    it has a middleware, or when every dynamic route is one for
    [_next/data]. *)
Theorem dynamic_route_rules (ctx : BuildContext) :
  List.filter (fun r => negb (answers404 r)) (dynamicRouteRules ctx)
  = map dynamicRoute (dynamicRoutes (routes ctx))
  /\ length (List.filter answers404 (dynamicRouteRules ctx)) <= 1
  /\ (hasPagesDir ctx = false \/ hasMiddleware ctx = true
      \/ Forall isDataRoute (dynamicRoutes (routes ctx)) ->
      dynamicRouteRules ctx = map dynamicRoute (dynamicRoutes (routes ctx))).
Proof.
  unfold dynamicRouteRules. split; [apply dynamicRoutesFrom_without_guard|].
  split; [apply (dynamicRoutesFrom_guards ctx false)|].
  intros [H|[H|H]].
  - now apply dynamicRoutesFrom_no_pages.
  - now apply dynamicRoutesFrom_middleware.
  - now apply dynamicRoutesFrom_data_only.
Qed.

(** The theorem on the dynamic routes at the build without pages and at
    the pages build with a middleware. *)
Lemma dynamic_route_rules_witness :
  dynamicRouteRules emptyBuild = []
  /\ dynamicRouteRules pagesMiddlewareBuild = [dynamicRoute sampleDynamicRoute].
Proof.
  split.
  - apply (proj2 (proj2 (dynamic_route_rules emptyBuild))). left. reflexivity.
  - apply (proj2 (proj2 (dynamic_route_rules pagesMiddlewareBuild))).
    right. left. reflexivity.
Defined.

(** ** The redirect maps of the locale rules *)

Lemma objGet_Some_keys (k : string) (obj : list (string * string)) :
  objGet k obj <> None <-> In k (map fst obj).
Proof.
  split.
  - intros H. destruct (in_dec string_dec k (map fst obj)) as [Hin|Hin];
      [exact Hin|]. apply objGet_None in Hin. contradiction.
  - intros Hin Hn. apply objGet_None in Hn. contradiction.
Qed.









(** ** The rules that call the middleware *)

Lemma modifyRewrite_keeps_middleware (opts : RewriteHeaderOpts) (r : RouteWithSrc) :
  middlewarePath (modifyRewrite opts r) = middlewarePath r.
Proof.
  unfold modifyRewrite.
  destruct (dest r) as [d|]; [|reflexivity].
  destruct (negb (Js.truthy (src r)) || negb (Js.truthy d)); [reflexivity|].
  destruct (protocolOf d); [|destruct (splitDestination d) as [p q]];
    destruct (isAfterFilesRewrite opts);
    repeat match goal with
           | |- context [if ?b then _ else _] => destruct b
           end;
    reflexivity.
Qed.

Lemma converted_rewrite_no_middleware (ctx : BuildContext) (r : RouteWithSrc) :
  In r (cBeforeFiles (convertedRewrites ctx))
  \/ In r (cAfterFiles (convertedRewrites ctx))
  \/ In r (cFallback (convertedRewrites ctx)) ->
  middlewarePath r = None.
Proof.
  unfold convertedRewrites, modifyWithRewriteHeaders, normalizeRewrites.
  destruct (flagPrefetchRsc ctx || flagSegmentPrefetches ctx); simpl;
    rewrite ?map_map, !in_map_iff;
    intros [(x & <- & _)|[(x & <- & _)|(x & <- & _)]];
    rewrite ?modifyRewrite_keeps_middleware; reflexivity.
Qed.

(** X15: a rule of the table has a [middlewarePath] only if it was made
    from a matcher of the middleware output: then the path is the pathname
    of that output, the pattern is the matcher's, and the rule carries
    [continue] and [override] and has no destination. Without a
    middleware no rule of the table has a [middlewarePath]. *)
Theorem middleware_path_only_on_matcher_rules (ctx : BuildContext)
        (r : RouteWithSrc) :
  In (Rule r) (vercelRoutes ctx) ->
  middlewarePath r <> None ->
  exists output matcher,
    middleware (outputs ctx) = Some output
    /\ In matcher (default [] (o_matchers output))
    /\ middlewarePath r = Some (o_pathname output)
    /\ src r = m_sourceRegex matcher
    /\ has r = m_has matcher /\ missing r = m_missing matcher
    /\ continue r = Some true /\ override r = Some true
    /\ dest r = None /\ status r = None.
Proof.
  intros H Hm. unfold vercelRoutes in H.
  apply in_map_iff in H. destruct H as ([o x] & E & H). simpl in E. subst x.
  table_cases H.
  all: try (exfalso; apply Hm; apply (converted_rewrite_no_middleware ctx); tauto).
  all: try (unfold middlewareRoutes, handleMiddleware in H;
            destruct (middleware (outputs ctx)) as [output|] eqn:Em;
            [|destruct H];
            apply in_map_iff in H; destruct H as (matcher & <- & Hin);
            exists output, matcher; repeat split; assumption).
  all: try (exfalso; apply Hm; injection H as <-; reflexivity).
  all: try (exfalso; apply Hm; group_members H; unfold spreadIf;
            repeat match goal with
                   | |- context [if ?b then _ else _] => destruct b
                   end; reflexivity).
  all: exfalso; apply Hm; apply in_dynamicRoutesFrom in H;
    destruct H as [->|(d & _ & ->)]; reflexivity.
Qed.

(** The theorem on the middleware rules at the pages build with a
    middleware. *)
Lemma middleware_path_only_on_matcher_rules_witness :
  exists output matcher,
    middleware (outputs pagesMiddlewareBuild) = Some output
    /\ In matcher (default [] (o_matchers output))
    /\ o_pathname output = "/_middleware"
    /\ m_sourceRegex matcher = "^/.*$".
Proof.
  pose (r := route "^/.*$"
               [ setContinue (Some true); setHas None; setMissing None;
                 setMiddlewarePath (Some "/_middleware");
                 setMiddlewareRawSrc (Some ["/:path*"]);
                 setOverride (Some true) ]).
  assert (H : In (Rule r) (vercelRoutes pagesMiddlewareBuild)).
  { vm_compute. repeat first [left; reflexivity | right]. }
  assert (Hm : middlewarePath r <> None) by discriminate.
  destruct (middleware_path_only_on_matcher_rules pagesMiddlewareBuild r H Hm)
    as (output & matcher & E & Hin & Hp & Hs & _).
  exists output, matcher. split; [exact E|]. split; [exact Hin|].
  split.
  - injection Hp as Hp. symmetry. exact Hp.
  - symmetry. exact Hs.
Defined.

(** ** The page of a request *)

Lemma removeSuffix_app (suffix s : string) :
  removeSuffix suffix (s +:+ suffix) = s.
Proof.
  unfold removeSuffix. rewrite StrFacts.endsWith_app, StrFacts.len_app.
  replace (Js.len s + Js.len suffix - Js.len suffix) with (Js.len s) by lia.
  apply StrFacts.take_app_len.
Qed.

Lemma fromSlash_segment (seg rest : string) :
  Js.charIn "/" seg = false ->
  Js.startsWith "/" rest = true ->
  fromSlash (seg +:+ rest) = rest.
Proof.
  intros Hseg Hrest. induction seg as [|c seg IH].
  - destruct rest as [|c rest]; [discriminate Hrest|].
    assert (E : c = "/"%char).
    { cbn [Js.startsWith] in Hrest.
      destruct (Ascii.eqb "/" c) eqn:E; [|discriminate Hrest].
      apply Ascii.eqb_eq in E. now subst c. }
    subst c. reflexivity.
  - simpl in Hseg. apply orb_false_iff in Hseg. destruct Hseg as [Hc Hseg].
    rewrite StrFacts.app_cons. cbn [fromSlash].
    rewrite Hc. apply IH, Hseg.
Qed.

Lemma removeDataPrefix_head (b rest : string) :
  b <> "" ->
  Js.charIn "/" b = false ->
  Js.startsWith "/" rest = true ->
  removeDataPrefix ("/_next/data/" +:+ b +:+ rest) = rest.
Proof.
  intros Hb Hseg Hrest.
  destruct b as [|c b]; [congruence|].
  assert (Hc : Ascii.eqb c "/" = false).
  { simpl in Hseg. apply orb_false_iff in Hseg. tauto. }
  change ("/_next/data/" +:+ String c b +:+ rest)
    with (String "/" ("_next/data/" +:+ String c b +:+ rest)).
  cbn [removeDataPrefix].
  replace (Js.startsWith "/_next/data/"
             (String "/" ("_next/data/" +:+ String c b +:+ rest))) with true
    by reflexivity.
  change (Js.drop 12 (String "/" ("_next/data/" +:+ String c b +:+ rest)))
    with (String c b +:+ rest).
  rewrite StrFacts.app_cons. cbn [startsSegment andb]. rewrite Hc. cbn [negb].
  rewrite <- StrFacts.app_cons. apply fromSlash_segment; assumption.
Qed.

(** X16: [normalizeDataPath] gives back the path of the page a data
    request stands for: from [/_next/data/<build id><path>.json], with a
    build id that is not empty and holds no slash, it returns [path], and
    [/] for the path [/index]. A path that does not start with
    [/_next/data] is returned as it is. *)
Theorem data_path_of_page (pathname : string) :
  (forall b p,
      b <> "" ->
      Js.charIn "/" b = false ->
      Js.startsWith "/" p = true ->
      pathname = "/_next/data/" +:+ b +:+ p +:+ ".json" ->
      normalizeDataPath pathname = if String.eqb p "/index" then "/" else p)
  /\ (Js.startsWith "/_next/data" pathname = false ->
      normalizeDataPath pathname = pathname).
Proof.
  split.
  - intros b p Hb Hseg Hp ->. unfold normalizeDataPath.
    replace (Js.truthy ("/_next/data/" +:+ b +:+ p +:+ ".json")) with true
      by reflexivity.
    replace (Js.startsWith "/_next/data" ("/_next/data/" +:+ b +:+ p +:+ ".json"))
      with true by reflexivity.
    cbn [negb].
    rewrite removeDataPrefix_head; try assumption.
    + rewrite removeSuffix_app. reflexivity.
    + destruct p as [|c p]; [discriminate Hp|].
      rewrite StrFacts.app_cons. exact Hp.
  - intros H. unfold normalizeDataPath.
    destruct pathname as [|c s]; [reflexivity|].
    change (Js.truthy (String c s)) with true. cbv iota. rewrite H. reflexivity.
Qed.

(** The theorem on data paths at the data request for a post. *)
Lemma data_path_of_page_witness :
  normalizeDataPath "/_next/data/abc123/posts/a.json" = "/posts/a"
  /\ normalizeDataPath "/_next/data/abc123/index.json" = "/"
  /\ normalizeDataPath "/posts/a" = "/posts/a".
Proof.
  assert (Hb : "abc123" <> "") by discriminate.
  split; [|split].
  - exact (proj1 (data_path_of_page "/_next/data/abc123/posts/a.json")
             "abc123" "/posts/a" Hb eq_refl eq_refl eq_refl).
  - exact (proj1 (data_path_of_page "/_next/data/abc123/index.json")
             "abc123" "/index" Hb eq_refl eq_refl eq_refl).
  - exact (proj2 (data_path_of_page "/posts/a") eq_refl).
Defined.

Lemma includesPath_In (x : string) (l : list string) :
  includesPath x l = true <-> In x l.
Proof.
  unfold includesPath. rewrite existsb_exists. split.
  - intros (y & Hy & E). apply String.eqb_eq in E. now subst y.
  - intros H. exists x. split; [exact H | apply String.eqb_refl].
Qed.

Lemma matchRoutes_passedOver (fallbackFalse : gmap string (list string))
      (u uL : string) (route : ManifestRoute) (rest : list ManifestRoute) :
  passedOver fallbackFalse u uL route ->
  matchRoutes fallbackFalse u uL (route :: rest)
  = matchRoutes fallbackFalse u uL rest.
Proof.
  intros [H|(paths & Hp & Hu & HuL)]; cbn [matchRoutes].
  - now rewrite H.
  - destruct (mr_test route u); [|reflexivity]. rewrite Hp.
    rewrite <- includesPath_In in Hu, HuL.
    apply not_true_is_false in Hu, HuL. now rewrite Hu, HuL.
Qed.

(** X17: the loop of [matchUrlToPage] answers with the page of the first
    route whose pattern matches the path and whose page either has no
    entry in [prerenderFallbackFalseMap] or has the path, with or without
    its locale, in its entry; every route in front of it is passed over.
    It finds no page exactly when every route is passed over. So a page
    without fallback is never the answer for a path that was not
    prerendered. *)
Theorem fallback_false_page_needs_prerendered_path
        (fallbackFalse : gmap string (list string)) (u uL : string)
        (routes : list ManifestRoute) :
  (forall page,
      matchRoutes fallbackFalse u uL routes = Some page ->
      exists pre route post,
        routes = pre ++ route :: post
        /\ page = mr_page route
        /\ mr_test route u = true
        /\ (forall paths, fallbackFalse !! page = Some paths ->
                          In u paths \/ In uL paths)
        /\ Forall (passedOver fallbackFalse u uL) pre)
  /\ (matchRoutes fallbackFalse u uL routes = None
      <-> Forall (passedOver fallbackFalse u uL) routes).
Proof.
  induction routes as [|route rest [IH1 IH2]].
  - split; [discriminate|]. split; [constructor | reflexivity].
  - assert (D : passedOver fallbackFalse u uL route
                \/ (mr_test route u = true
                    /\ (forall paths,
                           fallbackFalse !! mr_page route = Some paths ->
                           In u paths \/ In uL paths)
                    /\ matchRoutes fallbackFalse u uL (route :: rest)
                       = Some (mr_page route))).
    { unfold passedOver. cbn [matchRoutes].
      destruct (mr_test route u); [|now left; left].
      destruct (fallbackFalse !! mr_page route) as [paths|];
        [|right; repeat split; discriminate].
      destruct (includesPath u paths) eqn:Hu.
      - right. repeat split. intros ? [= <-]. left. now apply includesPath_In.
      - destruct (includesPath uL paths) eqn:HuL.
        + right. repeat split. intros ? [= <-]. right. now apply includesPath_In.
        + left. right. exists paths. split; [reflexivity|].
          rewrite <- !includesPath_In. rewrite Hu, HuL. split; discriminate. }
    destruct D as [Hpass|(Ht & Hf & Hm)].
    + rewrite (matchRoutes_passedOver _ _ _ _ rest Hpass). split.
      * intros page H.
        destruct (IH1 page H) as (pre & r & post & -> & Hp & Hr & Hpaths & Hpre).
        exists (route :: pre), r, post.
        repeat split; try assumption. constructor; assumption.
      * rewrite IH2. split.
        -- intros H. constructor; assumption.
        -- intros H. inversion H. assumption.
    + rewrite Hm. split.
      * intros page [= <-]. exists [], route, rest.
        repeat split; try assumption. constructor.
      * split; [discriminate|].
        intros H. inversion H as [|? ? [Hx|(paths & Hp & Hu & HuL)] _]; subst.
        -- congruence.
        -- destruct (Hf paths Hp); contradiction.
Qed.

(** The theorem on the loop at the map of the specification: the page
    [/posts/[slug]] with the one prerendered path [/posts/a]. *)
Lemma fallback_false_page_needs_prerendered_path_witness :
  let fallbackFalse : gmap string (list string) :=
    {[ "/posts/[slug]" := ["/posts/a"] ]} in
  let routes := [ {| mr_page := "/posts/[slug]";
                     mr_test := Js.startsWith "/posts/" |} ] in
  matchRoutes fallbackFalse "/posts/b" "/posts/b" routes = None
  /\ matchRoutes fallbackFalse "/posts/a" "/posts/a" routes = Some "/posts/[slug]".
Proof.
  intros fallbackFalse routes. split.
  - apply (proj2 (fallback_false_page_needs_prerendered_path
                    fallbackFalse "/posts/b" "/posts/b" routes)).
    constructor; [|constructor]. right. exists ["/posts/a"].
    split; [reflexivity|]. split; intros [H|[]]; discriminate H.
  - reflexivity.
Defined.

(** ** The page of a request on the edge *)





(** ** The locale of a request path *)

Lemma string_of_rev_rev (s : string) :
  string_of_list_ascii (rev (rev (list_ascii_of_string s) ++ [])) = s.
Proof.
  rewrite app_nil_r, rev_involutive. apply string_of_list_ascii_of_string.
Qed.

Lemma split_first_segment (seg rest : string) :
  Js.charIn "/" seg = false ->
  rest = "" \/ Js.startsWith "/" rest = true ->
  exists tail, Posix.split ("/" +:+ seg +:+ rest) = "" :: seg :: tail.
Proof.
  intros Hseg Hrest. unfold Posix.split.
  change ("/" +:+ seg +:+ rest) with (String "/" (seg +:+ rest)).
  rewrite PosixFacts.splitAux_slash, PosixFacts.splitAux_segment by exact Hseg.
  destruct Hrest as [->|Hrest].
  - exists []. cbn [Posix.splitAux]. now rewrite string_of_rev_rev.
  - destruct rest as [|c rest]; [discriminate Hrest|].
    cbn [Js.startsWith] in Hrest.
    destruct (Ascii.eqb "/" c) eqn:E; [|discriminate Hrest].
    apply Ascii.eqb_eq in E. subst c.
    rewrite PosixFacts.splitAux_slash, string_of_rev_rev. eauto.
Qed.

Lemma indexOfList_lookup (x : string) (l : list string) (k : nat) :
  indexOfList x l = Some k ->
  l !! k = Some x /\ forall j, j < k -> l !! j <> Some x.
Proof.
  revert k. induction l as [|y l IH]; intros k; [discriminate|].
  cbn [indexOfList]. destruct (String.eqb y x) eqn:E.
  - apply String.eqb_eq in E. subst y. intros [= <-]. split; [reflexivity|].
    intros j Hj. lia.
  - apply String.eqb_neq in E.
    destruct (indexOfList x l) as [i|]; [|discriminate].
    intros [= <-]. destruct (IH i eq_refl) as [H1 H2]. split; [exact H1|].
    intros [|j] Hj; simpl; [congruence|]. apply H2. lia.
Qed.

(** X19: for a path [/<segment><rest>], [normalizeLocalePath] looks the
    first segment up among the locales without regard to case. It finds
    the first locale that is equal to the segment once both are in lower
    case; when that locale is as long as the segment, it returns the rest
    of the path, or [/] when nothing is left, and records the locale as
    the configuration spells it. When no locale is equal to the segment
    in lower case, or no list of locales is given, the path is returned
    as it is and no locale is recorded. *)
Theorem locale_prefix_of_path (toLowerCase : string -> string)
        (locales : list string) (seg rest : string) :
  Js.charIn "/" seg = false ->
  seg <> "" ->
  rest = "" \/ Js.startsWith "/" rest = true ->
  let pathname := "/" +:+ seg +:+ rest in
  (forall k l,
      indexOfList (toLowerCase seg) (map toLowerCase locales) = Some k ->
      locales !! k = Some l ->
      Js.len l = Js.len seg ->
      normalizeLocalePath toLowerCase pathname (Some locales)
      = (if String.eqb rest "" then "/" else rest, Some l)
      /\ toLowerCase l = toLowerCase seg
      /\ forall j l', j < k -> locales !! j = Some l' ->
                      toLowerCase l' <> toLowerCase seg)
  /\ (indexOfList (toLowerCase seg) (map toLowerCase locales) = None ->
      normalizeLocalePath toLowerCase pathname (Some locales) = (pathname, None))
  /\ normalizeLocalePath toLowerCase pathname None = (pathname, None).
Proof.
  intros Hseg Hne Hrest pathname.
  destruct (split_first_segment seg rest Hseg Hrest) as (tail & Hsplit).
  assert (Ht : Js.truthy seg = true) by now apply truthy_true.
  split; [|split; [|reflexivity]].
  - intros k l Hk Hl Hlen. split; [|split].
    + unfold normalizeLocalePath. subst pathname. rewrite Hsplit, Ht. cbn [negb].
      rewrite Hk, Hl. cbn [default from_option id]. rewrite Hlen.
      replace (Js.len seg + 1) with (S (Js.len seg)) by lia.
      change ("/" +:+ seg +:+ rest) with (String "/" (seg +:+ rest)).
      cbn [Js.drop]. rewrite StrFacts.drop_app_len.
      unfold Js.truthy. destruct (String.eqb rest ""); reflexivity.
    + apply indexOfList_lookup in Hk. destruct Hk as [Hk _].
      rewrite list_lookup_fmap, Hl in Hk. now injection Hk.
    + intros j l' Hj Hl' E. apply indexOfList_lookup in Hk.
      destruct Hk as [_ Hk]. apply (Hk j Hj).
      rewrite list_lookup_fmap, Hl'. cbn. now rewrite E.
  - intros Hk. unfold normalizeLocalePath. subst pathname.
    rewrite Hsplit, Ht. cbn [negb]. now rewrite Hk.
Qed.

(** The theorem on the locale of a path at two locales and a path with
    the locale in upper case. *)
Lemma locale_prefix_of_path_witness :
  let lower := fun s => if String.eqb s "EN" then "en" else s in
  normalizeLocalePath lower "/EN/about" (Some ["fr"; "en"]) = ("/about", Some "en")
  /\ normalizeLocalePath lower "/de/about" (Some ["fr"; "en"])
     = ("/de/about", None).
Proof.
  intros lower.
  assert (H1 : "EN" <> "") by discriminate.
  assert (H2 : "de" <> "") by discriminate.
  split.
  - exact (proj1 (proj1 (locale_prefix_of_path lower ["fr"; "en"] "EN" "/about"
                           eq_refl H1 (or_intror eq_refl))
                    1 "en" eq_refl eq_refl eq_refl)).
  - exact (proj1 (proj2 (locale_prefix_of_path lower ["fr"; "en"] "de" "/about"
                           eq_refl H2 (or_intror eq_refl)))
             eq_refl).
Defined.

(** ** The image configuration *)

(** X20: [getImagesConfig] keeps the remote patterns in number and order:
    the host name and the path name, [**] when absent, are replaced by the
    source of the regular expression [picomatch] makes of them, port and
    search are kept, and the protocol loses one colon at its end. The
    sizes are the image sizes followed by the device sizes. Without an
    image configuration the remote patterns, the sizes and the domains
    are empty lists, while the local patterns stay undefined; they are
    undefined exactly when the configuration gives none. *)
Theorem image_config_projection (makeReSource : string -> bool -> string)
        (configImages : option ImageConfig) :
  let images := default noImageConfig configImages in
  let result := getImagesConfig makeReSource configImages in
  (configImages = None ->
   vi_remotePatterns result = [] /\ vi_sizes result = []
   /\ vi_domains result = [] /\ vi_localPatterns result = None)
  /\ vi_sizes result
     = default [] (ic_imageSizes images) ++ default [] (ic_deviceSizes images)
  /\ (vi_localPatterns result = None <-> ic_localPatterns images = None)
  /\ Forall2
       (fun p q =>
          rp_hostname q = makeReSource (rp_hostname p) false
          /\ rp_pathname q
             = Some (makeReSource (default "**" (rp_pathname p)) true)
          /\ rp_port q = rp_port p /\ rp_search q = rp_search p
          /\ (forall proto, rp_protocol p = Some (proto +:+ ":") ->
                            rp_protocol q = Some proto)
          /\ (forall proto, rp_protocol p = Some proto ->
                            Js.endsWith ":" proto = false ->
                            rp_protocol q = Some proto)
          /\ (rp_protocol p = None -> rp_protocol q = None))
       (default [] (ic_remotePatterns images))
       (vi_remotePatterns result).
Proof.
  intros images result. subst result. unfold getImagesConfig. fold images.
  cbn [vi_remotePatterns vi_sizes vi_domains vi_localPatterns].
  split; [|split; [|split]].
  - intros E. subst images. rewrite E. repeat split.
  - reflexivity.
  - destruct (ic_localPatterns images); split; intros H;
      first [discriminate H | reflexivity].
  - apply Forall2_map_same. intros p. cbn.
    repeat split.
    + intros proto E. rewrite E. cbn. now rewrite removeSuffix_app.
    + intros proto E H. rewrite E. cbn. unfold removeSuffix. now rewrite H.
    + intros E. now rewrite E.
Qed.

(** The theorem on the image configuration at a build without one. *)
Lemma image_config_projection_witness :
  vi_remotePatterns (getImagesConfig (fun glob _ => glob) None) = []
  /\ vi_localPatterns (getImagesConfig (fun glob _ => glob) None) = None.
Proof.
  destruct (proj1 (image_config_projection (fun glob _ => glob) None) eq_refl)
    as (H1 & _ & _ & H4).
  split; assumption.
Defined.

(** ** The cookies of a [set-cookie] header *)

Lemma advanceWhile_ge (p : ascii -> bool) (rest : string) (current : nat) :
  current <= advanceWhile p rest current.
Proof.
  revert current. induction rest as [|c rest IH]; intros current; simpl; [lia|].
  destruct (p c); [|lia]. specialize (IH (S current)). lia.
Qed.

Lemma advanceWhile_le (p : ascii -> bool) (rest : string) (current : nat) :
  advanceWhile p rest current <= current + Js.len rest.
Proof.
  unfold Js.len. revert current.
  induction rest as [|c rest IH]; intros current; simpl; [lia|].
  destruct (p c); [|lia]. specialize (IH (S current)). lia.
Qed.

Lemma skipWhitespace_ge (s : string) (current : nat) :
  current <= skipWhitespace s current.
Proof. apply advanceWhile_ge. Qed.

(** The inner loop ends within as many rounds as there are characters
    from [current] on, and one more; it ends at the end of the header. *)
Lemma scanCookie_ends (s : string) (rounds : nat) (st : CookieScan) :
  Js.len s - cs_current st < rounds ->
  exists st', scanCookie rounds s st = Some st' /\ Js.len s <= cs_current st'.
Proof.
  revert st. induction rounds as [|rounds IH]; intros st H; [lia|].
  cbn [scanCookie]. cbv zeta.
  pose proof (skipWhitespace_ge s (cs_current st)) as G.
  destruct (skipWhitespace s (cs_current st) <? Js.len s) eqn:L; cbn [negb].
  - apply Nat.ltb_lt in L.
    destruct (charAtIs s (skipWhitespace s (cs_current st)) ",").
    + pose proof (skipWhitespace_ge s (skipWhitespace s (cs_current st) + 1)) as G'.
      destruct ((skipToken s (skipWhitespace s (skipWhitespace s (cs_current st) + 1))
                 <? Js.len s)
                && charAtIs s
                     (skipToken s
                        (skipWhitespace s (skipWhitespace s (cs_current st) + 1)))
                     "=");
        apply IH; cbn [cs_current]; lia.
    + apply IH. cbn [cs_current]. lia.
  - apply Nat.ltb_ge in L. eexists. split; [reflexivity|]. exact L.
Qed.

Lemma scanHeader_ends (s : string) (rounds current : nat) (cookies : list string) :
  2 <= rounds ->
  exists result, scanHeader rounds s current cookies = Some result.
Proof.
  intros H. destruct rounds as [|[|rounds]]; try lia.
  cbn [scanHeader].
  destruct (current <? Js.len s); cbn [negb]; [|eauto].
  destruct (scanCookie_ends s (S (Js.len s))
              {| cs_current := current; cs_start := current;
                 cs_foundCookie := false; cs_cookies := cookies |})
    as (st & -> & Hst); [cbn; lia|].
  apply Nat.ltb_ge in Hst. rewrite Hst. cbn [negb]. eauto.
Qed.

Lemma scanHeader_done (s : string) (rounds current : nat) (cookies : list string) :
  Js.len s <= current ->
  scanHeader (S rounds) s current cookies = Some cookies.
Proof.
  intros H. cbn [scanHeader]. apply Nat.ltb_ge in H. now rewrite H.
Qed.

Lemma charAtIs_absent (s : string) (c : ascii) (i : nat) :
  Js.charIn c s = false -> charAtIs s i c = false.
Proof.
  unfold charAtIs. revert i. induction s as [|a s IH]; intros i H.
  - now destruct i.
  - simpl in H. apply orb_false_iff in H. destruct H as [Ha Hs].
    destruct i as [|i]; simpl; [exact Ha | apply IH, Hs].
Qed.

(** Without a comma from [current] on, the inner loop runs to the end of
    the header and leaves the other variables alone. *)
Lemma scanCookie_no_comma (s : string) (rounds : nat) (st : CookieScan) :
  (forall i, cs_current st <= i -> charAtIs s i "," = false) ->
  Js.len s - cs_current st < rounds ->
  exists current,
    Js.len s <= current
    /\ scanCookie rounds s st
       = Some {| cs_current := current; cs_start := cs_start st;
                 cs_foundCookie := cs_foundCookie st;
                 cs_cookies := cs_cookies st |}.
Proof.
  revert st. induction rounds as [|rounds IH]; intros st Hc H; [lia|].
  cbn [scanCookie]. cbv zeta.
  pose proof (skipWhitespace_ge s (cs_current st)) as G.
  destruct (skipWhitespace s (cs_current st) <? Js.len s) eqn:L; cbn [negb].
  - apply Nat.ltb_lt in L. rewrite (Hc _ G).
    destruct (IH {| cs_current := skipWhitespace s (cs_current st) + 1;
                    cs_start := cs_start st;
                    cs_foundCookie := cs_foundCookie st;
                    cs_cookies := cs_cookies st |})
      as (current & Hle & E).
    + cbn [cs_current]. intros i Hi. apply Hc. lia.
    + cbn [cs_current]. lia.
    + exists current. split; [exact Hle | exact E].
  - apply Nat.ltb_ge in L. eexists. split; [exact L | reflexivity].
Qed.

Lemma substring_all (s : string) : substring 0 (Js.len s) s = s.
Proof.
  unfold substring. rewrite Nat.min_0_l, Nat.max_0_l, Nat.sub_0_r.
  apply StrFacts.take_all.
Qed.

(** X21: [parseSetCookieHeader] comes to an end on every header and
    returns a list: neither of its loops needs more rounds than the header
    has characters, and one more. It returns no cookie for the empty
    header, and a header without comma that is not empty as the one
    cookie. *)
Theorem set_cookie_header_is_split (cookieHeader : string) :
  (exists cookies, parseSetCookieHeader cookieHeader = Some cookies)
  /\ (cookieHeader = "" -> parseSetCookieHeader cookieHeader = Some [])
  /\ (cookieHeader <> "" ->
      Js.charIn "," cookieHeader = false ->
      parseSetCookieHeader cookieHeader = Some [cookieHeader]).
Proof.
  split; [|split].
  - unfold parseSetCookieHeader.
    destruct cookieHeader as [|c s]; [now exists []|].
    apply scanHeader_ends. cbn. lia.
  - intros ->. reflexivity.
  - intros Hne Hc. unfold parseSetCookieHeader.
    destruct cookieHeader as [|c s]; [congruence|].
    set (h := String c s) in *.
    cbn [scanHeader].
    replace (0 <? Js.len h) with true by reflexivity. cbn [negb].
    destruct (scanCookie_no_comma h (S (Js.len h))
                {| cs_current := 0; cs_start := 0;
                   cs_foundCookie := false; cs_cookies := [] |})
      as (current & Hle & ->).
    + intros i _. now apply charAtIs_absent.
    + cbn [cs_current]. lia.
    + cbn [cs_current cs_start cs_foundCookie cs_cookies negb orb app].
      rewrite substring_all.
      change (scanHeader (Js.len h)) with (scanHeader (S (Js.len s))).
      now apply scanHeader_done.
Qed.

(** The theorem on the header at a cookie with attributes. *)
Lemma set_cookie_header_is_split_witness :
  parseSetCookieHeader "id=7; Path=/; HttpOnly" = Some ["id=7; Path=/; HttpOnly"]
  /\ parseSetCookieHeader "" = Some [].
Proof.
  assert (Hne : "id=7; Path=/; HttpOnly" <> "") by discriminate.
  split.
  - exact (proj2 (proj2 (set_cookie_header_is_split "id=7; Path=/; HttpOnly"))
             Hne eq_refl).
  - exact (proj1 (proj2 (set_cookie_header_is_split "")) eq_refl).
Defined.

(** ** Where a [set-cookie] header is split *)

Lemma advanceWhile_all (p : ascii -> bool) (pre post : string) (current : nat) :
  allChars p pre = true ->
  stopsAt p post ->
  advanceWhile p (pre +:+ post) current = current + Js.len pre.
Proof.
  unfold Js.len. intros Hpre Hpost. revert current.
  induction pre as [|c pre IH]; intros current.
  - change ("" +:+ post) with post. simpl.
    destruct post as [|d post]; simpl; [lia|].
    simpl in Hpost. rewrite Hpost. lia.
  - simpl in Hpre. apply andb_true_iff in Hpre. destruct Hpre as [Hc Hpre].
    rewrite StrFacts.app_cons. simpl. rewrite Hc, (IH Hpre). lia.
Qed.

Lemma advanceWhile_stops (p : ascii -> bool) (x post : string) (current : nat) :
  stopsAt p post ->
  advanceWhile p (x +:+ post) current <= current + Js.len x.
Proof.
  unfold Js.len. intros Hpost. revert current.
  induction x as [|c x IH]; intros current.
  - change ("" +:+ post) with post. simpl.
    destruct post as [|d post]; simpl; [lia|].
    simpl in Hpost. rewrite Hpost. lia.
  - rewrite StrFacts.app_cons. simpl. destruct (p c); [|lia].
    specialize (IH (S current)). lia.
Qed.

Lemma drop_add (n m : nat) (s : string) :
  Js.drop (n + m) s = Js.drop m (Js.drop n s).
Proof.
  revert s. induction n as [|n IH]; intros s; [reflexivity|].
  destruct s as [|c s]; simpl; [now destruct m | apply IH].
Qed.

Lemma charAtIs_drop (s : string) (k i : nat) (c : ascii) :
  charAtIs s (k + i) c = charAtIs (Js.drop k s) i c.
Proof. unfold charAtIs. now rewrite drop_add. Qed.

Lemma charAtIs_app_l (a y : string) (i : nat) (c : ascii) :
  i < Js.len a -> charAtIs (a +:+ y) i c = charAtIs a i c.
Proof.
  unfold charAtIs, Js.len. revert i. induction a as [|d a IH]; intros i H.
  - simpl in H. lia.
  - rewrite StrFacts.app_cons. destruct i as [|i]; simpl; [reflexivity|].
    apply IH. simpl in H. lia.
Qed.

Lemma charIn_app (c : ascii) (x y : string) :
  Js.charIn c (x +:+ y) = Js.charIn c x || Js.charIn c y.
Proof.
  induction x as [|d x IH]; [reflexivity|].
  rewrite StrFacts.app_cons. simpl. rewrite IH. now rewrite orb_assoc.
Qed.

Lemma token_no_comma (t : string) :
  allChars isTokenChar t = true -> Js.charIn "," t = false.
Proof.
  induction t as [|c t IH]; [reflexivity|].
  simpl. intros H. apply andb_true_iff in H. destruct H as [Hc Ht].
  rewrite (IH Ht), orb_false_r.
  unfold isTokenChar in Hc. destruct (Ascii.eqb c ","); [|reflexivity].
  rewrite andb_false_r in Hc. discriminate Hc.
Qed.

Lemma allChars_drop (p : ascii -> bool) (j : nat) (x : string) :
  allChars p x = true -> allChars p (Js.drop j x) = true.
Proof.
  revert j. induction x as [|c x IH]; intros j H; [now destruct j|].
  destruct j as [|j]; [exact H|].
  simpl in H. apply andb_true_iff in H. simpl. apply IH. tauto.
Qed.

Lemma substring_tail (s : string) (k : nat) :
  k <= Js.len s -> substring k (Js.len s) s = Js.drop k s.
Proof.
  intros H. unfold substring.
  rewrite Nat.min_l, Nat.max_r by exact H.
  rewrite <- StrFacts.len_drop. apply StrFacts.take_all.
Qed.

Lemma substring_head (a y : string) :
  substring 0 (Js.len a) (a +:+ y) = a.
Proof.
  unfold substring. rewrite Nat.min_0_l, Nat.max_0_l, Nat.sub_0_r.
  apply StrFacts.take_app_len.
Qed.

(** The result of the inner loop does not depend on the bound. *)
Lemma scanCookie_bound (s : string) (n m : nat) (st r1 r2 : CookieScan) :
  scanCookie n s st = Some r1 -> scanCookie m s st = Some r2 -> r1 = r2.
Proof.
  revert m st. induction n as [|n IH]; intros m st H1 H2; [discriminate H1|].
  destruct m as [|m]; [discriminate H2|].
  cbn [scanCookie] in H1, H2. cbv zeta in H1, H2.
  destruct (negb (skipWhitespace s (cs_current st) <? Js.len s));
    [congruence|].
  destruct (charAtIs s (skipWhitespace s (cs_current st)) ",");
    [|exact (IH _ _ H1 H2)].
  destruct ((skipToken s (skipWhitespace s (skipWhitespace s (cs_current st) + 1))
             <? Js.len s)
            && charAtIs s
                 (skipToken s
                    (skipWhitespace s (skipWhitespace s (cs_current st) + 1)))
                 "=");
    exact (IH _ _ H1 H2).
Qed.

Lemma scanEndsIn_run (s : string) (st st' : CookieScan) :
  scanEndsIn s st st' -> scanCookie (S (Js.len s)) s st = Some st'.
Proof.
  intros (rounds & H).
  destruct (scanCookie_ends s (S (Js.len s)) st) as (r & Hr & _); [lia|].
  rewrite Hr. f_equal. exact (scanCookie_bound _ _ _ _ _ _ Hr H).
Qed.

Lemma scanHeader_round (rounds : nat) (s : string) (current : nat)
      (cookies : list string) :
  scanHeader (S rounds) s current cookies
  = if negb (current <? Js.len s) then Some cookies
    else
      match scanCookie (S (Js.len s)) s
              {| cs_current := current; cs_start := current;
                 cs_foundCookie := false; cs_cookies := cookies |} with
      | None => None
      | Some st =>
          scanHeader rounds s (cs_current st)
            (if negb (cs_foundCookie st) || (Js.len s <=? cs_current st)
             then cs_cookies st ++ [substring (cs_start st) (Js.len s) s]
             else cs_cookies st)
      end.
Proof. reflexivity. Qed.

(** A header that the inner loop reads to its end in one pass. *)
Lemma parseSetCookieHeader_one_pass (s : string) (st : CookieScan) :
  0 < Js.len s ->
  scanEndsIn s {| cs_current := 0; cs_start := 0;
                  cs_foundCookie := false; cs_cookies := [] |} st ->
  Js.len s <= cs_current st ->
  parseSetCookieHeader s
  = Some (cs_cookies st ++ [substring (cs_start st) (Js.len s) s]).
Proof.
  intros Hpos Run Hle. apply scanEndsIn_run in Run.
  unfold parseSetCookieHeader. rewrite scanHeader_round.
  replace (0 <? Js.len s) with true by (symmetry; now apply Nat.ltb_lt).
  cbn [negb]. rewrite Run.
  replace (Js.len s <=? cs_current st) with true
    by (symmetry; now apply Nat.leb_le).
  rewrite orb_true_r.
  destruct (Js.len s) as [|n] eqn:El; [lia|].
  apply scanHeader_done. rewrite El. exact Hle.
Qed.

(** A round of the inner loop at a character that is not a comma. *)
Lemma scanEndsIn_char (s : string) (st st' : CookieScan) :
  skipWhitespace s (cs_current st) < Js.len s ->
  charAtIs s (skipWhitespace s (cs_current st)) "," = false ->
  scanEndsIn s {| cs_current := skipWhitespace s (cs_current st) + 1;
                  cs_start := cs_start st;
                  cs_foundCookie := cs_foundCookie st;
                  cs_cookies := cs_cookies st |} st' ->
  scanEndsIn s st st'.
Proof.
  intros L C (rounds & H). exists (S rounds).
  cbn [scanCookie]. cbv zeta. apply Nat.ltb_lt in L. rewrite L, C. exact H.
Qed.

(** A round of the inner loop at a comma. *)
Lemma scanEndsIn_comma (s : string) (st st' : CookieScan) :
  let cookieEnd := skipWhitespace s (cs_current st) in
  let attributeStart := skipWhitespace s (cookieEnd + 1) in
  let after := skipToken s attributeStart in
  cookieEnd < Js.len s ->
  charAtIs s cookieEnd "," = true ->
  scanEndsIn s
    (if (after <? Js.len s) && charAtIs s after "="
     then {| cs_current := attributeStart; cs_start := attributeStart;
             cs_foundCookie := true;
             cs_cookies := cs_cookies st ++ [substring (cs_start st) cookieEnd s] |}
     else {| cs_current := cookieEnd + 1; cs_start := cs_start st;
             cs_foundCookie := cs_foundCookie st;
             cs_cookies := cs_cookies st |})
    st' ->
  scanEndsIn s st st'.
Proof.
  cbv zeta. intros L C (rounds & H). exists (S rounds).
  cbn [scanCookie]. cbv zeta. apply Nat.ltb_lt in L. rewrite L, C. cbn [negb].
  destruct ((skipToken s (skipWhitespace s (skipWhitespace s (cs_current st) + 1))
             <? Js.len s)
            && charAtIs s
                 (skipToken s
                    (skipWhitespace s (skipWhitespace s (cs_current st) + 1)))
                 "="); exact H.
Qed.

Lemma scanEndsIn_no_comma (s : string) (st : CookieScan) :
  (forall i, cs_current st <= i -> charAtIs s i "," = false) ->
  exists current,
    Js.len s <= current
    /\ scanEndsIn s st {| cs_current := current; cs_start := cs_start st;
                          cs_foundCookie := cs_foundCookie st;
                          cs_cookies := cs_cookies st |}.
Proof.
  intros H.
  destruct (scanCookie_no_comma s (S (Js.len s)) st H) as (current & Hle & E);
    [lia|].
  exists current. split; [exact Hle|]. now exists (S (Js.len s)).
Qed.

Section OneComma.

Variable a rest : string.
Hypothesis Ha : Js.charIn "," a = false.

Local Abbreviation s := (a +:+ String "," rest).

Lemma skipWhitespace_in_a (current : nat) :
  current <= Js.len a -> skipWhitespace s current <= Js.len a.
Proof.
  intros H. unfold skipWhitespace.
  rewrite StrFacts.drop_app_le by exact H.
  pose proof (advanceWhile_stops isWhitespace (Js.drop current a)
                (String "," rest) current eq_refl) as B.
  rewrite StrFacts.len_drop in B. lia.
Qed.

Lemma skipWhitespace_at_comma : skipWhitespace s (Js.len a) = Js.len a.
Proof.
  unfold skipWhitespace. rewrite StrFacts.drop_app_len. reflexivity.
Qed.

Lemma comma_at_end_of_a : charAtIs s (Js.len a) "," = true.
Proof.
  unfold charAtIs. rewrite StrFacts.drop_app_len. reflexivity.
Qed.

Lemma len_s : Js.len s = Js.len a + S (Js.len rest).
Proof. rewrite StrFacts.len_app. reflexivity. Qed.

Lemma drop_behind_comma (k : nat) :
  Js.drop (Js.len a + 1 + k) s = Js.drop k rest.
Proof.
  rewrite <- Nat.add_assoc, drop_add.
  rewrite StrFacts.drop_app_len. reflexivity.
Qed.

(** The rounds of the inner loop up to the comma behind [a]. *)
Lemma scanEndsIn_to_comma (n : nat) (st st' : CookieScan) :
  Js.len a - cs_current st <= n ->
  cs_current st <= Js.len a ->
  (forall current,
      skipWhitespace s current = Js.len a ->
      scanEndsIn s {| cs_current := current; cs_start := cs_start st;
                      cs_foundCookie := cs_foundCookie st;
                      cs_cookies := cs_cookies st |} st') ->
  scanEndsIn s st st'.
Proof.
  revert st. induction n as [|n IH]; intros st Hn Hle K.
  - assert (E : cs_current st = Js.len a) by lia.
    destruct st as [c0 s0 f0 k0]. cbn in *. subst c0.
    apply K, skipWhitespace_at_comma.
  - pose proof (skipWhitespace_in_a (cs_current st) Hle) as B.
    pose proof (skipWhitespace_ge s (cs_current st)) as G.
    destruct (Nat.eq_dec (skipWhitespace s (cs_current st)) (Js.len a)) as [E|E].
    + destruct st as [c0 s0 f0 k0]. cbn in *. apply K, E.
    + apply scanEndsIn_char.
      * rewrite len_s. lia.
      * assert (L : skipWhitespace s (cs_current st) < Js.len a) by lia.
        rewrite charAtIs_app_l by exact L.
        now apply charAtIs_absent.
      * apply IH; cbn [cs_current cs_start cs_foundCookie cs_cookies];
          [lia | lia | exact K].
Qed.

End OneComma.

(** X22: [parseSetCookieHeader] splits a header at a comma when a name and
    an equals sign follow it: for a text [a] without comma, white space,
    a name without [=], [;] and [,] that does not start with white space,
    and a rest without comma, the header [a,<white space><name>=<rest>]
    gives the two cookies [a] and [<name>=<rest>]. It does not split at a
    comma inside an attribute: when the comma is followed by characters
    other than [=], [;] and [,] up to a semicolon or the end, the
    header stays one cookie. *)
Theorem set_cookie_split_at_names (a : string) :
  Js.charIn "," a = false ->
  (forall ws name value,
      allChars isWhitespace ws = true ->
      allChars isTokenChar name = true ->
      stopsAt isWhitespace (name +:+ "=") ->
      Js.charIn "," value = false ->
      parseSetCookieHeader (a +:+ "," +:+ ws +:+ name +:+ "=" +:+ value)
      = Some [a; name +:+ "=" +:+ value])
  /\ (forall x y,
         allChars isTokenChar x = true ->
         y = "" \/ Js.startsWith ";" y = true ->
         Js.charIn "," y = false ->
         parseSetCookieHeader (a +:+ "," +:+ x +:+ y)
         = Some [a +:+ "," +:+ x +:+ y]).
Proof.
  intros Ha. split.
  - intros ws name value Hws Hname Hstart Hvalue.
    set (rest := ws +:+ name +:+ "=" +:+ value).
    set (s := a +:+ String "," rest).
    change (parseSetCookieHeader s = Some [a; name +:+ "=" +:+ value]).
    pose proof (len_s a rest) as Hlen. fold s in Hlen.
    set (attributeStart := Js.len a + 1 + Js.len ws).
    assert (Drop : Js.drop attributeStart s = name +:+ "=" +:+ value).
    { unfold attributeStart, s. rewrite drop_behind_comma.
      apply StrFacts.drop_app_len. }
    assert (Hrest : Js.len rest = Js.len ws + Js.len (name +:+ "=" +:+ value)).
    { unfold rest. apply StrFacts.len_app. }
    assert (Hnv : Js.len (name +:+ "=" +:+ value)
                  = Js.len name + S (Js.len value)).
    { rewrite StrFacts.len_app. reflexivity. }
    assert (Run : exists current,
               Js.len s <= current
               /\ scanEndsIn s
                    {| cs_current := 0; cs_start := 0;
                       cs_foundCookie := false; cs_cookies := [] |}
                    {| cs_current := current; cs_start := attributeStart;
                       cs_foundCookie := true; cs_cookies := [a] |}).
    {
      destruct (scanEndsIn_no_comma s
                  {| cs_current := attributeStart; cs_start := attributeStart;
                     cs_foundCookie := true; cs_cookies := [a] |})
        as (current & Hle & E).
      { cbn [cs_current]. intros i Hi.
        replace i with (attributeStart + (i - attributeStart)) by lia.
        rewrite charAtIs_drop, Drop. apply charAtIs_absent.
        rewrite !charIn_app, (token_no_comma name Hname), Hvalue. reflexivity. }
      exists current. split; [exact Hle|].
      apply (scanEndsIn_to_comma a rest Ha (Js.len a)); cbn [cs_current]; [lia | lia |].
      intros c0 Hc0. fold s in Hc0. fold s.
      cbn [cs_start cs_foundCookie cs_cookies].
      apply scanEndsIn_comma; cbn [cs_current cs_start cs_foundCookie cs_cookies];
        cbv zeta; rewrite Hc0.
      - lia.
      - apply comma_at_end_of_a.
      - assert (A1 : skipWhitespace s (Js.len a + 1) = attributeStart).
        { unfold skipWhitespace.
          replace (Js.len a + 1) with (Js.len a + 1 + 0) at 1 by lia.
          unfold s at 1. rewrite drop_behind_comma. cbn [Js.drop].
          unfold rest, attributeStart.
          apply advanceWhile_all; [exact Hws|].
          destruct name; exact Hstart. }
        rewrite A1.
        assert (A2 : skipToken s attributeStart = attributeStart + Js.len name).
        { unfold skipToken. rewrite Drop.
          apply advanceWhile_all; [exact Hname | reflexivity]. }
        rewrite A2.
        assert (A3 : charAtIs s (attributeStart + Js.len name) "=" = true).
        { rewrite charAtIs_drop, Drop. unfold charAtIs.
          rewrite StrFacts.drop_app_len. reflexivity. }
        rewrite A3.
        assert (A4 : (attributeStart + Js.len name <? Js.len s) = true).
        { apply Nat.ltb_lt. unfold attributeStart. lia. }
        rewrite A4. cbn [andb app].
        unfold s at 2. rewrite substring_head. exact E. }
    destruct Run as (current & Hle & Run).
    rewrite (parseSetCookieHeader_one_pass s _ ltac:(lia) Run Hle).
    cbn [cs_start cs_cookies app].
    rewrite substring_tail by (unfold attributeStart; lia).
    now rewrite Drop.
  - intros x y Hx Hy Hc.
    set (rest := x +:+ y).
    set (s := a +:+ String "," rest).
    change (parseSetCookieHeader s = Some [s]).
    pose proof (len_s a rest) as Hlen. fold s in Hlen.
    assert (Hrest : Js.len rest = Js.len x + Js.len y)
      by apply StrFacts.len_app.
    assert (Sy : stopsAt isWhitespace y /\ stopsAt isTokenChar y
                 /\ charAtIs y 0 "=" = false).
    { destruct Hy as [->|Hy]; [repeat split|].
      destruct y as [|c y]; [discriminate Hy|].
      cbn [Js.startsWith] in Hy.
      destruct (Ascii.eqb ";" c) eqn:E; [|discriminate Hy].
      apply Ascii.eqb_eq in E. subst c. repeat split. }
    destruct Sy as (Sw & St & Se).
    destruct (scanEndsIn_no_comma s
                {| cs_current := Js.len a + 1; cs_start := 0;
                   cs_foundCookie := false; cs_cookies := [] |})
      as (current & Hle & E).
    { cbn [cs_current]. intros i Hi.
      replace i with (Js.len a + 1 + (i - (Js.len a + 1))) by lia.
      rewrite charAtIs_drop.
      replace (Js.len a + 1) with (Js.len a + 1 + 0) by lia.
      unfold s. rewrite drop_behind_comma. cbn [Js.drop].
      apply charAtIs_absent. unfold rest.
      rewrite charIn_app, (token_no_comma x Hx), Hc. reflexivity. }
    assert (Run : scanEndsIn s
                    {| cs_current := 0; cs_start := 0;
                       cs_foundCookie := false; cs_cookies := [] |}
                    {| cs_current := current; cs_start := 0;
                       cs_foundCookie := false; cs_cookies := [] |}).
    { apply (scanEndsIn_to_comma a rest Ha (Js.len a)); cbn [cs_current]; [lia | lia |].
      intros c0 Hc0. fold s in Hc0. fold s.
      cbn [cs_start cs_foundCookie cs_cookies].
      apply scanEndsIn_comma; cbn [cs_current cs_start cs_foundCookie cs_cookies];
        cbv zeta; rewrite Hc0.
      - lia.
      - apply comma_at_end_of_a.
      - set (p := skipWhitespace s (Js.len a + 1)).
        assert (P1 : Js.len a + 1 <= p) by apply skipWhitespace_ge.
        assert (P2 : p <= Js.len a + 1 + Js.len x).
        { unfold p, skipWhitespace.
          replace (Js.len a + 1) with (Js.len a + 1 + 0) at 1 by lia.
          unfold s. rewrite drop_behind_comma. cbn [Js.drop]. unfold rest.
          apply advanceWhile_stops, Sw. }
        assert (D : Js.drop p s = Js.drop (p - (Js.len a + 1)) x +:+ y).
        { replace p with (Js.len a + 1 + (p - (Js.len a + 1))) at 1 by lia.
          unfold s. rewrite drop_behind_comma. unfold rest.
          apply StrFacts.drop_app_le. lia. }
        assert (A2 : skipToken s p = Js.len a + 1 + Js.len x).
        { unfold skipToken. rewrite D.
          rewrite advanceWhile_all; [| now apply allChars_drop | exact St].
          rewrite StrFacts.len_drop. lia. }
        rewrite A2.
        assert (A3 : charAtIs s (Js.len a + 1 + Js.len x) "=" = false).
        { rewrite <- (Nat.add_0_r (Js.len a + 1 + Js.len x)).
          rewrite (charAtIs_drop s (Js.len a + 1 + Js.len x) 0).
          unfold s. rewrite drop_behind_comma.
          unfold rest. rewrite StrFacts.drop_app_len. exact Se. }
        rewrite A3, andb_false_r. exact E. }
    rewrite (parseSetCookieHeader_one_pass s _ ltac:(lia) Run Hle).
    cbn [cs_start cs_cookies app]. now rewrite substring_all.
Qed.

(** The theorem at a header with two cookies and at a header whose
    [Expires] attribute holds a comma. *)
Lemma set_cookie_split_at_names_witness :
  parseSetCookieHeader "id=7; Path=/, theme=dark; HttpOnly"
  = Some ["id=7; Path=/"; "theme=dark; HttpOnly"]
  /\ parseSetCookieHeader "id=7; Expires=Wed, 21 Oct 2015 07:28:00 GMT; Path=/"
     = Some ["id=7; Expires=Wed, 21 Oct 2015 07:28:00 GMT; Path=/"].
Proof.
  split.
  - exact (proj1 (set_cookie_split_at_names "id=7; Path=/" eq_refl)
             " " "theme" "dark; HttpOnly" eq_refl eq_refl eq_refl eq_refl).
  - exact (proj2 (set_cookie_split_at_names "id=7; Expires=Wed" eq_refl)
             " 21 Oct 2015 07:28:00 GMT" "; Path=/"
             eq_refl (or_intror eq_refl) eq_refl).
Defined.
